(** * Multirole: webhook endpoint and git mirror synchronisation

    A shallow embedding of [WebhookEndpoint.cpp], [GitRepo.cpp] and the
    helpers of [libgit2.hpp], with the properties the design document
    states about them.

    - C++ strings are [string]s (sequences of 8-bit characters);
    - libgit2 is an interface ([LibGit2]): every entry point returns its
      [int] status together with the message it leaves for [giterr_last];
    - exceptions, the mutable fields of [GitRepo] and everything the code
      does to the outside (logging, libgit2 calls, observer callbacks,
      socket writes) are threaded through the monad [M]. *)

From Stdlib Require Import String Ascii List ZArith Bool Lia Arith.
Import ListNotations.
Open Scope string_scope.

(* ================================================================= *)
(** ** The C++ standard library, as far as the sources use it *)

Module Std.

(** [std::string(size_type count, char ch)]: [count] copies of [ch]. *)
Fixpoint string_fill (count : nat) (ch : ascii) : string :=
  match count with
  | O => EmptyString
  | S n => String ch (string_fill n ch)
  end.

(** Implicit integral conversions at a call site: a [char] used as a
    [size_type] is its code, an [int] used as a [char] is its low byte. *)
Definition size_of_char (c : ascii) : nat := nat_of_ascii c.
Definition char_of_int (i : Z) : ascii := ascii_of_N (Z.to_N (i mod 256)).

(** [s.back()]: the last character; undefined on an empty string
    ([None]). *)
Fixpoint back (s : string) : option ascii :=
  match s with
  | EmptyString => None
  | String c EmptyString => Some c
  | String _ rest => back rest
  end.

(** [s.push_back(c)] and [s += c]. *)
Definition push_back (s : string) (c : ascii) : string :=
  s ++ String c EmptyString.

(** A [std::string] or [std::string_view] built from a [const char]
    pointer: the characters before the first NUL. *)
Fixpoint of_c_str (s : string) : string :=
  match s with
  | EmptyString => EmptyString
  | String c rest =>
      if Ascii.eqb c Ascii.zero then EmptyString
      else String c (of_c_str rest)
  end.

(** [hay.find(needle)] of [std::string_view], from position 0: the
    lowest index at which [needle] starts, [npos] ([None]) when there is
    none.  An empty needle is found at 0. *)
Fixpoint find_from (needle hay : string) (pos : nat) : option nat :=
  if String.prefix needle hay then Some pos
  else match hay with
       | EmptyString => None
       | String _ rest => find_from needle rest (S pos)
       end.

Definition find (hay needle : string) : option nat :=
  find_from needle hay 0.

Definition is_npos (r : option nat) : bool :=
  match r with None => true | Some _ => false end.

End Std.

(** [needle] occurs in [hay] as a contiguous run of characters. *)
Definition substring_of (needle hay : string) : Prop :=
  exists pre post : string, hay = pre ++ needle ++ post.

(* ================================================================= *)
(** ** [NormalizeDirPath] *)

(** The guard of the source is written as it stands there:
    [tmp.back() != '/' || tmp.back() != '\\']. *)
Definition NormalizeDirPath (str : string) : option string :=
  let tmp := str in
  match Std.back tmp with
  | None => None
  | Some b =>
      if negb (Ascii.eqb b "/") || negb (Ascii.eqb b "\")
      then Some (Std.push_back tmp "/")
      else Some tmp
  end.

(* ================================================================= *)
(** ** libgit2: the data the sources read, and the calls they make *)

(** [git_oid]: the raw bytes of an object id ([unsigned char id[20]]). *)
Definition git_oid := list Byte.byte.

(** [git_oid_iszero]: 1 when every byte is zero, 0 otherwise. *)
Definition git_oid_iszero (oid : git_oid) : Z :=
  if forallb (Byte.eqb Byte.x00) oid then 1 else 0.

Record git_diff_file := { id : git_oid; path : string }.

Record git_diff_delta :=
  { old_file : git_diff_file; new_file : git_diff_file }.

(** A [git_diff] is the list of its deltas, in the order
    [git_diff_foreach] visits them. *)
Definition git_diff := list git_diff_delta.

Record git_index_entry := { entry_id : git_oid; entry_path : string }.

(** A [git_index] is the vector of its entries. *)
Definition git_index := list git_index_entry.

Definition git_index_entrycount (index : git_index) : nat := length index.

(** [git_index_get_byindex]: the entry at position [n], [NULL] ([None])
    out of range. *)
Definition git_index_get_byindex (index : git_index) (n : nat)
  : option git_index_entry := nth_error index n.

(** [git_diff_foreach] with a file callback only: the callback runs on
    every delta in order, a non-zero return stops the walk and becomes the
    status. *)
Fixpoint git_diff_foreach {P : Type} (diff : git_diff)
    (file_cb : git_diff_delta -> P -> Z * P) (payload : P) : Z * P :=
  match diff with
  | [] => (0%Z, payload)
  | delta :: rest =>
      let '(error, payload') := file_cb delta payload in
      if (error =? 0)%Z then git_diff_foreach rest file_cb payload'
      else (error, payload')
  end.

Inductive git_otype := GIT_OBJ_TREE.
Inductive git_reset_t := GIT_RESET_HARD.

(** [GitRepo::Credentials]: a (user name, password) pair. *)
Definition Credentials := (string * string)%type.

(** What a libgit2 call hands back: its [int] status, the message
    [giterr_last] reports when the status is negative, and the value
    written through its out-parameter (for [git_remote_fetch] and
    [git_reset]: the repository as the call leaves it). *)
Record git_result (A : Type) :=
  GitResult { error : Z; message : string; value : A }.
Arguments GitResult {A} _ _ _.
Arguments error {A} _.
Arguments message {A} _.
Arguments value {A} _.

(** The part of libgit2 the sources call.  [repository] is all that
    lies behind a [git_repository] pointer: the directory on disk with
    its object database, references, index and working tree, and the
    remote it can reach.  [is_directory] is the one question the
    constructor asks the file system ([boost::filesystem]). *)
Class LibGit2 := {
  repository : Type;
  is_directory : repository -> string -> bool;
  git_repository_open_ext : repository -> string -> git_result unit;
  git_clone :
    repository -> string -> string -> option Credentials
    -> git_result repository;
  git_repository_open : repository -> string -> git_result repository;
  git_remote : Type;
  git_commit : Type;
  git_object : Type;
  git_tree : Type;
  git_remote_lookup : repository -> string -> git_result git_remote;
  git_remote_fetch :
    repository -> git_remote -> option Credentials -> git_result repository;
  git_reference_name_to_id : repository -> string -> git_result git_oid;
  git_commit_lookup : repository -> git_oid -> git_result git_commit;
  git_reset :
    repository -> git_commit -> git_reset_t -> git_result repository;
  git_revparse_single : repository -> string -> git_result git_object;
  git_object_peel : git_object -> git_otype -> git_result git_tree;
  git_diff_tree_to_tree :
    repository -> git_tree -> git_tree -> git_result git_diff;
  git_repository_index : repository -> git_result git_index
}.

(* ================================================================= *)
(** ** Observers, exceptions, events *)

Definition PathVector := list string.

Record GitDiff := { removed : PathVector; added : PathVector }.

(** What a C++ [throw] carries: an exception derived from
    [std::exception] with its [what()], or anything else. *)
Inductive exception :=
| std_exception (what : string)
| foreign_exception.

Definition runtime_error (what : string) : exception := std_exception what.
Definition system_error (what : string) : exception := std_exception what.

(** An observer is known by the pointer stored in [GitRepo::observers]. *)
Definition observer := nat.

(** [IGitRepoObserver]: the two callbacks.  The sources only call them;
    an implementation is given by what each call raises, if anything. *)
Class IGitRepoObserver := {
  OnAdd : observer -> string -> PathVector -> option exception;
  OnDiff : observer -> string -> GitDiff -> option exception
}.

(** The message identifiers of [I18N.hpp] that these sources log. *)
Inductive I18N :=
| GIT_REPO_DOES_NOT_EXIST
| GIT_REPO_CLONING_COMPLETED
| GIT_REPO_EXISTS
| GIT_REPO_CHECKING_UPDATES
| GIT_REPO_UPDATE_COMPLETED
| GIT_REPO_WEBHOOK_TRIGGERED
| GIT_REPO_WEBHOOK_NO_TOKEN
| GIT_REPO_FINISHED_UPDATING
| GIT_REPO_UPDATE_EXCEPT.

Inductive spdlog_level := spdlog_info | spdlog_error.

Inductive libgit2_call :=
| call_repository_open_ext (dir : string)
| call_clone (url dir : string)
| call_repository_open (dir : string)
| call_repository_free
| call_remote_lookup (name : string)
| call_remote_fetch
| call_reference_name_to_id (name : string)
| call_commit_lookup
| call_reset
| call_revparse_single (spec : string)
| call_object_peel
| call_diff_tree_to_tree
| call_diff_foreach
| call_repository_index.

(** Everything visible from outside, in the order it happens. *)
Inductive event :=
| EvIsDirectory (dir : string) (answer : bool)
| EvLog (lvl : spdlog_level) (fmt : I18N) (args : list string)
| EvCall (c : libgit2_call) (status : Z)
| EvOnAdd (obs : observer) (root : string) (pv : PathVector)
| EvOnDiff (obs : observer) (root : string) (diff : GitDiff)
| EvWrite (bytes : string).

(* ================================================================= *)
(** ** The monad of the embedding *)

Inductive outcome (A : Type) :=
| Return (a : A)
| Throw (e : exception)
| Undefined.   (* undefined behaviour: a null or past-the-end access *)
Arguments Return {A} _.
Arguments Throw {A} _.
Arguments Undefined {A}.

Section Monad.
Context {G : LibGit2}.

(** The mutable state: the mirror behind [GitRepo::repo], libgit2's
    last error message, [GitRepo::observers], and whether the acceptor
    of the endpoint is open. *)
Record state := {
  repo : repository;
  giterr : string;
  observers : list observer;
  acceptor_is_open : bool
}.

Record run (A : Type) := {
  result : outcome A;
  final : state;
  events : list event
}.
Arguments result {A} _.
Arguments final {A} _.
Arguments events {A} _.

Definition M (A : Type) : Type := state -> run A.

Definition ret {A} (a : A) : M A :=
  fun s => {| result := Return a; final := s; events := [] |}.

Definition bind {A B} (m : M A) (k : A -> M B) : M B :=
  fun s =>
    let r := m s in
    match result r with
    | Return a =>
        let r' := k a (final r) in
        {| result := result r'; final := final r';
           events := events r ++ events r' |}
    | Throw e =>
        {| result := Throw e; final := final r; events := events r |}
    | Undefined =>
        {| result := Undefined; final := final r; events := events r |}
    end.

Definition throw {A} (e : exception) : M A :=
  fun s => {| result := Throw e; final := s; events := [] |}.

Definition undefined {A} : M A :=
  fun s => {| result := Undefined; final := s; events := [] |}.

Definition emit (e : event) : M unit :=
  fun s => {| result := Return tt; final := s; events := [e] |}.

Definition gets {A} (f : state -> A) : M A :=
  fun s => {| result := Return (f s); final := s; events := [] |}.

Definition modify (f : state -> state) : M unit :=
  fun s => {| result := Return tt; final := f s; events := [] |}.

(** [try { body } catch(const std::exception& e) { handler(e.what()) }]:
    an exception that is not a [std::exception] passes through. *)
Definition try_catch {A} (body : M A) (handler : string -> M A) : M A :=
  fun s =>
    let r := body s in
    match result r with
    | Throw (std_exception what) =>
        let r' := handler what (final r) in
        {| result := result r'; final := final r';
           events := events r ++ events r' |}
    | _ => r
    end.

(** [try { body } catch(...) { cleanup; throw; }]: whatever was thrown
    is thrown again after the cleanup. *)
Definition try_rethrow {A} (body : M A) (cleanup : M unit) : M A :=
  fun s =>
    let r := body s in
    match result r with
    | Throw e =>
        let r' := cleanup (final r) in
        {| result := match result r' with
                     | Return _ => Throw e
                     | Throw e' => Throw e'
                     | Undefined => Undefined
                     end;
           final := final r';
           events := events r ++ events r' |}
    | _ => r
    end.

Definition set_repo (r : repository) (s : state) : state :=
  {| repo := r; giterr := giterr s; observers := observers s;
     acceptor_is_open := acceptor_is_open s |}.

Definition set_giterr (msg : string) (s : state) : state :=
  {| repo := repo s; giterr := msg; observers := observers s;
     acceptor_is_open := acceptor_is_open s |}.

Definition set_observers (l : list observer) (s : state) : state :=
  {| repo := repo s; giterr := giterr s; observers := l;
     acceptor_is_open := acceptor_is_open s |}.

Definition set_acceptor (b : bool) (s : state) : state :=
  {| repo := repo s; giterr := giterr s; observers := observers s;
     acceptor_is_open := b |}.

(** A libgit2 call that only reads the repository: it is recorded, and
    a negative status leaves its message for [giterr_last]. *)
Definition call {A} (c : libgit2_call) (f : repository -> git_result A)
  : M (Z * A) :=
  fun s =>
    let r := f (repo s) in
    {| result := Return (error r, value r);
       final := if (error r <? 0)%Z then set_giterr (message r) s else s;
       events := [EvCall c (error r)] |}.

(** A libgit2 call that changes the repository. *)
Definition call_mut (c : libgit2_call)
    (f : repository -> git_result repository) : M Z :=
  fun s =>
    let r := f (repo s) in
    let s' := set_repo (value r) s in
    {| result := Return (error r);
       final := if (error r <? 0)%Z then set_giterr (message r) s' else s';
       events := [EvCall c (error r)] |}.

Definition spdlog (lvl : spdlog_level) (fmt : I18N) (args : list string)
  : M unit := emit (EvLog lvl fmt args).

End Monad.

Arguments result {G A} _.
Arguments final {G A} _.
Arguments events {G A} _.

Declare Scope monad_scope.
Delimit Scope monad_scope with monad.
Notation "x <- m ;; k" := (bind m (fun x => k))
  (at level 61, m at next level, right associativity) : monad_scope.
Notation "' pat <- m ;; k" := (bind m (fun x => let pat := x in k))
  (at level 61, pat pattern, m at next level, right associativity)
  : monad_scope.
Notation "m ;; k" := (bind m (fun _ => k))
  (at level 61, right associativity) : monad_scope.
Open Scope monad_scope.

(* ================================================================= *)
(** ** [namespace Git] of [libgit2.hpp] *)

Module Git.
Section Git.
Context {G : LibGit2}.

(** [Check]: returns on a non-negative status, otherwise throws a
    [std::runtime_error] with libgit2's last message. *)
Definition Check (error : Z) : M unit :=
  if (error >=? 0)%Z then ret tt
  else (msg <- gets giterr ;; throw (runtime_error msg)).

(** [MakeUnique(ctor, args...)]: runs the constructor, checks its
    status, and owns the object. *)
Definition MakeUnique {A} (ctor : M (Z * A)) : M A :=
  '(error, obj) <- ctor ;;
  Check error ;;
  ret obj.

(** [Peel<git_tree>(objPtr)]. *)
Definition Peel (objPtr : git_object) : M git_tree :=
  '(error, obj) <-
    call call_object_peel (fun _ => git_object_peel objPtr GIT_OBJ_TREE) ;;
  Check error ;;
  ret obj.

End Git.
End Git.

(* ================================================================= *)
(** ** [class GitRepo] *)

(** The fields of a [GitRepo] that are fixed by its constructor. *)
Record GitRepo := {
  token : string;
  remote : string;
  root : string;       (* the member [path] *)
  credPtr : option Credentials
}.

(** The options object the constructor reads ([boost::json::value]). *)
Record Options := {
  webhookPort : Z;
  webhookToken : string;
  opt_remote : string;
  opt_path : string;
  credentials : option (string * string)
}.

Module GitRepoImpl.
Section GitRepoImpl.
Context {G : LibGit2} {Obs : IGitRepoObserver}.
Variable this : GitRepo.

(** [CheckIfRepoExists]. *)
Definition CheckIfRepoExists : M bool :=
  '(error, _) <- call (call_repository_open_ext (root this))
    (fun repo => git_repository_open_ext repo (root this)) ;;
  ret (error =? 0)%Z.

(** [Clone]: git clone <url>. *)
Definition Clone : M unit :=
  let cloneOpts := credPtr this in
  error <- call_mut (call_clone (remote this) (root this))
    (fun repo => git_clone repo (remote this) (root this) cloneOpts) ;;
  Git.Check error ;;
  spdlog spdlog_info GIT_REPO_CLONING_COMPLETED [].

(** [Fetch]: git fetch. *)
Definition Fetch : M unit :=
  let fetchOpts := credPtr this in
  remote <- Git.MakeUnique
    (call (call_remote_lookup "origin")
          (fun repo => git_remote_lookup repo "origin")) ;;
  error <- call_mut call_remote_fetch
    (fun repo => git_remote_fetch repo remote fetchOpts) ;;
  Git.Check error.

(** [ResetToFetchHead]: git reset --hard FETCH_HEAD. *)
Definition ResetToFetchHead : M unit :=
  '(error, oid) <- call (call_reference_name_to_id "FETCH_HEAD")
    (fun repo => git_reference_name_to_id repo "FETCH_HEAD") ;;
  Git.Check error ;;
  commit <- Git.MakeUnique
    (call call_commit_lookup (fun repo => git_commit_lookup repo oid)) ;;
  error <- call_mut call_reset
    (fun repo => git_reset repo commit GIT_RESET_HARD) ;;
  Git.Check error.

(** The lambda [FileCb] of [GetFilesDiff]; [diff] is its payload. *)
Definition FileCb (delta : git_diff_delta) (diff : GitDiff) : Z * GitDiff :=
  if (git_oid_iszero (id (old_file delta)) =? 1)%Z then
    (0%Z, {| removed := removed diff;
             added := (added diff ++ [path (new_file delta)])%list |})
  else if (git_oid_iszero (id (new_file delta)) =? 1)%Z then
    (0%Z, {| removed := (removed diff ++ [path (old_file delta)])%list;
             added := added diff |})
  else
    (0%Z, {| removed := (removed diff ++ [path (old_file delta)])%list;
             added := (added diff ++ [path (new_file delta)])%list |}).

(** [GetFilesDiff]: git diff ..FETCH_HEAD. *)
Definition GetFilesDiff : M GitDiff :=
  obj1 <- Git.MakeUnique
    (call (call_revparse_single "HEAD")
          (fun repo => git_revparse_single repo "HEAD")) ;;
  obj2 <- Git.MakeUnique
    (call (call_revparse_single "FETCH_HEAD")
          (fun repo => git_revparse_single repo "FETCH_HEAD")) ;;
  t1 <- Git.Peel obj1 ;;
  t2 <- Git.Peel obj2 ;;
  obj3 <- Git.MakeUnique
    (call call_diff_tree_to_tree
          (fun repo => git_diff_tree_to_tree repo t1 t2)) ;;
  let diff := {| removed := []; added := [] |} in
  '(error, diff) <- call call_diff_foreach
    (fun _ =>
       let '(error, diff) := git_diff_foreach obj3 FileCb diff in
       GitResult error "" diff) ;;
  Git.Check error ;;
  ret diff.

(** The loop of [GetTrackedFiles], from index [i] with [n] iterations
    left; dereferencing a null entry is undefined. *)
Fixpoint tracked_loop (index : git_index) (i n : nat) (pv : PathVector)
  : option PathVector :=
  match n with
  | O => Some pv
  | S n' =>
      match git_index_get_byindex index i with
      | None => None
      | Some entry => tracked_loop index (S i) n' (pv ++ [entry_path entry])%list
      end
  end.

(** [GetTrackedFiles]: git ls-files. *)
Definition GetTrackedFiles : M PathVector :=
  index <- Git.MakeUnique
    (call call_repository_index (fun repo => git_repository_index repo)) ;;
  let entryCount := git_index_entrycount index in
  match tracked_loop index 0 entryCount [] with
  | Some pv => ret pv
  | None => undefined
  end.

(** An observer callback: recorded, then whatever it raises. *)
Definition invoke (e : event) (raised : option exception) : M unit :=
  emit e ;;
  match raised with
  | None => ret tt
  | Some ex => throw ex
  end.

Definition empty {A} (l : list A) : bool :=
  match l with [] => true | _ => false end.

(** [AddObserver]. *)
Definition AddObserver (obs : observer) : M unit :=
  modify (fun s => set_observers (observers s ++ [obs])%list s) ;;
  pv <- GetTrackedFiles ;;
  if negb (empty pv)
  then invoke (EvOnAdd obs (root this) pv) (OnAdd obs (root this) pv)
  else ret tt.

(** [for(auto& obs : observers) obs->OnDiff(path, diff);] *)
Fixpoint notify (obss : list observer) (diff : GitDiff) : M unit :=
  match obss with
  | [] => ret tt
  | obs :: rest =>
      invoke (EvOnDiff obs (root this) diff) (OnDiff obs (root this) diff) ;;
      notify rest diff
  end.

(** [Callback], the override of [WebhookEndpoint::Callback]. *)
Definition Callback (payload : string) : M unit :=
  spdlog spdlog_info GIT_REPO_WEBHOOK_TRIGGERED [root this] ;;
  if Std.is_npos (Std.find payload (token this)) then
    spdlog spdlog_error GIT_REPO_WEBHOOK_NO_TOKEN []
  else
    try_catch
      (Fetch ;;
       diff <- GetFilesDiff ;;
       ResetToFetchHead ;;
       spdlog spdlog_info GIT_REPO_FINISHED_UPDATING [] ;;
       if negb (empty (removed diff)) || negb (empty (added diff))
       then (obss <- gets observers ;; notify obss diff)
       else ret tt)
      (fun what => spdlog spdlog_error GIT_REPO_UPDATE_EXCEPT [what]).

End GitRepoImpl.
End GitRepoImpl.

(** The member initialisers of the constructor: every string option is
    read through its [data()] pointer, and [path] goes through
    [NormalizeDirPath]. *)
Definition GitRepo_init (opts : Options) : option GitRepo :=
  match NormalizeDirPath (Std.of_c_str (opt_path opts)) with
  | None => None
  | Some p =>
      Some {| token := Std.of_c_str (webhookToken opts);
              remote := Std.of_c_str (opt_remote opts);
              root := p;
              credPtr :=
                match credentials opts with
                | Some (username, password) =>
                    Some (Std.of_c_str username, Std.of_c_str password)
                | None => None
                end |}
  end.

(* ================================================================= *)
(** ** [class WebhookEndpoint] *)

(** One accepted connection, as the endpoint sees it: the status and the
    bytes its single read completes with, and the status of its write. *)
Record socket := {
  read_ec : Z;
  incoming : string;
  write_ec : Z
}.

(** One completion of [async_accept]. *)
Record accepted := { accept_ec : Z; soc : socket }.

Module Asio.

(** A string literal denotes a [char] array that ends with a NUL. *)
Definition string_literal (s : string) : string :=
  s ++ String Ascii.zero EmptyString.

(** [asio::buffer(x)]: over a [std::string] its [size()] characters,
    over a [char] array all of its elements; in both cases the bytes of
    the model. *)
Definition buffer (bytes : string) : string := bytes.

(** [async_read_some(buffer)]: at most [size(buffer)] of the incoming
    bytes overwrite the front of the buffer. *)
Definition read_some (buf : string) (data : string) : string :=
  let n := Nat.min (String.length data) (String.length buf) in
  String.substring 0 n data ++
  String.substring n (String.length buf - n) buf.

(** What an [io_context] holds for the endpoint: whether its
    [async_accept] waits for a connection, and the sockets whose
    [async_read_some] waits for bytes, oldest first. *)
Record io_context := { accept_pending : bool; reads_pending : list socket }.

(** What the [io_context] hands to a handler next: the accept completes
    with a status and a socket, or the read on the [n]-th waiting socket
    completes (with that socket's [read_ec] and [incoming]). *)
Inductive completion :=
| accept_completes (a : accepted)
| read_completes (n : nat).

(** Starting an operation leaves it waiting in the [io_context]. *)
Definition async_accept (io : io_context) : io_context :=
  {| accept_pending := true; reads_pending := reads_pending io |}.

Definition async_read_some (soc : socket) (io : io_context) : io_context :=
  {| accept_pending := accept_pending io;
     reads_pending := reads_pending io ++ [soc] |}.

(** An operation whose handler is about to run waits no longer. *)
Definition accept_done (io : io_context) : io_context :=
  {| accept_pending := false; reads_pending := reads_pending io |}.

Definition read_done (n : nat) (io : io_context) : io_context :=
  {| accept_pending := accept_pending io;
     reads_pending :=
       firstn n (reads_pending io) ++ skipn (S n) (reads_pending io) |}.

(** [io_context::run()]: the handlers run one after another, in the
    order in which the operations complete.  Only an operation that
    waits can complete; an exception that leaves a handler leaves
    [run()]. *)
Fixpoint io_context_run {G : LibGit2}
    (on_accept : accepted -> io_context -> M io_context)
    (on_read : socket -> M unit)
    (schedule : list completion) (io : io_context) : M io_context :=
  match schedule with
  | [] => ret io
  | accept_completes a :: rest =>
      if accept_pending io then
        io <- on_accept a (accept_done io) ;;
        io_context_run on_accept on_read rest io
      else io_context_run on_accept on_read rest io
  | read_completes n :: rest =>
      match nth_error (reads_pending io) n with
      | Some soc =>
          on_read soc ;;
          io_context_run on_accept on_read rest (read_done n io)
      | None => io_context_run on_accept on_read rest io
      end
  end.

End Asio.

Definition CR : ascii := ascii_of_nat 13.
Definition LF : ascii := ascii_of_nat 10.

Module WebhookEndpoint.
Section WebhookEndpoint.
Context {G : LibGit2}.

(** The base [Callback] does nothing. *)
Definition Callback (payload : string) : M unit := ret tt.

(** The virtual [Callback] this endpoint dispatches to. *)
Variable Callback_override : string -> M unit.

(** [asio::write(soc, buffer)]: the bytes are handed to the socket; a
    failure is thrown as [asio::system_error]. *)
Definition write (soc : socket) (bytes : string) : M unit :=
  emit (EvWrite bytes) ;;
  if (write_ec soc =? 0)%Z then ret tt
  else throw (system_error "write").

(** [DoReadHeader]: the read and its completion handler. *)
Definition DoReadHeader (soc : socket) : M unit :=
  let payload :=
    Std.string_fill (Std.size_of_char " ") (Std.char_of_int 255) in
  let payload := Asio.read_some (Asio.buffer payload) (incoming soc) in
  let ec := read_ec soc in
  if negb (ec =? 0)%Z then ret tt
  else
    write soc
      (Asio.buffer
         (Asio.string_literal
            ("HTTP/1.0 200 OK" ++ String CR (String LF EmptyString)))) ;;
    let payload := Std.push_back payload Ascii.zero in
    Callback_override payload.

(** [DoAccept]: [async_accept] is started; the call returns at once. *)
Definition DoAccept (io : Asio.io_context) : Asio.io_context :=
  Asio.async_accept io.

(** The completion handler [DoAccept] passes to [async_accept].  Its
    call of [DoReadHeader] only starts the read, which waits from then
    on; what [DoReadHeader] does with the read, above, happens when the
    [io_context] delivers its completion. *)
Definition on_accept (a : accepted) (io : Asio.io_context)
  : M Asio.io_context :=
  is_open <- gets acceptor_is_open ;;
  if negb is_open then ret io
  else
    let io :=
      if (accept_ec a =? 0)%Z then Asio.async_read_some (soc a) io
      else io in
    ret (DoAccept io).

(** The endpoint under [io_context::run()]. *)
Definition serve (schedule : list Asio.completion) (io : Asio.io_context)
  : M Asio.io_context :=
  Asio.io_context_run on_accept DoReadHeader schedule io.

(** The constructor: the acceptor is opened, bound to the port and set
    listening, which throws [asio::system_error] when the system
    refuses ([listen] is its answer for a port); then the first accept
    is started. *)
Definition ctor (listen : Z -> Z) (port : Z) (io : Asio.io_context)
  : M Asio.io_context :=
  if negb (listen port =? 0)%Z then throw (system_error "bind")
  else
    modify (set_acceptor true) ;;
    ret (DoAccept io).

(** [Stop]. *)
Definition Stop : M unit := modify (set_acceptor false).

End WebhookEndpoint.
End WebhookEndpoint.

(* ================================================================= *)
(** ** The constructor of [GitRepo] *)

Module Json.

(** [value::to_number<unsigned short>()] of an integer: the number when
    an [unsigned short] holds it, otherwise a
    [boost::system::system_error]. *)
Definition to_number_unsigned_short {G : LibGit2} (n : Z) : M Z :=
  if (0 <=? n)%Z && (n <=? 65535)%Z then ret n
  else throw (system_error "not_exact").

End Json.

(** The compound statement of the constructor, on the initialised
    members; the credentials it reads first are part of [GitRepo_init].
    [GIT_REPO_PATH_IS_NOT_DIR] is the text of that message in
    [I18N.hpp]. *)
Definition GitRepo_body {G : LibGit2} (GIT_REPO_PATH_IS_NOT_DIR : string)
    (this : GitRepo) : M unit :=
  is_dir <- gets (fun s => is_directory (repo s) (root this)) ;;
  emit (EvIsDirectory (root this) is_dir) ;;
  if negb is_dir
  then throw (runtime_error GIT_REPO_PATH_IS_NOT_DIR)
  else
    exists_ <- GitRepoImpl.CheckIfRepoExists this ;;
    if negb exists_ then
      spdlog spdlog_info GIT_REPO_DOES_NOT_EXIST [] ;;
      GitRepoImpl.Clone this
    else
      spdlog spdlog_info GIT_REPO_EXISTS [] ;;
      error <- call_mut (call_repository_open (root this))
        (fun repo => git_repository_open repo (root this)) ;;
      Git.Check error ;;
      spdlog spdlog_info GIT_REPO_CHECKING_UPDATES [] ;;
      try_rethrow
        (GitRepoImpl.Fetch this ;; GitRepoImpl.ResetToFetchHead)
        (emit (EvCall call_repository_free 0)) ;;
      spdlog spdlog_info GIT_REPO_UPDATE_COMPLETED [].

(** The constructor.  The options are an object that holds every key
    the constructor asks for, with a value of the kind it asks for (the
    record [Options]), so that [at] and [as_string] return.  The port is
    converted and the base [WebhookEndpoint] constructed first; either
    may throw, before any member exists.  Then come the member
    initialisers and the body; an exception that leaves them destroys
    the base again, and with it the acceptor. *)
Definition GitRepo_ctor {G : LibGit2} (GIT_REPO_PATH_IS_NOT_DIR : string)
    (listen : Z -> Z) (opts : Options) (io : Asio.io_context)
  : M (GitRepo * Asio.io_context) :=
  port <- Json.to_number_unsigned_short (webhookPort opts) ;;
  io <- WebhookEndpoint.ctor listen port io ;;
  try_rethrow
    (match GitRepo_init opts with
     | None => undefined
     | Some this =>
         GitRepo_body GIT_REPO_PATH_IS_NOT_DIR this ;;
         ret (this, io)
     end)
    (modify (set_acceptor false)).

(* ================================================================= *)
(** ** A small git, to run the model on *)

Module Toy.

(** A tree: blob ids by path.  A commit is known by its id and holds a
    tree. *)
Definition tree := list (string * git_oid).

Record disk := {
  objects : list (git_oid * tree);
  HEAD : git_oid;
  FETCH_HEAD : option git_oid;
  origin : option git_oid;   (* head of the remote; [None]: unreachable *)
  checkout_fails : bool
}.

Fixpoint oid_eqb (a b : git_oid) : bool :=
  match a, b with
  | [], [] => true
  | x :: a', y :: b' => Byte.eqb x y && oid_eqb a' b'
  | _, _ => false
  end.

Fixpoint lookup_commit (oid : git_oid) (l : list (git_oid * tree))
  : option tree :=
  match l with
  | [] => None
  | (k, t) :: rest => if oid_eqb oid k then Some t else lookup_commit oid rest
  end.

Fixpoint lookup_path (p : string) (t : tree) : option git_oid :=
  match t with
  | [] => None
  | (k, i) :: rest => if String.eqb p k then Some i else lookup_path p rest
  end.

Definition zero_oid : git_oid := repeat Byte.x00 20.

Definition ok {A} (a : A) : git_result A := GitResult 0 "" a.
Definition fail {A} (code : Z) (msg : string) (a : A) : git_result A :=
  GitResult code msg a.

Definition name_to_id (r : disk) (name : string)
  : git_result git_oid :=
  if String.eqb name "HEAD" then ok (HEAD r)
  else if String.eqb name "FETCH_HEAD" then
    match FETCH_HEAD r with
    | Some c => ok c
    | None => fail (-3) "reference 'FETCH_HEAD' not found" zero_oid
    end
  else fail (-3) "reference not found" zero_oid.

Definition commit_lookup (r : disk) (oid : git_oid)
  : git_result (git_oid * tree) :=
  match lookup_commit oid (objects r) with
  | Some t => ok (oid, t)
  | None => fail (-3) "object not found" (oid, [])
  end.

Definition revparse_single (r : disk) (spec : string)
  : git_result tree :=
  let i := name_to_id r spec in
  if (error i <? 0)%Z then fail (error i) (message i) []
  else
    let c := commit_lookup r (value i) in
    GitResult (error c) (message c) (snd (value c)).

Definition remote_fetch (r : disk) : git_result disk :=
  match origin r with
  | Some c =>
      ok {| objects := objects r; HEAD := HEAD r; FETCH_HEAD := Some c;
            origin := origin r; checkout_fails := checkout_fails r |}
  | None => fail (-1) "failed to resolve address" r
  end.

Definition reset (r : disk) (commit : git_oid * tree)
  : git_result disk :=
  if checkout_fails r then fail (-1) "could not write file" r
  else
    ok {| objects := objects r; HEAD := fst commit;
          FETCH_HEAD := FETCH_HEAD r; origin := origin r;
          checkout_fails := checkout_fails r |}.

(** Deltas of the old tree (deleted or modified blobs) in its order,
    then the blobs only the new tree has. *)
Definition diff_tree_to_tree (t1 t2 : tree) : git_diff :=
  (flat_map
    (fun '(p, i) =>
       match lookup_path p t2 with
       | None => [ {| old_file := {| id := i; path := p |};
                      new_file := {| id := zero_oid; path := p |} |} ]
       | Some j =>
           if oid_eqb i j then []
           else [ {| old_file := {| id := i; path := p |};
                     new_file := {| id := j; path := p |} |} ]
       end) t1
  ++
  flat_map
    (fun '(p, j) =>
       match lookup_path p t1 with
       | None => [ {| old_file := {| id := zero_oid; path := p |};
                      new_file := {| id := j; path := p |} |} ]
       | Some _ => []
       end) t2)%list.

Definition repository_index (r : disk) : git_result git_index :=
  match lookup_commit (HEAD r) (objects r) with
  | Some t =>
      ok (map (fun '(p, i) => {| entry_id := i; entry_path := p |}) t)
  | None => fail (-1) "could not read index" []
  end.

#[export] Instance libgit2 : LibGit2 := {|
  repository := disk;
  is_directory := fun _ _ => true;
  git_repository_open_ext := fun _ _ => ok tt;
  git_clone := fun r _ _ _ => remote_fetch r;
  git_repository_open := fun r _ => ok r;
  git_remote := unit;
  git_commit := git_oid * tree;
  git_object := tree;
  git_tree := tree;
  git_remote_lookup := fun _ name =>
    if String.eqb name "origin" then ok tt
    else fail (-3) "remote does not exist" tt;
  git_remote_fetch := fun r _ _ => remote_fetch r;
  git_reference_name_to_id := name_to_id;
  git_commit_lookup := commit_lookup;
  git_reset := fun r c _ => reset r c;
  git_revparse_single := revparse_single;
  git_object_peel := fun o _ => ok o;
  git_diff_tree_to_tree := fun _ t1 t2 => ok (diff_tree_to_tree t1 t2);
  git_repository_index := repository_index
|}.

(** Observers that never raise, and observers of which number 1 raises
    in [OnDiff]. *)
Definition quiet : IGitRepoObserver :=
  {| OnAdd := fun _ _ _ => None; OnDiff := fun _ _ _ => None |}.

Definition raising : IGitRepoObserver :=
  {| OnAdd := fun _ _ _ => None;
     OnDiff := fun obs _ _ =>
       if Nat.eqb obs 1 then Some (std_exception "cannot load") else None |}.

Definition blob (n : Byte.byte) : git_oid := n :: repeat Byte.x00 19.

Definition R1 : git_oid := blob Byte.x01.
Definition R2 : git_oid := blob Byte.x02.

Definition tree1 : tree :=
  [("a.txt", blob Byte.x0a); ("b.txt", blob Byte.x0b)].
Definition tree2 : tree :=
  [("b.txt", blob Byte.x0b); ("c.txt", blob Byte.x0c)].

(** A mirror at revision R1 whose remote is at R2. *)
Definition mirror : disk :=
  {| objects := [(R1, tree1); (R2, tree2)];
     HEAD := R1; FETCH_HEAD := None; origin := Some R2;
     checkout_fails := false |}.

(** The same mirror with the remote out of reach. *)
Definition offline : disk :=
  {| objects := [(R1, tree1); (R2, tree2)];
     HEAD := R1; FETCH_HEAD := None; origin := None;
     checkout_fails := false |}.

(** The mirror after a fetch, and after the reset that follows it. *)
Definition fetched : disk :=
  {| objects := [(R1, tree1); (R2, tree2)];
     HEAD := R1; FETCH_HEAD := Some R2; origin := Some R2;
     checkout_fails := false |}.

Definition synced : disk :=
  {| objects := [(R1, tree1); (R2, tree2)];
     HEAD := R2; FETCH_HEAD := Some R2; origin := Some R2;
     checkout_fails := false |}.

Definition start (r : disk) (obss : list observer) : state :=
  {| repo := r; giterr := ""; observers := obss;
     acceptor_is_open := true |}.

Definition gitrepo : GitRepo :=
  {| token := "s3cret"; remote := "https://example.org/cards.git";
     root := "sync/"; credPtr := None |}.

End Toy.

(* ================================================================= *)
(** ** Vocabulary of the properties *)

Arguments Build_run {G A} _ _ _.

Definition is_call (e : event) : bool :=
  match e with EvCall _ _ => true | _ => false end.

(** The calls that are not given a directory: all but those of the
    constructor that open or clone the repository. *)
Definition names_no_directory (c : libgit2_call) : bool :=
  match c with
  | call_repository_open_ext _ | call_clone _ _ | call_repository_open _ =>
      false
  | _ => true
  end.

Definition is_step_call (e : event) : bool :=
  match e with EvCall c _ => names_no_directory c | _ => false end.

Definition is_OnDiff (e : event) : bool :=
  match e with EvOnDiff _ _ _ => true | _ => false end.

Definition is_OnAdd (e : event) : bool :=
  match e with EvOnAdd _ _ _ => true | _ => false end.

Definition is_write (e : event) : bool :=
  match e with EvWrite _ => true | _ => false end.

Definition not_write (e : event) : bool := negb (is_write e).

(** If [e] hands a directory to the file system or to libgit2, or a
    root path to an observer, then it hands [p]. *)
Definition carries_root (p : string) (e : event) : bool :=
  match e with
  | EvIsDirectory r _
  | EvCall (call_repository_open_ext r) _
  | EvCall (call_clone _ r) _
  | EvCall (call_repository_open r) _
  | EvOnAdd _ r _
  | EvOnDiff _ r _ => String.eqb r p
  | _ => true
  end.

(** A call of [git_reset] that reported success. *)
Definition is_reset_done (e : event) : bool :=
  match e with
  | EvCall call_reset status => (status >=? 0)%Z
  | _ => false
  end.

Definition is_reset_call (e : event) : bool :=
  match e with EvCall call_reset _ => true | _ => false end.

Definition is_diff_call (e : event) : bool :=
  match e with EvCall call_diff_tree_to_tree _ => true | _ => false end.

(** An [OnDiff] call made on the observer [o]. *)
Definition is_OnDiff_to (o : observer) (e : event) : bool :=
  match e with EvOnDiff o' _ _ => Nat.eqb o' o | _ => false end.

(** A blob is present on one side of a delta when that side's id is not
    the zero id. *)
Definition present (f : git_diff_file) : Prop := git_oid_iszero (id f) = 0%Z.
Definition absent (f : git_diff_file) : Prop := git_oid_iszero (id f) = 1%Z.

(** The classification the design document gives for a changed blob:
    the paths it contributes to [removed] and to [added]. *)
Inductive classified (delta : git_diff_delta)
  : PathVector -> PathVector -> Prop :=
| only_in_new :
    absent (old_file delta) -> present (new_file delta) ->
    classified delta [] [path (new_file delta)]
| only_in_old :
    present (old_file delta) -> absent (new_file delta) ->
    classified delta [path (old_file delta)] []
| in_both :
    present (old_file delta) -> present (new_file delta) ->
    classified delta [path (old_file delta)] [path (new_file delta)].

(** What one run of the callback adds to an empty diff. *)
Definition contribution (delta : git_diff_delta) : GitDiff :=
  snd (GitRepoImpl.FileCb delta {| removed := []; added := [] |}).

(** The acknowledgement line as the design document spells it. *)
Definition acknowledgement : string :=
  "HTTP/1.0 200 OK" ++ String CR (String LF EmptyString).

(** The payload [DoReadHeader] hands to [Callback] for a connection. *)
Definition handed_payload (soc : socket) : string :=
  Std.push_back
    (Asio.read_some
       (Std.string_fill (Std.size_of_char " ") (Std.char_of_int 255))
       (incoming soc))
    Ascii.zero.

Section Vocabulary.
Context {G : LibGit2} {Obs : IGitRepoObserver}.

(** Where the mirror stands: what the reference HEAD resolves to. *)
Definition mirror_head (r : repository) : Z * git_oid :=
  let x := git_reference_name_to_id r "HEAD" in (error x, value x).

(** Two facts about libgit2 that the sources rely on: a fetch does not
    move HEAD, and a reset that reports failure has not moved it. *)
Record head_moves_only_by_reset : Prop := {
  fetch_keeps_head :
    forall r rem cred,
      mirror_head (value (git_remote_fetch r rem cred)) = mirror_head r;
  failed_reset_keeps_head :
    forall r c t,
      (error (git_reset r c t) < 0)%Z ->
      mirror_head (value (git_reset r c t)) = mirror_head r
}.

(** The first of the two facts alone. *)
Definition fetch_leaves_head : Prop :=
  forall r rem cred,
    mirror_head (value (git_remote_fetch r rem cred)) = mirror_head r.

(** The two trees [GetFilesDiff] compares, and the deltas between them:
    the tree of HEAD, the tree of FETCH_HEAD. *)
Definition old_tree (r : repository) : git_tree :=
  value (git_object_peel (value (git_revparse_single r "HEAD")) GIT_OBJ_TREE).

Definition new_tree (r : repository) : git_tree :=
  value (git_object_peel (value (git_revparse_single r "FETCH_HEAD"))
                         GIT_OBJ_TREE).

Definition deltas (r : repository) : git_diff :=
  value (git_diff_tree_to_tree r (old_tree r) (new_tree r)).

(** The commit FETCH_HEAD names. *)
Definition fetched_commit (r : repository) : git_commit :=
  value (git_commit_lookup r
           (value (git_reference_name_to_id r "FETCH_HEAD"))).

(** A cycle started in [s] fails with [e]: in the fetch, or after it in
    the diff, or after both in the reset; [s'] and [evs] are the state
    and the events up to the failure. *)
Inductive cycle_fails (this : GitRepo) (s : state)
  : exception -> state -> list event -> Prop :=
| fails_in_fetch e s1 ev1 :
    GitRepoImpl.Fetch this s = Build_run (Throw e) s1 ev1 ->
    cycle_fails this s e s1 ev1
| fails_in_diff e s1 ev1 s2 ev2 :
    GitRepoImpl.Fetch this s = Build_run (Return tt) s1 ev1 ->
    GitRepoImpl.GetFilesDiff s1 = Build_run (Throw e) s2 ev2 ->
    cycle_fails this s e s2 (ev1 ++ ev2)
| fails_in_reset e s1 ev1 diff s2 ev2 s3 ev3 :
    GitRepoImpl.Fetch this s = Build_run (Return tt) s1 ev1 ->
    GitRepoImpl.GetFilesDiff s1 = Build_run (Return diff) s2 ev2 ->
    GitRepoImpl.ResetToFetchHead s2 = Build_run (Throw e) s3 ev3 ->
    cycle_fails this s e s3 (ev1 ++ ev2 ++ ev3).

(** A cycle started in [s] succeeds: fetch, diff and reset all return. *)
Record cycle_succeeds (this : GitRepo) (s : state)
    (diff : GitDiff) (s1 s2 s3 : state) (ev1 ev2 ev3 : list event) : Prop := {
  fetch_done :
    GitRepoImpl.Fetch this s = Build_run (Return tt) s1 ev1;
  diff_done :
    GitRepoImpl.GetFilesDiff s1 = Build_run (Return diff) s2 ev2;
  reset_done :
    GitRepoImpl.ResetToFetchHead s2 = Build_run (Return tt) s3 ev3
}.

(** The observers the notification loop reaches: all of them up to and
    including the first whose [OnDiff] raises. *)
Fixpoint notified (this : GitRepo) (diff : GitDiff) (obss : list observer)
  : list observer :=
  match obss with
  | [] => []
  | obs :: rest =>
      obs :: match OnDiff obs (root this) diff with
             | None => notified this diff rest
             | Some _ => []
             end
  end.

(** A run with more events in front. *)
Definition prepend {A} (evs : list event) (r : run A) : run A :=
  Build_run (result r) (final r) (evs ++ events r).

(** What the handler does after the three steps have returned. *)
Definition after_reset (this : GitRepo) (diff : GitDiff) : M unit :=
  try_catch
    (if negb (GitRepoImpl.empty (removed diff))
        || negb (GitRepoImpl.empty (added diff))
     then (obss <- gets observers ;; GitRepoImpl.notify this obss diff)
     else ret tt)
    (fun what => spdlog spdlog_error GIT_REPO_UPDATE_EXCEPT [what]).

(** Every event a computation emits satisfies [P]. *)
Definition emits (P : event -> bool) {A} (m : M A) : Prop :=
  forall s, forallb P (events (m s)) = true.

(** A computation that only talks to libgit2 about the repository it
    has open: it emits such calls only, leaves the observers and the
    acceptor alone, and ends by returning or by throwing a
    [std::exception]. *)
Definition git_step {A} (m : M A) : Prop :=
  forall s,
    forallb is_step_call (events (m s)) = true
    /\ observers (final (m s)) = observers s
    /\ acceptor_is_open (final (m s)) = acceptor_is_open s
    /\ match result (m s) with
       | Return _ => True
       | Throw e => exists what, e = std_exception what
       | Undefined => False
       end.

End Vocabulary.

(* ================================================================= *)
(** ** Vocabulary of the further properties *)

Definition is_free (e : event) : bool :=
  match e with EvCall call_repository_free _ => true | _ => false end.

Definition is_remote_fetch_call (e : event) : bool :=
  match e with EvCall call_remote_fetch _ => true | _ => false end.

Definition is_no_token_log (e : event) : bool :=
  match e with
  | EvLog spdlog_error GIT_REPO_WEBHOOK_NO_TOKEN _ => true
  | _ => false
  end.

(** A completion of the accept loop that reaches the acknowledgement:
    the accept and the read both succeeded. *)
Definition reaches_write (a : accepted) : bool :=
  (accept_ec a =? 0)%Z && (read_ec (soc a) =? 0)%Z.

(** The characters of a string. *)
Fixpoint chars (str : string) : list ascii :=
  match str with
  | EmptyString => []
  | String c rest => c :: chars rest
  end.

(** The fill character of the read buffer, [char(255)]. *)
Definition xFF : ascii := Std.char_of_int 255.

Definition not_no_token_log (e : event) : bool := negb (is_no_token_log e).

(** A mirror whose HEAD names no commit of its object database: its
    index cannot be read. *)
Definition unreadable : Toy.disk :=
  {| Toy.objects := []; Toy.HEAD := Toy.R1; Toy.FETCH_HEAD := None;
     Toy.origin := None; Toy.checkout_fails := false |}.

(** A [GitRepo] configured with an empty token. *)
Definition open_gate : GitRepo :=
  {| token := ""; remote := "https://example.org/cards.git";
     root := "sync/"; credPtr := None |}.

(** The last part of the constructor's body, for a repository that
    exists and has been opened. *)
Definition update_existing {G : LibGit2} (this : GitRepo) : M unit :=
  try_rethrow
    (GitRepoImpl.Fetch this ;; GitRepoImpl.ResetToFetchHead)
    (emit (EvCall call_repository_free 0)) ;;
  spdlog spdlog_info GIT_REPO_UPDATE_COMPLETED [].

(** The port can be used: an [unsigned short] holds it and the system
    lets the acceptor listen on it. *)
Definition port_usable (listen : Z -> Z) (opts : Options) : Prop :=
  (0 <= webhookPort opts <= 65535)%Z /\ listen (webhookPort opts) = 0%Z.

(** Options that ask for a port no [unsigned short] holds. *)
Definition far_port : Options :=
  {| webhookPort := 70000; webhookToken := "s3cret";
     opt_remote := "https://example.org/cards.git"; opt_path := "sync";
     credentials := None |}.

(** A system on which every port is free. *)
Definition free_ports : Z -> Z := fun _ => 0%Z.

(** An [io_context] with nothing waiting, and one in which only the
    accept waits, as the constructor leaves it. *)
Definition idle : Asio.io_context :=
  {| Asio.accept_pending := false; Asio.reads_pending := [] |}.

Definition listening : Asio.io_context := WebhookEndpoint.DoAccept idle.

Definition read_ok (soc : socket) : bool := (read_ec soc =? 0)%Z.

(** What waits after the accept handler has run on a completion. *)
Definition accept_step (is_open : bool) (a : accepted)
    (io : Asio.io_context) : Asio.io_context :=
  if is_open then
    WebhookEndpoint.DoAccept
      (if (accept_ec a =? 0)%Z
       then Asio.async_read_some (soc a) (Asio.accept_done io)
       else Asio.accept_done io)
  else Asio.accept_done io.

(** The sockets whose read handler runs under a schedule, in that
    order, and what still waits afterwards, while the acceptor stays
    open or stays closed. *)
Fixpoint served (is_open : bool) (schedule : list Asio.completion)
    (io : Asio.io_context) : list socket * Asio.io_context :=
  match schedule with
  | [] => ([], io)
  | Asio.accept_completes a :: rest =>
      if Asio.accept_pending io then
        served is_open rest (accept_step is_open a io)
      else served is_open rest io
  | Asio.read_completes n :: rest =>
      match nth_error (Asio.reads_pending io) n with
      | Some soc =>
          (soc :: fst (served is_open rest (Asio.read_done n io)),
           snd (served is_open rest (Asio.read_done n io)))
      | None => served is_open rest io
      end
  end.

(** The schedule in which the read of every accepted connection
    completes before the next accept does. *)
Definition sequential (completions : list accepted)
  : list Asio.completion :=
  flat_map
    (fun a =>
       Asio.accept_completes a
       :: if (accept_ec a =? 0)%Z then [Asio.read_completes 0] else [])
    completions.

(** The small git with a reset that fails after it has moved HEAD, as
    when the index cannot be written once the reference is updated. *)
Definition torn : LibGit2 := {|
  repository := Toy.disk;
  git_remote := unit;
  git_commit := git_oid * Toy.tree;
  git_object := Toy.tree;
  git_tree := Toy.tree;
  is_directory := fun _ _ => true;
  git_repository_open_ext := fun _ _ => Toy.ok tt;
  git_clone := fun r _ _ _ => Toy.remote_fetch r;
  git_repository_open := fun r _ => Toy.ok r;
  git_remote_lookup := fun _ name =>
    if String.eqb name "origin" then Toy.ok tt
    else Toy.fail (-3) "remote does not exist" tt;
  git_remote_fetch := fun r _ _ => Toy.remote_fetch r;
  git_reference_name_to_id := Toy.name_to_id;
  git_commit_lookup := Toy.commit_lookup;
  git_reset := fun r c _ =>
    Toy.fail (-1) "could not write index"
      {| Toy.objects := Toy.objects r; Toy.HEAD := fst c;
         Toy.FETCH_HEAD := Toy.FETCH_HEAD r; Toy.origin := Toy.origin r;
         Toy.checkout_fails := Toy.checkout_fails r |};
  git_revparse_single := Toy.revparse_single;
  git_object_peel := fun o _ => Toy.ok o;
  git_diff_tree_to_tree := fun _ t1 t2 => Toy.ok (Toy.diff_tree_to_tree t1 t2);
  git_repository_index := Toy.repository_index
|}.

Definition torn_start (r : Toy.disk) (obss : list observer) : state :=
  @Build_state torn r "" obss true.

(** The small git under a file system that may lack the directory, or
    hold a directory that is no repository yet. *)
Definition site (is_dir is_repo : bool) : LibGit2 := {|
  repository := Toy.disk;
  git_remote := unit;
  git_commit := git_oid * Toy.tree;
  git_object := Toy.tree;
  git_tree := Toy.tree;
  is_directory := fun _ _ => is_dir;
  git_repository_open_ext := fun _ _ =>
    if is_repo then Toy.ok tt
    else Toy.fail (-3) "could not find repository" tt;
  git_clone := fun r _ _ _ =>
    match Toy.origin r with
    | Some c =>
        Toy.ok {| Toy.objects := Toy.objects r; Toy.HEAD := c;
                  Toy.FETCH_HEAD := Some c; Toy.origin := Toy.origin r;
                  Toy.checkout_fails := Toy.checkout_fails r |}
    | None => Toy.fail (-1) "failed to resolve address" r
    end;
  git_repository_open := fun r _ => Toy.ok r;
  git_remote_lookup := fun _ name =>
    if String.eqb name "origin" then Toy.ok tt
    else Toy.fail (-3) "remote does not exist" tt;
  git_remote_fetch := fun r _ _ => Toy.remote_fetch r;
  git_reference_name_to_id := Toy.name_to_id;
  git_commit_lookup := Toy.commit_lookup;
  git_reset := fun r c _ => Toy.reset r c;
  git_revparse_single := Toy.revparse_single;
  git_object_peel := fun o _ => Toy.ok o;
  git_diff_tree_to_tree := fun _ t1 t2 => Toy.ok (Toy.diff_tree_to_tree t1 t2);
  git_repository_index := Toy.repository_index
|}.

Definition site_start (is_dir is_repo : bool) (r : Toy.disk) : state :=
  @Build_state (site is_dir is_repo) r "" [] false.

Definition options : Options :=
  {| webhookPort := 34343; webhookToken := "s3cret";
     opt_remote := "https://example.org/cards.git"; opt_path := "sync";
     credentials := None |}.

(** An event that reaches an observer or a socket. *)
Definition is_outward (e : event) : bool :=
  is_OnAdd e || is_OnDiff e || is_write e.

Definition not_outward (e : event) : bool := negb (is_outward e).

(** *** [CredCb] *)

(** [GIT_CREDTYPE_USERPASS_PLAINTEXT] is [1u << 0] in libgit2's
    [credential.h]; [GIT_EUSER] is -7 in its [errors.h]. *)
Definition GIT_CREDTYPE_USERPASS_PLAINTEXT : Z := Z.shiftl 1 0.
Definition GIT_EUSER : Z := -7.

(** [CredCb]: [aTypes] are the credential types libgit2 allows (an
    [unsigned int]), [pl] the credentials of the [GitRepo]; the result is
    the status and the credential written through [out], if any.
    [git_cred_userpass_plaintext_new] is libgit2's; it is handed the
    [c_str()] of both strings. *)
Definition CredCb {git_cred : Type}
    (git_cred_userpass_plaintext_new : string -> string -> Z * option git_cred)
    (aTypes : Z) (pl : Credentials) : Z * option git_cred :=
  if (Z.land GIT_CREDTYPE_USERPASS_PLAINTEXT aTypes =? 0)%Z
  then (GIT_EUSER, None)
  else
    let cred := pl in
    git_cred_userpass_plaintext_new
      (Std.of_c_str (fst cred)) (Std.of_c_str (snd cred)).

(** Options whose token holds a NUL. *)
Definition cut_options : Options :=
  {| webhookPort := 34343;
     webhookToken := "s3" ++ String Ascii.zero "cret";
     opt_remote := "https://example.org/cards.git"; opt_path := "sync";
     credentials := Some ("mirror", "pass" ++ String Ascii.zero "word") |}.

(** A computation that leaves the observer list and the acceptor as
    they are and never ends undefined. *)
Definition keeps_registry {G : LibGit2} {A} (m : M A) : Prop :=
  forall s,
    observers (final (m s)) = observers s
    /\ acceptor_is_open (final (m s)) = acceptor_is_open s
    /\ result (m s) <> Undefined.

(** A computation that throws nothing but exceptions in [P]. *)
Definition throws_only {G : LibGit2} (P : exception -> Prop) {A} (m : M A)
  : Prop :=
  forall s e, result (m s) = Throw e -> P e.

(** [part] is [whole] up to its first NUL: the whole of it when it holds
    none. *)
Definition cut_at_NUL (whole part : string) : Prop :=
  ~ In Ascii.zero (chars part)
  /\ (whole = part
      \/ exists post, whole = (part ++ String Ascii.zero post)%string).

(* END OF FURTHER VOCABULARY *)

(* ================================================================= *)
(** * Properties *)

(** ** Strings *)

Lemma prefix_iff_append (p s : string) :
  String.prefix p s = true <-> exists post, s = p ++ post.
Proof.
  revert s; induction p as [|c p IH]; intros s.
  - split; [intros _; now exists s | destruct s; reflexivity].
  - destruct s as [|d s]; simpl.
    + split; [discriminate | intros [post H]; discriminate].
    + destruct (Ascii.ascii_dec c d) as [->|Hcd].
      * rewrite IH. split; intros [post H]; exists post.
        -- now rewrite H.
        -- now inversion H.
      * split; [discriminate|].
        intros [post H]. simpl in H. congruence.
Qed.

Lemma append_assoc (a b c : string) : (a ++ b) ++ c = a ++ (b ++ c).
Proof. induction a; simpl; [reflexivity | now rewrite IHa]. Qed.

Lemma append_length (a b : string) :
  String.length (a ++ b) = String.length a + String.length b.
Proof. induction a; simpl; [reflexivity | now rewrite IHa]. Qed.

Lemma find_from_nil (needle : string) (pos : nat) :
  Std.find_from needle "" pos =
  if String.prefix needle "" then Some pos else None.
Proof. reflexivity. Qed.

Lemma find_from_cons (needle : string) (c : ascii) (hay : string) (pos : nat) :
  Std.find_from needle (String c hay) pos =
  if String.prefix needle (String c hay) then Some pos
  else Std.find_from needle hay (S pos).
Proof. reflexivity. Qed.

Lemma find_from_None (needle hay : string) (pos : nat) :
  Std.find_from needle hay pos = None <-> ~ substring_of needle hay.
Proof.
  revert pos; induction hay as [|c hay IH]; intros pos;
    [rewrite find_from_nil | rewrite find_from_cons].
  - destruct (String.prefix needle "") eqn:E.
    + split; [discriminate|]. intros H; exfalso; apply H.
      apply prefix_iff_append in E. destruct E as [post E].
      exists "", post. exact E.
    + split; [|reflexivity]. intros _ [pre [post H]].
      destruct pre; simpl in H.
      * assert (String.prefix needle "" = true)
          by (apply prefix_iff_append; now exists post).
        congruence.
      * discriminate.
  - destruct (String.prefix needle (String c hay)) eqn:E.
    + split; [discriminate|]. intros H; exfalso; apply H.
      apply prefix_iff_append in E. destruct E as [post E].
      exists "", post. exact E.
    + rewrite IH. split; intros H [pre [post H']]; apply H.
      * destruct pre as [|d pre]; simpl in H'.
        -- assert (String.prefix needle (String c hay) = true)
             by (apply prefix_iff_append; now exists post).
           congruence.
        -- inversion H'. now exists pre, post.
      * exists (String c pre), post. simpl. now rewrite H'.
Qed.

(** [find] answers [npos] exactly when the needle is no substring. *)
Lemma find_npos (hay needle : string) :
  Std.is_npos (Std.find hay needle) = true <-> ~ substring_of needle hay.
Proof.
  unfold Std.find. rewrite <- (find_from_None needle hay 0).
  destruct (Std.find_from needle hay 0); simpl; split;
    congruence || discriminate.
Qed.

Lemma find_found (hay needle : string) :
  Std.is_npos (Std.find hay needle) = false <-> substring_of needle hay.
Proof.
  destruct (Std.is_npos (Std.find hay needle)) eqn:E.
  - apply find_npos in E. split; [discriminate | contradiction].
  - split; [intros _ | reflexivity].
    unfold Std.find in E.
    destruct (Std.find_from needle hay 0) eqn:F; [|discriminate].
    clear E. revert F. generalize 0. induction hay as [|c hay IH]; intros i.
    + rewrite find_from_nil.
      destruct (String.prefix needle "") eqn:P; [|discriminate].
      intros _. apply prefix_iff_append in P. destruct P as [post P].
      now exists "", post.
    + rewrite find_from_cons.
      destruct (String.prefix needle (String c hay)) eqn:P.
      * intros _. apply prefix_iff_append in P. destruct P as [post P].
        now exists "", post.
      * intros F. destruct (IH _ F) as [pre [post H]].
        exists (String c pre), post. simpl. now rewrite H.
Qed.

Lemma back_nonempty (s : string) : s <> "" -> exists b, Std.back s = Some b.
Proof.
  induction s as [|c s IH]; [congruence|]. intros _.
  destruct s as [|d s]; [now exists c|].
  destruct IH as [b Hb]; [discriminate|]. exists b. exact Hb.
Qed.

(** The guard of [NormalizeDirPath] holds for every character. *)
Lemma NormalizeDirPath_guard (b : ascii) :
  negb (Ascii.eqb b "/") || negb (Ascii.eqb b "\") = true.
Proof.
  destruct (Ascii.eqb b "/") eqn:E; [|reflexivity].
  apply Ascii.eqb_eq in E. subst b. reflexivity.
Qed.

(* ================================================================= *)
(** ** The monad and the libgit2 steps *)

Open Scope list_scope.

Section Steps.
Context {G : LibGit2} {Obs : IGitRepoObserver}.

Lemma git_step_ret {A} (a : A) : git_step (ret a).
Proof. intros s; simpl; auto. Qed.

Lemma git_step_gets {A} (f : state -> A) : git_step (gets f).
Proof. intros s; simpl; auto. Qed.

Lemma git_step_throw_std {A} what :
  git_step (throw (A := A) (std_exception what)).
Proof. intros s; simpl; repeat split; eauto. Qed.

Lemma git_step_bind {A B} (m : M A) (k : A -> M B) :
  git_step m -> (forall a, git_step (k a)) -> git_step (bind m k).
Proof.
  intros Hm Hk s. destruct (Hm s) as (He & Ho & Ha & Hr).
  unfold bind. destruct (result (m s)) as [a| e |]; simpl.
  - destruct (Hk a (final (m s))) as (He' & Ho' & Ha' & Hr').
    rewrite forallb_app, He, He', Ho', Ha'. auto.
  - auto.
  - contradiction.
Qed.

Lemma git_step_call {A} c (f : repository -> git_result A) :
  names_no_directory c = true -> git_step (call c f).
Proof.
  intros Hc s; unfold call; simpl. rewrite Hc.
  destruct (error (f (repo s)) <? 0)%Z; simpl; auto.
Qed.

Lemma git_step_call_mut c (f : repository -> git_result repository) :
  names_no_directory c = true -> git_step (call_mut c f).
Proof.
  intros Hc s; unfold call_mut; simpl. rewrite Hc.
  destruct (error (f (repo s)) <? 0)%Z; simpl; auto.
Qed.

Lemma git_step_Check error : git_step (Git.Check error).
Proof.
  unfold Git.Check. destruct (error >=? 0)%Z.
  - apply git_step_ret.
  - apply git_step_bind; [apply git_step_gets|].
    intros msg. apply git_step_throw_std.
Qed.

Lemma git_step_MakeUnique {A} (ctor : M (Z * A)) :
  git_step ctor -> git_step (Git.MakeUnique ctor).
Proof.
  intros H. unfold Git.MakeUnique.
  apply git_step_bind; [exact H|]. intros [error obj].
  apply git_step_bind; [apply git_step_Check|]. intros _.
  apply git_step_ret.
Qed.

Lemma git_step_Peel objPtr : git_step (Git.Peel objPtr).
Proof.
  unfold Git.Peel.
  apply git_step_bind; [apply git_step_call; reflexivity|].
  intros [error obj].
  apply git_step_bind; [apply git_step_Check|]. intros _.
  apply git_step_ret.
Qed.

Create HintDb git_step.

#[local] Hint Resolve git_step_ret git_step_gets git_step_call
  git_step_call_mut git_step_Check git_step_MakeUnique git_step_Peel
  : git_step.

Ltac git_steps :=
  repeat first
    [ apply git_step_bind; [solve [auto with git_step] | intros ?]
    | match goal with |- git_step (let '(_, _) := ?x in _) => destruct x end
    | solve [auto with git_step] ].

Lemma git_step_Fetch this : git_step (GitRepoImpl.Fetch this).
Proof. unfold GitRepoImpl.Fetch. git_steps. Qed.

Lemma git_step_ResetToFetchHead : git_step GitRepoImpl.ResetToFetchHead.
Proof. unfold GitRepoImpl.ResetToFetchHead. git_steps. Qed.

Lemma git_step_GetFilesDiff : git_step GitRepoImpl.GetFilesDiff.
Proof. unfold GitRepoImpl.GetFilesDiff. git_steps. Qed.

(** *** How one checked libgit2 call runs *)

Lemma status_tests (error : Z) :
  ((error >=? 0)%Z = true /\ (error <? 0)%Z = false)
  \/ ((error >=? 0)%Z = false /\ (error <? 0)%Z = true).
Proof.
  rewrite Z.geb_leb.
  destruct (Z.ltb_spec error 0); [right | left]; split; try reflexivity.
  - apply Z.leb_gt; assumption.
  - apply Z.leb_le; assumption.
Qed.

Lemma bind_call_Check {A B} c (f : repository -> git_result A)
    (k : A -> M B) s :
  bind (call c f)
       (fun x => let '(error, obj) := x in bind (Git.Check error) (fun _ => k obj)) s
  = if (error (f (repo s)) >=? 0)%Z
    then prepend [EvCall c (error (f (repo s)))] (k (value (f (repo s))) s)
    else Build_run (Throw (runtime_error (message (f (repo s)))))
                   (set_giterr (message (f (repo s))) s)
                   [EvCall c (error (f (repo s)))].
Proof.
  unfold bind, call, Git.Check, prepend; simpl.
  destruct (status_tests (error (f (repo s)))) as [[-> ->] | [-> ->]];
    simpl; reflexivity.
Qed.

Lemma bind_MakeUnique {A B} c (f : repository -> git_result A)
    (k : A -> M B) s :
  bind (Git.MakeUnique (call c f)) k s
  = if (error (f (repo s)) >=? 0)%Z
    then prepend [EvCall c (error (f (repo s)))] (k (value (f (repo s))) s)
    else Build_run (Throw (runtime_error (message (f (repo s)))))
                   (set_giterr (message (f (repo s))) s)
                   [EvCall c (error (f (repo s)))].
Proof.
  unfold Git.MakeUnique, bind, call, Git.Check, prepend, ret; simpl.
  destruct (status_tests (error (f (repo s)))) as [[-> ->] | [-> ->]];
    simpl; [|reflexivity].
  destruct (k (value (f (repo s))) s) as [[b|e|] s' evs]; simpl;
    rewrite ?app_nil_r; reflexivity.
Qed.

Lemma bind_Peel {B} objPtr (k : git_tree -> M B) s :
  bind (Git.Peel objPtr) k s
  = if (error (git_object_peel objPtr GIT_OBJ_TREE) >=? 0)%Z
    then prepend
           [EvCall call_object_peel
                   (error (git_object_peel objPtr GIT_OBJ_TREE))]
           (k (value (git_object_peel objPtr GIT_OBJ_TREE)) s)
    else Build_run
           (Throw (runtime_error
                     (message (git_object_peel objPtr GIT_OBJ_TREE))))
           (set_giterr (message (git_object_peel objPtr GIT_OBJ_TREE)) s)
           [EvCall call_object_peel
                   (error (git_object_peel objPtr GIT_OBJ_TREE))].
Proof.
  unfold Git.Peel, bind, call, Git.Check, prepend, ret; simpl.
  destruct (status_tests (error (git_object_peel objPtr GIT_OBJ_TREE)))
    as [[-> ->] | [-> ->]]; simpl; [|reflexivity].
  destruct (k (value (git_object_peel objPtr GIT_OBJ_TREE)) s)
    as [[b|e|] s' evs]; simpl; rewrite ?app_nil_r; reflexivity.
Qed.

Lemma call_mut_Check c (f : repository -> git_result repository) s :
  bind (call_mut c f) (fun error => Git.Check error) s
  = if (error (f (repo s)) >=? 0)%Z
    then Build_run (Return tt) (set_repo (value (f (repo s))) s)
                   [EvCall c (error (f (repo s)))]
    else Build_run (Throw (runtime_error (message (f (repo s)))))
                   (set_giterr (message (f (repo s)))
                               (set_repo (value (f (repo s))) s))
                   [EvCall c (error (f (repo s)))].
Proof.
  unfold bind, call_mut, Git.Check, ret; simpl.
  destruct (status_tests (error (f (repo s)))) as [[-> ->] | [-> ->]];
    simpl; reflexivity.
Qed.

(** *** [Fetch], [ResetToFetchHead], [GetFilesDiff] *)

Lemma Fetch_run this s :
  GitRepoImpl.Fetch this s =
  let l := git_remote_lookup (repo s) "origin" in
  let f := git_remote_fetch (repo s) (value l) (credPtr this) in
  if (error l >=? 0)%Z then
    if (error f >=? 0)%Z then
      Build_run (Return tt) (set_repo (value f) s)
        [EvCall (call_remote_lookup "origin") (error l);
         EvCall call_remote_fetch (error f)]
    else
      Build_run (Throw (runtime_error (message f)))
        (set_giterr (message f) (set_repo (value f) s))
        [EvCall (call_remote_lookup "origin") (error l);
         EvCall call_remote_fetch (error f)]
  else
    Build_run (Throw (runtime_error (message l)))
      (set_giterr (message l) s)
      [EvCall (call_remote_lookup "origin") (error l)].
Proof.
  unfold GitRepoImpl.Fetch. rewrite bind_MakeUnique. cbv zeta.
  destruct (error (git_remote_lookup (repo s) "origin") >=? 0)%Z;
    [|reflexivity].
  rewrite call_mut_Check.
  destruct (error (git_remote_fetch (repo s) _ _) >=? 0)%Z; reflexivity.
Qed.

Lemma ResetToFetchHead_run s :
  GitRepoImpl.ResetToFetchHead s =
  let i := git_reference_name_to_id (repo s) "FETCH_HEAD" in
  let c := git_commit_lookup (repo s) (value i) in
  let r := git_reset (repo s) (value c) GIT_RESET_HARD in
  if (error i >=? 0)%Z then
    if (error c >=? 0)%Z then
      if (error r >=? 0)%Z then
        Build_run (Return tt) (set_repo (value r) s)
          [EvCall (call_reference_name_to_id "FETCH_HEAD") (error i);
           EvCall call_commit_lookup (error c);
           EvCall call_reset (error r)]
      else
        Build_run (Throw (runtime_error (message r)))
          (set_giterr (message r) (set_repo (value r) s))
          [EvCall (call_reference_name_to_id "FETCH_HEAD") (error i);
           EvCall call_commit_lookup (error c);
           EvCall call_reset (error r)]
    else
      Build_run (Throw (runtime_error (message c)))
        (set_giterr (message c) s)
        [EvCall (call_reference_name_to_id "FETCH_HEAD") (error i);
         EvCall call_commit_lookup (error c)]
  else
    Build_run (Throw (runtime_error (message i)))
      (set_giterr (message i) s)
      [EvCall (call_reference_name_to_id "FETCH_HEAD") (error i)].
Proof.
  unfold GitRepoImpl.ResetToFetchHead. rewrite bind_call_Check. cbv zeta.
  destruct (error (git_reference_name_to_id (repo s) "FETCH_HEAD") >=? 0)%Z;
    [|reflexivity].
  rewrite bind_MakeUnique.
  destruct (error (git_commit_lookup (repo s) _) >=? 0)%Z; [|reflexivity].
  rewrite call_mut_Check.
  destruct (error (git_reset (repo s) _ _) >=? 0)%Z; reflexivity.
Qed.

(** The callback appends its contribution and never asks the walk to
    stop, so the walk is a fold. *)
Lemma FileCb_contribution (d : git_diff_delta) (d0 : GitDiff) :
  GitRepoImpl.FileCb d d0 =
  (0%Z, {| removed := removed d0 ++ removed (contribution d);
           added := added d0 ++ added (contribution d) |}).
Proof.
  unfold contribution, GitRepoImpl.FileCb.
  destruct (git_oid_iszero (id (old_file d)) =? 1)%Z; simpl;
    [| destruct (git_oid_iszero (id (new_file d)) =? 1)%Z; simpl];
    rewrite ?app_nil_r; reflexivity.
Qed.

Lemma git_diff_foreach_FileCb (ds : git_diff) (d0 : GitDiff) :
  git_diff_foreach ds GitRepoImpl.FileCb d0 =
  (0%Z,
   {| removed := removed d0 ++ flat_map (fun d => removed (contribution d)) ds;
      added := added d0 ++ flat_map (fun d => added (contribution d)) ds |}).
Proof.
  revert d0; induction ds as [|d ds IH]; intros d0.
  - simpl. rewrite !app_nil_r. destruct d0; reflexivity.
  - cbn [git_diff_foreach flat_map]. rewrite FileCb_contribution.
    cbn [Z.eqb]. rewrite IH. cbn [removed added].
    rewrite <- !app_assoc. reflexivity.
Qed.

Ltac run_checked_in H :=
  repeat
    (first [ rewrite bind_MakeUnique in H | rewrite bind_Peel in H
           | rewrite bind_call_Check in H ];
     match type of H with
     | context [if (error ?x >=? 0)%Z then _ else _] =>
         let E := fresh "Hok" in
         destruct (error x >=? 0)%Z eqn:E; [| try discriminate H]
     end).

(** A diff that returns has compared the tree of HEAD with the tree of
    FETCH_HEAD of the repository it was called on, every call along the
    way succeeding, and has changed nothing. *)
Lemma GetFilesDiff_Return s diff s2 ev2 :
  GitRepoImpl.GetFilesDiff s = Build_run (Return diff) s2 ev2 ->
  diff = snd (git_diff_foreach (deltas (repo s)) GitRepoImpl.FileCb
                {| removed := []; added := [] |})
  /\ s2 = s
  /\ (error (git_diff_tree_to_tree (repo s) (old_tree (repo s))
                                   (new_tree (repo s))) >= 0)%Z
  /\ exists st1 st2 st3 st4 st5 st6,
       ev2 = [EvCall (call_revparse_single "HEAD") st1;
              EvCall (call_revparse_single "FETCH_HEAD") st2;
              EvCall call_object_peel st3;
              EvCall call_object_peel st4;
              EvCall call_diff_tree_to_tree st5;
              EvCall call_diff_foreach st6].
Proof.
  unfold GitRepoImpl.GetFilesDiff. intros H.
  run_checked_in H.
  unfold prepend, ret in H; simpl in H.
  fold (old_tree (repo s)) in H, Hok3. fold (new_tree (repo s)) in H, Hok3.
  fold (deltas (repo s)) in H.
  rewrite git_diff_foreach_FileCb in H. simpl in H.
  inversion H; subst; clear H.
  rewrite git_diff_foreach_FileCb. simpl.
  repeat split; [ apply Z.geb_le in Hok3; lia | ].
  repeat eexists.
Qed.

Ltac run_checked :=
  repeat
    (first [ rewrite bind_MakeUnique | rewrite bind_Peel
           | rewrite bind_call_Check ];
     match goal with
     | |- context [if (error ?x >=? 0)%Z then _ else _] =>
         destruct (error x >=? 0)%Z
     end).

(** Whatever happens in it, a diff leaves the repository alone and
    never calls [git_reset]. *)
Lemma GetFilesDiff_frame s :
  repo (final (GitRepoImpl.GetFilesDiff s)) = repo s
  /\ existsb is_reset_call (events (GitRepoImpl.GetFilesDiff s)) = false.
Proof.
  unfold GitRepoImpl.GetFilesDiff. run_checked; simpl; auto.
Qed.

(** *** [try]/[catch] around a sequence *)

Lemma prepend_prepend {A} evs evs' (r : run A) :
  prepend evs (prepend evs' r) = prepend (evs ++ evs') r.
Proof. unfold prepend; simpl. now rewrite app_assoc. Qed.

Lemma bind_run_Return {A B} (m : M A) (k : A -> M B) s a s1 ev1 :
  m s = Build_run (Return a) s1 ev1 ->
  bind m k s = prepend ev1 (k a s1).
Proof. unfold bind, prepend. intros ->. reflexivity. Qed.

Lemma try_catch_bind_Return {A B} (m : M A) (k : A -> M B) h s a s1 ev1 :
  m s = Build_run (Return a) s1 ev1 ->
  try_catch (bind m k) h s = prepend ev1 (try_catch (k a) h s1).
Proof.
  unfold try_catch, bind, prepend. intros ->. simpl.
  destruct (k a s1) as [[b|[what|]|] s2 ev2]; simpl;
    rewrite ?app_assoc; reflexivity.
Qed.

Lemma try_catch_bind_Throw {A B} (m : M A) (k : A -> M B) h s what s1 ev1 :
  m s = Build_run (Throw (std_exception what)) s1 ev1 ->
  try_catch (bind m k) h s = prepend ev1 (h what s1).
Proof. unfold try_catch, bind, prepend. intros ->. reflexivity. Qed.

(** *** Notification *)

Lemma notify_quiet this (obss : list observer) (diff : GitDiff) s :
  (forall o, In o obss -> OnDiff o (root this) diff = None) ->
  GitRepoImpl.notify this obss diff s =
  Build_run (Return tt) s (map (fun o => EvOnDiff o (root this) diff) obss).
Proof.
  induction obss as [|o obss IH]; intros Hq; [reflexivity|].
  cbn [GitRepoImpl.notify map].
  unfold GitRepoImpl.invoke. rewrite (Hq o) by (left; reflexivity).
  unfold bind at 1. simpl.
  rewrite IH by (intros o' Ho'; apply Hq; right; exact Ho').
  reflexivity.
Qed.

(** Notification emits [OnDiff] calls only and changes nothing. *)
Lemma notify_frame this (obss : list observer) (diff : GitDiff) s :
  forallb is_OnDiff (events (GitRepoImpl.notify this obss diff s)) = true
  /\ final (GitRepoImpl.notify this obss diff s) = s.
Proof.
  induction obss as [|o obss IH]; [simpl; auto|].
  cbn [GitRepoImpl.notify]. unfold GitRepoImpl.invoke.
  destruct (OnDiff o (root this) diff) as [ex|]; unfold bind at 1; simpl.
  - auto.
  - destruct IH as [IH1 IH2].
    destruct (result (GitRepoImpl.notify this obss diff s)); simpl; auto.
Qed.

Lemma notify_events this (obss : list observer) (diff : GitDiff) s :
  events (GitRepoImpl.notify this obss diff s)
  = map (fun o => EvOnDiff o (root this) diff) (notified this diff obss).
Proof.
  induction obss as [|o obss IH]; [reflexivity|].
  cbn [GitRepoImpl.notify notified map]. unfold GitRepoImpl.invoke.
  destruct (OnDiff o (root this) diff) as [ex|]; unfold bind at 1; simpl.
  - reflexivity.
  - destruct (notify_frame this obss diff s) as [_ Hfin].
    destruct (result (GitRepoImpl.notify this obss diff s)); simpl;
      rewrite IH; reflexivity.
Qed.

Lemma notified_quiet this (obss : list observer) (diff : GitDiff) :
  (forall o, In o obss -> OnDiff o (root this) diff = None) ->
  notified this diff obss = obss.
Proof.
  induction obss as [|o obss IH]; intros Hq; [reflexivity|].
  cbn [notified]. rewrite (Hq o) by (left; reflexivity).
  rewrite IH by (intros o' Ho'; apply Hq; right; exact Ho').
  reflexivity.
Qed.

(** *** What the steps of a cycle can and cannot do *)

Lemma existsb_weaken {A} (P Q : A -> bool) (l : list A) :
  (forall x, Q x = true -> P x = true) ->
  existsb P l = false -> existsb Q l = false.
Proof.
  intros HPQ. induction l as [|x l IH]; simpl; [reflexivity|].
  intros H. apply orb_false_iff in H. destruct H as [Hx Hl].
  rewrite (IH Hl), orb_false_r.
  destruct (Q x) eqn:E; [|reflexivity].
  rewrite (HPQ x E) in Hx. discriminate.
Qed.

Lemma calls_exclude (P : event -> bool) (l : list event) :
  (forall e, is_call e = true -> P e = false) ->
  forallb is_call l = true -> existsb P l = false.
Proof.
  intros HP. induction l as [|x l IH]; simpl; [reflexivity|].
  intros H. apply andb_true_iff in H. destruct H as [Hx Hl].
  now rewrite (HP x Hx), (IH Hl).
Qed.

Lemma reset_done_is_call (e : event) :
  is_reset_done e = true -> is_reset_call e = true.
Proof.
  destruct e as [? ?|? ? ?|c status|? ? ?|? ? ?|?]; simpl; try congruence.
  destruct c; congruence.
Qed.

Lemma Fetch_frame this s :
  existsb is_reset_call (events (GitRepoImpl.Fetch this s)) = false
  /\ (head_moves_only_by_reset ->
      mirror_head (repo (final (GitRepoImpl.Fetch this s)))
      = mirror_head (repo s)).
Proof.
  rewrite Fetch_run. cbv zeta.
  destruct (error (git_remote_lookup (repo s) "origin") >=? 0)%Z;
    [destruct (error (git_remote_fetch (repo s) _ _) >=? 0)%Z|];
    simpl; split; try reflexivity; intros [Hf _]; apply Hf.
Qed.

Lemma Fetch_leaves_head this s :
  fetch_leaves_head ->
  mirror_head (repo (final (GitRepoImpl.Fetch this s)))
  = mirror_head (repo s).
Proof.
  intros Hf. rewrite Fetch_run. cbv zeta.
  destruct (error (git_remote_lookup (repo s) "origin") >=? 0)%Z;
    [destruct (error (git_remote_fetch (repo s) _ _) >=? 0)%Z|];
    simpl; try reflexivity; apply Hf.
Qed.

(** A reset that throws has completed no [git_reset]; when it did not
    get as far as calling it the repository is untouched, and when it
    called it the repository is what the failed call left. *)
Lemma ResetToFetchHead_Throw s e s3 ev3 :
  GitRepoImpl.ResetToFetchHead s = Build_run (Throw e) s3 ev3 ->
  existsb is_reset_done ev3 = false
  /\ (existsb is_reset_call ev3 = false -> repo s3 = repo s)
  /\ (existsb is_reset_call ev3 = true ->
      (error (git_reset (repo s) (fetched_commit (repo s)) GIT_RESET_HARD)
       < 0)%Z
      /\ repo s3
         = value (git_reset (repo s) (fetched_commit (repo s))
                            GIT_RESET_HARD)).
Proof.
  rewrite ResetToFetchHead_run. cbv zeta. unfold fetched_commit.
  destruct (error (git_reference_name_to_id (repo s) "FETCH_HEAD") >=? 0)%Z;
    [destruct (error (git_commit_lookup (repo s) _) >=? 0)%Z;
     [destruct (error (git_reset (repo s) _ _) >=? 0)%Z eqn:Hr|]|];
    intros H; inversion H; subst; clear H; simpl.
  - rewrite Hr. split; [reflexivity|]. split; [discriminate|].
    intros _. split; [|reflexivity].
    rewrite Z.geb_leb in Hr. apply Z.leb_gt in Hr. exact Hr.
  - split; [reflexivity|]. split; [reflexivity | discriminate].
  - split; [reflexivity|]. split; [reflexivity | discriminate].
Qed.

(** A reset that returns has reset the repository it was called on to
    the commit FETCH_HEAD names, as its last call. *)
Lemma ResetToFetchHead_Return s s3 ev3 :
  GitRepoImpl.ResetToFetchHead s = Build_run (Return tt) s3 ev3 ->
  repo s3 = value (git_reset (repo s) (fetched_commit (repo s))
                             GIT_RESET_HARD)
  /\ (error (git_reset (repo s) (fetched_commit (repo s))
                       GIT_RESET_HARD) >= 0)%Z
  /\ observers s3 = observers s
  /\ exists st1 st2 st3,
       ev3 = [EvCall (call_reference_name_to_id "FETCH_HEAD") st1;
              EvCall call_commit_lookup st2;
              EvCall call_reset st3]
       /\ (st3 >= 0)%Z.
Proof.
  rewrite ResetToFetchHead_run. cbv zeta. fold (fetched_commit (repo s)).
  destruct (error (git_reference_name_to_id (repo s) "FETCH_HEAD") >=? 0)%Z;
    [destruct (error (git_commit_lookup (repo s) _) >=? 0)%Z;
     [destruct (error (git_reset (repo s) _ _) >=? 0)%Z eqn:Hr|]|];
    intros H; inversion H; subst; clear H; simpl.
  apply Z.geb_le in Hr.
  repeat split; [lia|]. do 3 eexists. split; [reflexivity | lia].
Qed.

Lemma Throw_is_std {A} (m : M A) s e s' evs :
  git_step m -> m s = Build_run (Throw e) s' evs ->
  exists what, e = std_exception what.
Proof.
  intros Hm H. destruct (Hm s) as (_ & _ & _ & Hr).
  rewrite H in Hr. exact Hr.
Qed.

Lemma forallb_weaken {A} (P Q : A -> bool) (l : list A) :
  (forall x, P x = true -> Q x = true) ->
  forallb P l = true -> forallb Q l = true.
Proof.
  intros HPQ. induction l as [|x l IH]; simpl; [reflexivity|].
  intros H. apply andb_true_iff in H. destruct H as [Hx Hl].
  now rewrite (HPQ x Hx), (IH Hl).
Qed.

Lemma step_call_is_call (e : event) :
  is_step_call e = true -> is_call e = true.
Proof. destruct e; simpl; congruence. Qed.

Lemma step_events {A} (m : M A) s o s' evs :
  git_step m -> m s = Build_run o s' evs ->
  forallb is_call evs = true /\ observers s' = observers s.
Proof.
  intros Hm H. destruct (Hm s) as (He & Ho & _ & _).
  rewrite H in He, Ho. split; [|exact Ho].
  exact (forallb_weaken _ _ _ step_call_is_call He).
Qed.

Lemma step_acceptor {A} (m : M A) s o s' evs :
  git_step m -> m s = Build_run o s' evs ->
  acceptor_is_open s' = acceptor_is_open s.
Proof.
  intros Hm H. destruct (Hm s) as (_ & _ & Ha & _).
  rewrite H in Ha. exact Ha.
Qed.

End Steps.

(* ================================================================= *)
(** ** The trigger handler *)

Section Trigger.
Context {G : LibGit2} {Obs : IGitRepoObserver}.

Abbreviation triggered this :=
  (EvLog spdlog_info GIT_REPO_WEBHOOK_TRIGGERED [root this]).
Abbreviation finished := (EvLog spdlog_info GIT_REPO_FINISHED_UPDATING []).

(** The handler on an authorised payload is the guarded sequence. *)
Lemma Callback_authorised this payload s :
  substring_of (token this) payload ->
  GitRepoImpl.Callback this payload s =
  prepend [triggered this]
    (try_catch
       (GitRepoImpl.Fetch this ;;
        diff <- GitRepoImpl.GetFilesDiff ;;
        GitRepoImpl.ResetToFetchHead ;;
        spdlog spdlog_info GIT_REPO_FINISHED_UPDATING [] ;;
        if negb (GitRepoImpl.empty (removed diff))
           || negb (GitRepoImpl.empty (added diff))
        then (obss <- gets observers ;; GitRepoImpl.notify this obss diff)
        else ret tt)
       (fun what => spdlog spdlog_error GIT_REPO_UPDATE_EXCEPT [what]) s).
Proof.
  intros Hsub. apply find_found in Hsub.
  unfold GitRepoImpl.Callback. unfold bind at 1. simpl.
  rewrite Hsub. reflexivity.
Qed.

(** C1: a payload that does not contain the token makes the handler log
    the trigger and the rejection and return: no libgit2 call (no fetch,
    no diff, no reset), the state untouched, no observer called, nothing
    thrown. *)
Theorem Callback_rejects_payload_without_token this payload s :
  ~ substring_of (token this) payload ->
  GitRepoImpl.Callback this payload s =
  Build_run (Return tt) s
    [EvLog spdlog_info GIT_REPO_WEBHOOK_TRIGGERED [root this];
     EvLog spdlog_error GIT_REPO_WEBHOOK_NO_TOKEN []]
  /\ existsb is_call (events (GitRepoImpl.Callback this payload s)) = false
  /\ existsb is_OnDiff (events (GitRepoImpl.Callback this payload s)) = false
  /\ existsb is_OnAdd (events (GitRepoImpl.Callback this payload s)) = false
  /\ repo (final (GitRepoImpl.Callback this payload s)) = repo s.
Proof.
  intros Hno. apply find_npos in Hno.
  assert (E : GitRepoImpl.Callback this payload s =
              Build_run (Return tt) s
                [EvLog spdlog_info GIT_REPO_WEBHOOK_TRIGGERED [root this];
                 EvLog spdlog_error GIT_REPO_WEBHOOK_NO_TOKEN []]).
  { unfold GitRepoImpl.Callback. unfold bind at 1.
    cbn [spdlog emit result final events]. rewrite Hno. reflexivity. }
  rewrite E. cbn [events final existsb is_call is_OnDiff is_OnAdd orb].
  auto.
Qed.


(** *** Successful cycles *)

Lemma Callback_success this payload s diff s1 s2 s3 ev1 ev2 ev3 :
  substring_of (token this) payload ->
  cycle_succeeds this s diff s1 s2 s3 ev1 ev2 ev3 ->
  GitRepoImpl.Callback this payload s =
  prepend (triggered this :: ev1 ++ ev2 ++ ev3 ++ [finished])
          (after_reset this diff s3).
Proof.
  intros Hsub [Hf Hd Hr].
  rewrite (Callback_authorised this payload s Hsub).
  rewrite (try_catch_bind_Return _ _ _ _ _ _ _ Hf).
  rewrite (try_catch_bind_Return _ _ _ _ _ _ _ Hd).
  rewrite (try_catch_bind_Return _ _ _ _ _ _ _ Hr).
  rewrite (try_catch_bind_Return
             (spdlog spdlog_info GIT_REPO_FINISHED_UPDATING []) _ _ s3 tt s3
             [finished] eq_refl).
  rewrite !prepend_prepend. fold (after_reset this diff).
  f_equal. simpl. rewrite <- !app_assoc. reflexivity.
Qed.

Lemma after_reset_quiet this diff s :
  (forall o, In o (observers s) -> OnDiff o (root this) diff = None) ->
  after_reset this diff s =
  Build_run (Return tt) s
    (if negb (GitRepoImpl.empty (removed diff))
        || negb (GitRepoImpl.empty (added diff))
     then map (fun o => EvOnDiff o (root this) diff) (observers s)
     else []).
Proof.
  intros Hq. unfold after_reset.
  destruct (negb (GitRepoImpl.empty (removed diff))
            || negb (GitRepoImpl.empty (added diff))).
  - rewrite (try_catch_bind_Return (gets observers) _ _ s (observers s) s []
               eq_refl).
    unfold try_catch. rewrite (notify_quiet this _ diff s Hq). reflexivity.
  - reflexivity.
Qed.

(** After the reset the handler makes no libgit2 call. *)
Lemma after_reset_no_call this diff s :
  existsb is_call (events (after_reset this diff s)) = false.
Proof.
  unfold after_reset.
  destruct (negb (GitRepoImpl.empty (removed diff))
            || negb (GitRepoImpl.empty (added diff))); [|reflexivity].
  rewrite (try_catch_bind_Return (gets observers) _ _ s (observers s) s []
             eq_refl).
  unfold prepend; simpl. unfold try_catch.
  destruct (notify_frame this (observers s) diff s) as [Hev Hfin].
  assert (Hnc : existsb is_call
                  (events (GitRepoImpl.notify this (observers s) diff s))
                = false).
  { revert Hev.
    generalize (events (GitRepoImpl.notify this (observers s) diff s)).
    induction l as [|x l IH]; simpl; [reflexivity|].
    intros H. apply andb_true_iff in H. destruct H as [Hx Hl].
    rewrite (IH Hl). destruct x; simpl in *; congruence. }
  destruct (result (GitRepoImpl.notify this (observers s) diff s))
    as [u|[what|]|]; simpl; try exact Hnc.
  rewrite existsb_app, Hnc. reflexivity.
Qed.

Lemma filter_none {A} (P : A -> bool) (l : list A) :
  existsb P l = false -> filter P l = [].
Proof.
  induction l as [|x l IH]; simpl; [reflexivity|].
  intros H. apply orb_false_iff in H. destruct H as [-> Hl]. auto.
Qed.

Lemma filter_OnDiff_to_map this diff o (obss : list observer) :
  length (filter (is_OnDiff_to o)
                 (map (fun o' => EvOnDiff o' (root this) diff) obss))
  = count_occ Nat.eq_dec obss o.
Proof.
  induction obss as [|x obss IH]; simpl; [reflexivity|].
  destruct (Nat.eq_dec x o) as [->|Hne].
  - rewrite Nat.eqb_refl. simpl. now rewrite IH.
  - apply Nat.eqb_neq in Hne. rewrite Hne. exact IH.
Qed.

Lemma filter_OnDiff_map this diff (obss : list observer) :
  filter is_OnDiff (map (fun o => EvOnDiff o (root this) diff) obss)
  = map (fun o => EvOnDiff o (root this) diff) obss.
Proof. induction obss as [|x obss IH]; simpl; [|rewrite IH]; reflexivity. Qed.

(** The [OnDiff] calls made after the reset. *)
Lemma after_reset_OnDiff this diff s :
  filter is_OnDiff (events (after_reset this diff s))
  = if negb (GitRepoImpl.empty (removed diff))
       || negb (GitRepoImpl.empty (added diff))
    then map (fun o => EvOnDiff o (root this) diff)
             (notified this diff (observers s))
    else [].
Proof.
  unfold after_reset.
  destruct (negb (GitRepoImpl.empty (removed diff))
            || negb (GitRepoImpl.empty (added diff))); [|reflexivity].
  rewrite (try_catch_bind_Return (gets observers) _ _ s (observers s) s []
             eq_refl).
  unfold prepend, try_catch. cbn [events app].
  pose proof (notify_events this (observers s) diff s) as Hev.
  destruct (result (GitRepoImpl.notify this (observers s) diff s))
    as [u|[what|]|]; cbn [events]; rewrite ?filter_app, Hev;
    rewrite filter_OnDiff_map; simpl; rewrite ?app_nil_r; reflexivity.
Qed.

(** C4, amended: in a cycle whose fetch, diff and reset return, a diff
    with something added or removed is handed to the observers
    registered when the cycle began, in registration order, up to and
    including the first whose [OnDiff] throws: the observers after it
    are not called.  When none throws, every registration receives
    exactly one [OnDiff] call with that diff and the handler returns.  A
    diff with nothing added and nothing removed is handed to nobody. *)
Theorem successful_cycle_notifies this payload s diff s1 s2 s3 ev1 ev2 ev3 :
  substring_of (token this) payload ->
  cycle_succeeds this s diff s1 s2 s3 ev1 ev2 ev3 ->
  (removed diff <> [] \/ added diff <> [] ->
   filter is_OnDiff (events (GitRepoImpl.Callback this payload s))
   = map (fun o => EvOnDiff o (root this) diff)
         (notified this diff (observers s))
   /\ ((forall o, In o (observers s) -> OnDiff o (root this) diff = None) ->
       result (GitRepoImpl.Callback this payload s) = Return tt
       /\ filter is_OnDiff (events (GitRepoImpl.Callback this payload s))
          = map (fun o => EvOnDiff o (root this) diff) (observers s)
       /\ forall o,
            length (filter (is_OnDiff_to o)
                           (events (GitRepoImpl.Callback this payload s)))
            = count_occ Nat.eq_dec (observers s) o))
  /\ (removed diff = [] /\ added diff = [] ->
      result (GitRepoImpl.Callback this payload s) = Return tt
      /\ filter is_OnDiff (events (GitRepoImpl.Callback this payload s)) = []).
Proof.
  intros Hsub Hok.
  pose proof (Callback_success this payload s diff s1 s2 s3 ev1 ev2 ev3
                Hsub Hok) as Hrun.
  destruct Hok as [Hf Hd Hr].
  destruct (step_events _ _ _ _ _ (git_step_Fetch this) Hf) as [Hc1 Ho1].
  destruct (step_events _ _ _ _ _ git_step_GetFilesDiff Hd) as [Hc2 Ho2].
  destruct (step_events _ _ _ _ _ git_step_ResetToFetchHead Hr) as [Hc3 Ho3].
  assert (Hobs : observers s3 = observers s) by congruence.
  assert (Hpre : forall P,
             (forall e, is_call e = true -> P e = false) ->
             P finished = false -> P (triggered this) = false ->
             forall tail,
               filter P ((triggered this :: ev1 ++ ev2 ++ ev3 ++ [finished])
                         ++ tail)
               = filter P tail).
  { intros P HP Hfin Htrig tail.
    cbn [app filter]. rewrite Htrig, !filter_app.
    rewrite (filter_none P ev1), (filter_none P ev2), (filter_none P ev3)
      by (apply calls_exclude; assumption).
    simpl. rewrite Hfin. reflexivity. }
  assert (HOnDiff : forall e, is_call e = true -> is_OnDiff e = false)
    by (intros [] ?; simpl in *; congruence).
  assert (Hgeneral :
    filter is_OnDiff (events (GitRepoImpl.Callback this payload s))
    = if negb (GitRepoImpl.empty (removed diff))
         || negb (GitRepoImpl.empty (added diff))
      then map (fun o => EvOnDiff o (root this) diff)
               (notified this diff (observers s))
      else []).
  { rewrite Hrun. unfold prepend. cbn [events].
    rewrite (Hpre is_OnDiff HOnDiff eq_refl eq_refl).
    rewrite after_reset_OnDiff, Hobs. reflexivity. }
  split.
  - intros Hne.
    assert (Hb : negb (GitRepoImpl.empty (removed diff))
                 || negb (GitRepoImpl.empty (added diff)) = true).
    { apply orb_true_iff.
      destruct Hne as [Hne|Hne]; [left|right]; apply negb_true_iff.
      - destruct (removed diff); [contradiction | reflexivity].
      - destruct (added diff); [contradiction | reflexivity]. }
    rewrite Hb in Hgeneral. split; [exact Hgeneral|].
    intros Hq.
    rewrite after_reset_quiet in Hrun by (rewrite Hobs; exact Hq).
    rewrite Hobs, Hb in Hrun.
    rewrite Hgeneral, (notified_quiet this _ diff Hq).
    split; [rewrite Hrun; reflexivity|]. split; [reflexivity|].
    intros o. rewrite Hrun. unfold prepend. cbn [events].
    rewrite Hpre; [apply filter_OnDiff_to_map | | reflexivity | reflexivity].
    intros [] ?; simpl in *; congruence.
  - intros [Hr0 Ha0]. rewrite Hr0, Ha0 in Hgeneral.
    cbn [GitRepoImpl.empty negb orb] in Hgeneral.
    split; [|exact Hgeneral].
    rewrite Hrun. unfold prepend, after_reset. rewrite Hr0, Ha0. reflexivity.
Qed.

(** C5: in a cycle that succeeds, the diff is taken on the repository as
    the fetch left it, between the tree of HEAD (still the head from
    before the fetch) and the tree of FETCH_HEAD; the reset is applied to
    that same repository afterwards: no [git_reset] call comes before the
    diff is complete, and no tree comparison comes after the reset has
    begun. *)
Theorem reset_follows_diff this payload s diff s1 s2 s3 ev1 ev2 ev3 :
  substring_of (token this) payload ->
  cycle_succeeds this s diff s1 s2 s3 ev1 ev2 ev3 ->
  diff = snd (git_diff_foreach (deltas (repo s1)) GitRepoImpl.FileCb
                {| removed := []; added := [] |})
  /\ (head_moves_only_by_reset ->
      mirror_head (repo s1) = mirror_head (repo s))
  /\ s2 = s1
  /\ repo s3 = value (git_reset (repo s1) (fetched_commit (repo s1))
                                GIT_RESET_HARD)
  /\ exists tail,
       events (GitRepoImpl.Callback this payload s)
       = (triggered this :: ev1 ++ ev2) ++ ev3 ++ tail
       /\ existsb is_reset_call (triggered this :: ev1 ++ ev2) = false
       /\ existsb is_diff_call ev2 = true
       /\ existsb is_reset_done ev3 = true
       /\ existsb is_diff_call (ev3 ++ tail) = false.
Proof.
  intros Hsub Hok.
  pose proof (Callback_success this payload s diff s1 s2 s3 ev1 ev2 ev3
                Hsub Hok) as Hrun.
  destruct Hok as [Hf Hd Hr].
  destruct (GetFilesDiff_Return _ _ _ _ Hd)
    as (Hdiff & -> & _ & st1 & st2 & st3 & st4 & st5 & st6 & ->).
  destruct (ResetToFetchHead_Return _ _ _ Hr)
    as (Hrepo & _ & _ & t1 & t2 & t3 & -> & Ht3).
  destruct (Fetch_frame this s) as [Hnr Hh]. rewrite Hf in Hnr, Hh.
  simpl in Hnr, Hh.
  split; [exact Hdiff|]. split; [exact Hh|]. split; [reflexivity|].
  split; [exact Hrepo|].
  exists (finished :: events (after_reset this diff s3)).
  rewrite Hrun. unfold prepend. cbn [events].
  split.
  { simpl. rewrite <- !app_assoc. reflexivity. }
  split.
  { cbn [existsb is_reset_call]. rewrite existsb_app, Hnr. reflexivity. }
  split; [reflexivity|].
  split.
  { simpl. replace (t3 >=? 0)%Z with true; [reflexivity|].
    symmetry. apply Z.geb_le. lia. }
  simpl.
  apply (existsb_weaken is_call is_diff_call);
    [intros [] ?; simpl in *; congruence | apply after_reset_no_call].
Qed.

Lemma git_oid_iszero_cases (oid : git_oid) :
  git_oid_iszero oid = 0%Z \/ git_oid_iszero oid = 1%Z.
Proof.
  unfold git_oid_iszero. destruct (forallb _ oid); [right | left]; reflexivity.
Qed.

(** C3: the diff [GetFilesDiff] returns is built from the deltas between
    the tree of HEAD and the tree of FETCH_HEAD, delta by delta and in
    their order; a blob only the new tree has contributes its new path
    to [added], a blob only the old tree has contributes its old path to
    [removed], and a blob both trees have contributes its old path to
    [removed] and its new path to [added]. *)
Theorem diff_classifies_changed_blobs s diff s2 ev2 :
  GitRepoImpl.GetFilesDiff s = Build_run (Return diff) s2 ev2 ->
  removed diff
  = flat_map (fun delta => removed (contribution delta)) (deltas (repo s))
  /\ added diff
     = flat_map (fun delta => added (contribution delta)) (deltas (repo s))
  /\ forall delta,
       In delta (deltas (repo s)) ->
       present (old_file delta) \/ present (new_file delta) ->
       classified delta (removed (contribution delta))
                        (added (contribution delta)).
Proof.
  intros H. destruct (GetFilesDiff_Return _ _ _ _ H) as (Hdiff & _).
  rewrite git_diff_foreach_FileCb in Hdiff. simpl in Hdiff. subst diff.
  split; [reflexivity|]. split; [reflexivity|].
  intros delta _ Hchanged.
  unfold contribution, GitRepoImpl.FileCb, present, absent in *.
  destruct (git_oid_iszero_cases (id (old_file delta))) as [Ho|Ho];
    destruct (git_oid_iszero_cases (id (new_file delta))) as [Hn|Hn];
    rewrite ?Ho, ?Hn; simpl.
  - apply in_both; assumption.
  - apply only_in_old; assumption.
  - apply only_in_new; assumption.
  - destruct Hchanged; congruence.
Qed.

End Trigger.

(* ================================================================= *)
(** ** Observers *)

Section Observers.
Context {G : LibGit2} {Obs : IGitRepoObserver}.

(** The loop of [GetTrackedFiles] never leaves the index and collects
    the paths of its entries in their order. *)
Lemma tracked_loop_paths (before rest : git_index) (pv : PathVector) :
  GitRepoImpl.tracked_loop (before ++ rest) (length before) (length rest) pv
  = Some (pv ++ map entry_path rest).
Proof.
  revert before pv. induction rest as [|entry rest IH]; intros before pv.
  - simpl. now rewrite app_nil_r.
  - cbn [length GitRepoImpl.tracked_loop]. unfold git_index_get_byindex.
    rewrite nth_error_app2, Nat.sub_diag by lia. cbn [nth_error].
    replace (before ++ entry :: rest) with ((before ++ [entry]) ++ rest)
      by (rewrite <- app_assoc; reflexivity).
    replace (S (length before)) with (length (before ++ [entry]))
      by (rewrite length_app; simpl; lia).
    rewrite IH. rewrite <- app_assoc. reflexivity.
Qed.

Lemma GetTrackedFiles_run s :
  GitRepoImpl.GetTrackedFiles s =
  let index := git_repository_index (repo s) in
  if (error index >=? 0)%Z then
    Build_run (Return (map entry_path (value index))) s
      [EvCall call_repository_index (error index)]
  else
    Build_run (Throw (runtime_error (message index)))
      (set_giterr (message index) s)
      [EvCall call_repository_index (error index)].
Proof.
  unfold GitRepoImpl.GetTrackedFiles. rewrite bind_MakeUnique. cbv zeta.
  destruct (error (git_repository_index (repo s)) >=? 0)%Z; [|reflexivity].
  unfold git_index_entrycount.
  pose proof (tracked_loop_paths [] (value (git_repository_index (repo s)))
                []) as Hloop.
  cbn [app length] in Hloop. rewrite Hloop. reflexivity.
Qed.

(** C9: [AddObserver] appends the observer to the list; when the index
    of the mirror can be read and has entries, the observer gets one
    [OnAdd] call inside [AddObserver], with the root path and the paths
    of all entries in index order; when the index has no entry it gets
    no call. *)
Theorem AddObserver_registers_and_reports this obs s :
  (error (git_repository_index (repo s)) >= 0)%Z ->
  let r := GitRepoImpl.AddObserver this obs s in
  let pv := map entry_path (value (git_repository_index (repo s))) in
  observers (final r) = observers s ++ [obs]
  /\ repo (final r) = repo s
  /\ (pv <> [] ->
      filter is_OnAdd (events r) = [EvOnAdd obs (root this) pv]
      /\ events r = [EvCall call_repository_index
                            (error (git_repository_index (repo s)));
                     EvOnAdd obs (root this) pv])
  /\ (pv = [] ->
      filter is_OnAdd (events r) = [] /\ result r = Return tt).
Proof.
  intros Hok. cbv zeta.
  unfold GitRepoImpl.AddObserver.
  rewrite (bind_run_Return
             (modify (fun s0 => set_observers (observers s0 ++ [obs]) s0))
             _ s tt (set_observers (observers s ++ [obs]) s) [] eq_refl).
  pose proof (GetTrackedFiles_run (set_observers (observers s ++ [obs]) s))
    as Hrun.
  cbv zeta in Hrun. cbn [repo set_observers] in Hrun.
  replace (error (git_repository_index (repo s)) >=? 0)%Z with true in Hrun
    by (symmetry; apply Z.geb_le; lia).
  rewrite (bind_run_Return _ _ _ _ _ _ Hrun).
  unfold prepend. cbn [final events result app].
  destruct (map entry_path (value (git_repository_index (repo s))))
    as [|p pv] eqn:Epv.
  - cbn [GitRepoImpl.empty negb]. simpl.
    repeat split; intros; try reflexivity; congruence.
  - cbn [GitRepoImpl.empty negb]. unfold GitRepoImpl.invoke.
    unfold bind at 1. cbn [emit result final events].
    destruct (OnAdd obs (root this) (p :: pv)) as [ex|]; simpl;
      repeat split; intros; try reflexivity; congruence.
Qed.

End Observers.

(* ================================================================= *)
(** ** The endpoint *)

Section Endpoint.
Context {G : LibGit2} {Obs : IGitRepoObserver}.

Lemma emits_ret {A} P (a : A) : emits P (ret a).
Proof. intros s; reflexivity. Qed.

Lemma emits_gets {A} P (f : state -> A) : emits P (gets f).
Proof. intros s; reflexivity. Qed.

Lemma emits_throw {A} P e : emits P (throw (A := A) e).
Proof. intros s; reflexivity. Qed.

Lemma emits_emit P e : P e = true -> emits P (emit e).
Proof. intros H s; simpl. now rewrite H. Qed.

Lemma emits_bind {A B} P (m : M A) (k : A -> M B) :
  emits P m -> (forall a, emits P (k a)) -> emits P (bind m k).
Proof.
  intros Hm Hk s. unfold bind. specialize (Hm s).
  destruct (result (m s)) as [a|e|]; simpl; try exact Hm.
  rewrite forallb_app, Hm. apply Hk.
Qed.

Lemma emits_try_catch {A} P (body : M A) (h : string -> M A) :
  emits P body -> (forall what, emits P (h what)) -> emits P (try_catch body h).
Proof.
  intros Hb Hh s. unfold try_catch. specialize (Hb s).
  destruct (result (body s)) as [a|[what|]|]; simpl; try exact Hb.
  rewrite forallb_app, Hb. apply Hh.
Qed.

Lemma emits_git_step {A} P (m : M A) :
  (forall e, is_step_call e = true -> P e = true) -> git_step m -> emits P m.
Proof.
  intros HP Hm s. destruct (Hm s) as [Hc _].
  exact (forallb_weaken _ _ _ HP Hc).
Qed.

Lemma emits_notify P this obss diff :
  (forall e, is_OnDiff e = true -> P e = true) ->
  emits P (GitRepoImpl.notify this obss diff).
Proof.
  intros HP. induction obss as [|o obss IH]; [apply emits_ret|].
  cbn [GitRepoImpl.notify]. apply emits_bind; [|intros _; exact IH].
  unfold GitRepoImpl.invoke. apply emits_bind.
  - apply emits_emit, HP. reflexivity.
  - intros _. destruct (OnDiff o (root this) diff);
      [apply emits_throw | apply emits_ret].
Qed.

(** The handler never writes to a socket. *)
Lemma Callback_never_writes this payload :
  emits not_write (GitRepoImpl.Callback this payload).
Proof.
  assert (Hcall : forall e, is_step_call e = true -> not_write e = true)
    by (intros [] ?; unfold not_write; simpl in *; congruence).
  unfold GitRepoImpl.Callback, spdlog.
  apply emits_bind; [now apply emits_emit|]. intros _.
  destruct (Std.is_npos _); [now apply emits_emit|].
  apply emits_try_catch; [|intros what; now apply emits_emit].
  apply emits_bind; [apply emits_git_step, git_step_Fetch; exact Hcall|].
  intros _.
  apply emits_bind; [apply emits_git_step, git_step_GetFilesDiff; exact Hcall|].
  intros diff.
  apply emits_bind;
    [apply emits_git_step, git_step_ResetToFetchHead; exact Hcall|].
  intros _.
  apply emits_bind; [now apply emits_emit|]. intros _.
  destruct (negb _ || negb _); [|apply emits_ret].
  apply emits_bind; [apply emits_gets|]. intros obss.
  apply emits_notify. intros [] ?; unfold not_write; simpl in *; congruence.
Qed.

Lemma write_run soc bytes s :
  WebhookEndpoint.write soc bytes s =
  if (write_ec soc =? 0)%Z
  then Build_run (Return tt) s [EvWrite bytes]
  else Build_run (Throw (system_error "write")) s [EvWrite bytes].
Proof.
  unfold WebhookEndpoint.write, bind. simpl.
  destruct (write_ec soc =? 0)%Z; reflexivity.
Qed.

(** A read that succeeds is answered and then dispatched. *)
Lemma DoReadHeader_run cb soc s :
  read_ec soc = 0%Z ->
  WebhookEndpoint.DoReadHeader cb soc s =
  if (write_ec soc =? 0)%Z
  then prepend [EvWrite (Asio.string_literal acknowledgement)]
               (cb (handed_payload soc) s)
  else Build_run (Throw (system_error "write")) s
                 [EvWrite (Asio.string_literal acknowledgement)].
Proof.
  intros Hec. unfold WebhookEndpoint.DoReadHeader. rewrite Hec.
  cbn [Z.eqb negb]. unfold bind at 1. rewrite write_run.
  destruct (write_ec soc =? 0)%Z; reflexivity.
Qed.

(** A read that fails is dropped: nothing written, nothing dispatched. *)
Lemma DoReadHeader_failed_read cb soc s :
  read_ec soc <> 0%Z ->
  WebhookEndpoint.DoReadHeader cb soc s = Build_run (Return tt) s [].
Proof.
  intros Hec. unfold WebhookEndpoint.DoReadHeader.
  apply Z.eqb_neq in Hec. rewrite Hec. reflexivity.
Qed.

(** *** The read buffer and the acknowledgement *)

Lemma substring_length (n m : nat) (str : string) :
  String.length (String.substring n m str)
  = Nat.min m (String.length str - n).
Proof.
  revert n m; induction str as [|c str IH]; intros [|n] [|m]; simpl;
    try reflexivity; rewrite ?IH; try reflexivity; simpl; lia.
Qed.

Lemma substring_0_substring_0 (a b : nat) (str : string) :
  String.substring 0 a (String.substring 0 b str)
  = String.substring 0 (Nat.min a b) str.
Proof.
  revert a b; induction str as [|c str IH]; intros [|a] [|b]; simpl;
    try reflexivity.
  now rewrite IH.
Qed.

(** A read fills the buffer in place: its size does not change, and no
    byte beyond its size is looked at. *)
Lemma read_some_length (buf data : string) :
  String.length (Asio.read_some buf data) = String.length buf.
Proof.
  unfold Asio.read_some. rewrite append_length, !substring_length. lia.
Qed.

Lemma read_some_prefix (buf data : string) :
  Asio.read_some buf data
  = Asio.read_some buf (String.substring 0 (String.length buf) data).
Proof.
  unfold Asio.read_some.
  rewrite substring_length, substring_0_substring_0, Nat.sub_0_r.
  replace (Nat.min (Nat.min (String.length buf) (String.length data))
                   (String.length buf))
    with (Nat.min (String.length data) (String.length buf)) by lia.
  replace (Nat.min (Nat.min (String.length data) (String.length buf))
                   (String.length buf))
    with (Nat.min (String.length data) (String.length buf)) by lia.
  reflexivity.
Qed.

(** C6: the buffer handed to the read is [std::string(' ', 255)], that
    is 32 characters of code 255, so a read takes at most 32 bytes: the
    payload given to the callback has 33 characters (the buffer and the
    NUL), depends on no byte after the 32nd, and a request that carries
    the token after byte 32 is rejected. *)
Theorem read_buffer_holds_32_bytes :
  Std.string_fill (Std.size_of_char " ") (Std.char_of_int 255)
  = Std.string_fill 32 (ascii_of_nat 255)
  /\ (forall soc, String.length (handed_payload soc) = 33)
  /\ (forall soc,
        handed_payload soc
        = handed_payload
            {| read_ec := read_ec soc;
               incoming := String.substring 0 32 (incoming soc);
               write_ec := write_ec soc |})
  /\ (forall s remote root credPtr,
        let this := {| token := "s3cret"; remote := remote; root := root;
                       credPtr := credPtr |} in
        let request :=
          ("POST /webhooks/multirole/cards?t=s3cret HTTP/1.1")%string in
        substring_of (token this) request
        /\ String.length request <= 255
        /\ WebhookEndpoint.DoReadHeader (GitRepoImpl.Callback this)
             {| read_ec := 0; incoming := request; write_ec := 0 |} s
           = Build_run (Return tt) s
               [EvWrite (Asio.string_literal acknowledgement);
                EvLog spdlog_info GIT_REPO_WEBHOOK_TRIGGERED [root];
                EvLog spdlog_error GIT_REPO_WEBHOOK_NO_TOKEN []]).
Proof.
  split; [reflexivity|]. split.
  { intros soc. unfold handed_payload, Std.push_back.
    rewrite append_length, read_some_length. reflexivity. }
  split.
  { intros soc. unfold handed_payload. cbn [incoming].
    rewrite read_some_prefix. reflexivity. }
  intros s remote root credPtr this request. split.
  { exists ("POST /webhooks/multirole/cards?t=")%string,
           (" HTTP/1.1")%string. reflexivity. }
  split; [subst request; simpl; lia|].
  rewrite DoReadHeader_run by reflexivity. cbn [write_ec Z.eqb].
  unfold GitRepoImpl.Callback, spdlog, prepend, bind. simpl.
  reflexivity.
Qed.

(** C7: after a read that succeeded the endpoint hands [asio::write]
    the whole array of the literal: the 17 characters of the
    acknowledgement line and the NUL that ends the literal, 18 bytes. *)
Theorem acknowledgement_write_has_18_bytes cb soc s :
  read_ec soc = 0%Z ->
  exists rest,
    events (WebhookEndpoint.DoReadHeader cb soc s)
    = EvWrite (acknowledgement ++ String Ascii.zero EmptyString)%string
      :: rest
    /\ String.length
         (acknowledgement ++ String Ascii.zero EmptyString)%string = 18
    /\ String.length acknowledgement = 17
    /\ (acknowledgement ++ String Ascii.zero EmptyString)%string
       <> acknowledgement.
Proof.
  intros Hec. rewrite (DoReadHeader_run cb soc s Hec).
  destruct (write_ec soc =? 0)%Z.
  - exists (events (cb (handed_payload soc) s)).
    repeat split; try reflexivity. discriminate.
  - exists []. repeat split; try reflexivity. discriminate.
Qed.

(** C8: the bytes written to a connection whose read succeeded are the
    same whatever was read (with the token or without it), and they are
    written first: everything the handler does, the token test
    included, comes after the write and writes nothing. *)
Theorem response_independent_of_payload this soc1 soc2 s1 s2 :
  read_ec soc1 = 0%Z -> read_ec soc2 = 0%Z ->
  let r1 :=
    WebhookEndpoint.DoReadHeader (GitRepoImpl.Callback this) soc1 s1 in
  let r2 :=
    WebhookEndpoint.DoReadHeader (GitRepoImpl.Callback this) soc2 s2 in
  filter is_write (events r1) = filter is_write (events r2)
  /\ (exists bytes rest1 rest2,
        events r1 = EvWrite bytes :: rest1
        /\ events r2 = EvWrite bytes :: rest2
        /\ existsb is_write rest1 = false
        /\ existsb is_write rest2 = false
        /\ (write_ec soc1 = 0%Z ->
            rest1 = events (GitRepoImpl.Callback this (handed_payload soc1) s1))
        /\ (write_ec soc2 = 0%Z ->
            rest2 = events (GitRepoImpl.Callback this (handed_payload soc2) s2))).
Proof.
  intros H1 H2. cbv zeta.
  assert (Hnw : forall payload s,
             existsb is_write
               (events (GitRepoImpl.Callback this payload s)) = false).
  { intros payload s. pose proof (Callback_never_writes this payload s) as H.
    revert H. generalize (events (GitRepoImpl.Callback this payload s)).
    induction l as [|x l IH]; simpl; [reflexivity|].
    intros H. apply andb_true_iff in H. destruct H as [Hx Hl].
    rewrite (IH Hl). unfold not_write in Hx.
    destruct (is_write x); [discriminate | reflexivity]. }
  rewrite (DoReadHeader_run _ soc1 s1 H1), (DoReadHeader_run _ soc2 s2 H2).
  assert (Hshape : forall soc s,
    exists rest,
      events (if (write_ec soc =? 0)%Z
              then prepend [EvWrite (Asio.string_literal acknowledgement)]
                     (GitRepoImpl.Callback this (handed_payload soc) s)
              else Build_run (Throw (system_error "write")) s
                     [EvWrite (Asio.string_literal acknowledgement)])
      = EvWrite (Asio.string_literal acknowledgement) :: rest
      /\ existsb is_write rest = false
      /\ (write_ec soc = 0%Z ->
          rest = events (GitRepoImpl.Callback this (handed_payload soc) s))).
  { intros soc s. destruct (write_ec soc =? 0)%Z eqn:E.
    - eexists. split; [reflexivity|]. split; [apply Hnw | reflexivity].
    - exists []. split; [reflexivity|]. split; [reflexivity|].
      intros Hw. rewrite Hw in E. discriminate. }
  destruct (Hshape soc1 s1) as (rest1 & E1 & N1 & W1).
  destruct (Hshape soc2 s2) as (rest2 & E2 & N2 & W2).
  rewrite E1, E2. split.
  - cbn [filter is_write]. rewrite !filter_none by assumption. reflexivity.
  - exists (Asio.string_literal acknowledgement), rest1, rest2. auto 10.
Qed.

(** *** The handlers under [io_context::run()] *)

Lemma prepend_nil {A} (r : run A) : prepend [] r = r.
Proof. destruct r; reflexivity. Qed.

Lemma on_accept_run a io s :
  WebhookEndpoint.on_accept a (Asio.accept_done io) s
  = Build_run (Return (accept_step (acceptor_is_open s) a io)) s [].
Proof.
  unfold WebhookEndpoint.on_accept, accept_step, bind, gets, ret; simpl.
  destruct (acceptor_is_open s); simpl; [|reflexivity].
  destruct (accept_ec a =? 0)%Z; reflexivity.
Qed.

Lemma serve_accept cb a rest io s :
  Asio.accept_pending io = true ->
  WebhookEndpoint.serve cb (Asio.accept_completes a :: rest) io s
  = WebhookEndpoint.serve cb rest (accept_step (acceptor_is_open s) a io) s.
Proof.
  intros Hp. unfold WebhookEndpoint.serve. cbn [Asio.io_context_run].
  rewrite Hp. rewrite (bind_run_Return _ _ _ _ _ _ (on_accept_run a io s)).
  apply prepend_nil.
Qed.

Lemma serve_accept_idle cb a rest io s :
  Asio.accept_pending io = false ->
  WebhookEndpoint.serve cb (Asio.accept_completes a :: rest) io s
  = WebhookEndpoint.serve cb rest io s.
Proof.
  intros Hp. unfold WebhookEndpoint.serve. cbn [Asio.io_context_run].
  rewrite Hp. reflexivity.
Qed.

Lemma serve_read cb n soc rest io s :
  nth_error (Asio.reads_pending io) n = Some soc ->
  WebhookEndpoint.serve cb (Asio.read_completes n :: rest) io s
  = bind (WebhookEndpoint.DoReadHeader cb soc)
         (fun _ => WebhookEndpoint.serve cb rest (Asio.read_done n io)) s.
Proof.
  intros Hn. unfold WebhookEndpoint.serve. cbn [Asio.io_context_run].
  rewrite Hn. reflexivity.
Qed.

Lemma serve_read_idle cb n rest io s :
  nth_error (Asio.reads_pending io) n = None ->
  WebhookEndpoint.serve cb (Asio.read_completes n :: rest) io s
  = WebhookEndpoint.serve cb rest io s.
Proof.
  intros Hn. unfold WebhookEndpoint.serve. cbn [Asio.io_context_run].
  rewrite Hn. reflexivity.
Qed.

End Endpoint.

(* ================================================================= *)
(** ** The root path *)

Section RootPath.
Context {G : LibGit2} {Obs : IGitRepoObserver}.

Lemma emits_modify P (f : state -> state) : emits P (modify f).
Proof. intros s; reflexivity. Qed.

Lemma carries_root_call p e :
  is_step_call e = true -> carries_root p e = true.
Proof.
  destruct e as [? ?|? ? ?|c status|? ? ?|? ? ?|?]; simpl; try congruence.
  destruct c; simpl; congruence.
Qed.

(** Every observer callback the handler makes is given the stored path. *)
Lemma Callback_carries_root this payload :
  emits (carries_root (root this)) (GitRepoImpl.Callback this payload).
Proof.
  unfold GitRepoImpl.Callback, spdlog.
  apply emits_bind; [now apply emits_emit|]. intros _.
  destruct (Std.is_npos _); [now apply emits_emit|].
  apply emits_try_catch; [|intros what; now apply emits_emit].
  apply emits_bind;
    [apply emits_git_step, git_step_Fetch; apply carries_root_call|].
  intros _.
  apply emits_bind;
    [apply emits_git_step, git_step_GetFilesDiff; apply carries_root_call|].
  intros diff.
  apply emits_bind;
    [apply emits_git_step, git_step_ResetToFetchHead; apply carries_root_call|].
  intros _.
  apply emits_bind; [now apply emits_emit|]. intros _.
  destruct (negb _ || negb _); [|apply emits_ret].
  apply emits_bind; [apply emits_gets|]. intros obss.
  induction obss as [|o obss IH]; [apply emits_ret|].
  cbn [GitRepoImpl.notify]. apply emits_bind; [|intros _; exact IH].
  unfold GitRepoImpl.invoke. apply emits_bind.
  - apply emits_emit. simpl. apply String.eqb_refl.
  - intros _. destruct (OnDiff o (root this) diff);
      [apply emits_throw | apply emits_ret].
Qed.

Lemma AddObserver_carries_root this obs :
  emits (carries_root (root this)) (GitRepoImpl.AddObserver this obs).
Proof.
  unfold GitRepoImpl.AddObserver.
  apply emits_bind; [apply emits_modify|]. intros _.
  apply emits_bind.
  - intros s. rewrite GetTrackedFiles_run. cbv zeta.
    destruct (error (git_repository_index (repo s)) >=? 0)%Z; reflexivity.
  - intros pv. destruct (negb (GitRepoImpl.empty pv)); [|apply emits_ret].
    unfold GitRepoImpl.invoke. apply emits_bind.
    + apply emits_emit. simpl. apply String.eqb_refl.
    + intros _. destruct (OnAdd obs (root this) pv);
        [apply emits_throw | apply emits_ret].
Qed.

Lemma emits_call {A} P c (f : repository -> git_result A) :
  (forall status, P (EvCall c status) = true) -> emits P (call c f).
Proof. intros HP s. unfold call; simpl. now rewrite HP. Qed.

Lemma emits_call_mut P c (f : repository -> git_result repository) :
  (forall status, P (EvCall c status) = true) -> emits P (call_mut c f).
Proof. intros HP s. unfold call_mut; simpl. now rewrite HP. Qed.

Lemma emits_try_rethrow {A} P (body : M A) (cleanup : M unit) :
  emits P body -> emits P cleanup -> emits P (try_rethrow body cleanup).
Proof.
  intros Hb Hc s. unfold try_rethrow. specialize (Hb s).
  destruct (result (body s)) as [a|e|]; simpl; try exact Hb.
  rewrite forallb_app, Hb. apply Hc.
Qed.

(** Every directory the constructor names, to the file system or to
    libgit2, is the stored path. *)
Lemma GitRepo_body_carries_root text this :
  emits (carries_root (root this)) (GitRepo_body text this).
Proof.
  unfold GitRepo_body.
  assert (Hstep : forall A (m : M A),
             git_step m -> emits (carries_root (root this)) m)
    by (intros A m; apply emits_git_step, carries_root_call).
  assert (Hrefl : String.eqb (root this) (root this) = true)
    by apply String.eqb_refl.
  apply emits_bind; [apply emits_gets|]. intros is_dir.
  apply emits_bind; [apply emits_emit; exact Hrefl|]. intros _.
  destruct (negb is_dir); [apply emits_throw|].
  apply emits_bind.
  { unfold GitRepoImpl.CheckIfRepoExists.
    apply emits_bind; [apply emits_call; intros st; exact Hrefl|].
    intros [error u]. apply emits_ret. }
  intros exists_. destruct (negb exists_).
  - apply emits_bind; [now apply emits_emit|]. intros _.
    unfold GitRepoImpl.Clone.
    apply emits_bind; [apply emits_call_mut; intros st; exact Hrefl|].
    intros error.
    apply emits_bind; [apply Hstep, git_step_Check|]. intros _.
    now apply emits_emit.
  - apply emits_bind; [now apply emits_emit|]. intros _.
    apply emits_bind; [apply emits_call_mut; intros st; exact Hrefl|].
    intros error.
    apply emits_bind; [apply Hstep, git_step_Check|]. intros _.
    apply emits_bind; [now apply emits_emit|]. intros _.
    apply emits_bind.
    { apply emits_try_rethrow; [|now apply emits_emit].
      apply emits_bind; [apply Hstep, git_step_Fetch|]. intros _.
      apply Hstep, git_step_ResetToFetchHead. }
    intros _. now apply emits_emit.
Qed.

(** What comes before the members emits nothing. *)
Lemma emits_base P listen (opts : Options) io :
  emits P (Json.to_number_unsigned_short (webhookPort opts))
  /\ forall port, emits P (WebhookEndpoint.ctor listen port io).
Proof.
  split.
  - unfold Json.to_number_unsigned_short.
    destruct (_ && _); [apply emits_ret | apply emits_throw].
  - intros port. unfold WebhookEndpoint.ctor.
    destruct (negb _); [apply emits_throw|].
    apply emits_bind; [apply emits_modify | intros _; apply emits_ret].
Qed.

Lemma GitRepo_ctor_carries_root text listen opts io this :
  GitRepo_init opts = Some this ->
  emits (carries_root (root this)) (GitRepo_ctor text listen opts io).
Proof.
  intros Hinit. unfold GitRepo_ctor. rewrite Hinit.
  apply emits_bind; [apply (emits_base _ listen opts io)|]. intros port.
  apply emits_bind; [apply (emits_base _ listen opts io)|]. intros io'.
  apply emits_try_rethrow; [|apply emits_modify].
  apply emits_bind; [apply GitRepo_body_carries_root|].
  intros _. apply emits_ret.
Qed.

(** C10: for every non-empty string, [NormalizeDirPath] returns the input
    followed by one more '/', whatever its last character is (the guard
    holds of every character), so the path a [GitRepo] stores, names to
    the file system and to libgit2 in its constructor, and hands to its
    observers, is the configured one with a '/' appended, doubled when
    the configured path already ends in a separator. *)
Theorem NormalizeDirPath_always_appends (str : string) :
  str <> ""%string ->
  NormalizeDirPath str = Some (str ++ "/")%string
  /\ (forall b : ascii,
        negb (Ascii.eqb b "/") || negb (Ascii.eqb b "\") = true)
  /\ NormalizeDirPath (str ++ "/")%string = Some (str ++ "//")%string
  /\ NormalizeDirPath (str ++ "\")%string = Some (str ++ "\/")%string
  /\ (forall opts : Options,
        Std.of_c_str (opt_path opts) = str ->
        exists g,
          GitRepo_init opts = Some g
          /\ root g = (str ++ "/")%string
          /\ (forall text listen io s,
                forallb (carries_root (str ++ "/")%string)
                        (events (GitRepo_ctor text listen opts io s)) = true)
          /\ (forall payload s,
                forallb (carries_root (str ++ "/")%string)
                        (events (GitRepoImpl.Callback g payload s)) = true)
          /\ (forall obs s,
                forallb (carries_root (str ++ "/")%string)
                        (events (GitRepoImpl.AddObserver g obs s)) = true)).
Proof.
  intros Hne.
  assert (Hall : forall s0, s0 <> ""%string ->
                   NormalizeDirPath s0 = Some (s0 ++ "/")%string).
  { intros s0 Hs. unfold NormalizeDirPath.
    destruct (back_nonempty s0 Hs) as [b Hb]. rewrite Hb.
    now rewrite NormalizeDirPath_guard. }
  split; [now apply Hall|].
  split; [exact NormalizeDirPath_guard|].
  split.
  { rewrite Hall by (destruct str; discriminate).
    now rewrite append_assoc. }
  split.
  { rewrite Hall by (destruct str; discriminate).
    now rewrite append_assoc. }
  intros opts Hp.
  destruct (GitRepo_init opts) as [g|] eqn:Eg;
    unfold GitRepo_init in Eg; rewrite Hp, (Hall str Hne) in Eg;
    [|discriminate].
  assert (Hroot : root g = (str ++ "/")%string)
    by (injection Eg as <-; reflexivity).
  exists g. split; [reflexivity|]. split; [exact Hroot|].
  rewrite <- Hroot. split; [|split].
  - intros text listen io s.
    apply (GitRepo_ctor_carries_root text listen opts io g).
    unfold GitRepo_init. rewrite Hp, (Hall str Hne), <- Eg. reflexivity.
  - intros payload s. exact (Callback_carries_root g payload s).
  - intros obs s. exact (AddObserver_carries_root g obs s).
Qed.

End RootPath.

(* ================================================================= *)
(** ** Failed cycles *)

Section FailedCycle.
Context {G : LibGit2} {Obs : IGitRepoObserver}.

(** C2, amended: when the fetch, the diff or the reset of a cycle
    throws, the handler logs the exception and returns: no reset has
    completed and no observer has been called, the observers are as
    before, and the next trigger is handled from the state the failed
    cycle left: a second call of the handler runs from it, and the
    [io_context] that delivered the failed trigger goes on with the
    completions that follow.  The mirror's HEAD is where it was when the
    cycle failed before [git_reset] was called (given that a fetch does
    not move HEAD).  When [git_reset] itself fails, nothing is undone:
    it was called on a mirror whose HEAD had not moved, and the mirror is
    left as that failed call left it. *)
Theorem failed_cycle_aborts this payload s e s' evs :
  substring_of (token this) payload ->
  cycle_fails this s e s' evs ->
  exists what,
    e = std_exception what
    /\ GitRepoImpl.Callback this payload s =
       Build_run (Return tt) s'
         (EvLog spdlog_info GIT_REPO_WEBHOOK_TRIGGERED [root this]
          :: evs ++ [EvLog spdlog_error GIT_REPO_UPDATE_EXCEPT [what]])
    /\ existsb is_reset_done
         (events (GitRepoImpl.Callback this payload s)) = false
    /\ existsb is_OnDiff
         (events (GitRepoImpl.Callback this payload s)) = false
    /\ observers s' = observers s
    /\ (fetch_leaves_head ->
        (existsb is_reset_call evs = false ->
         mirror_head (repo s') = mirror_head (repo s))
        /\ (existsb is_reset_call evs = true ->
            exists r,
              mirror_head r = mirror_head (repo s)
              /\ (error (git_reset r (fetched_commit r) GIT_RESET_HARD)
                  < 0)%Z
              /\ repo s'
                 = value (git_reset r (fetched_commit r) GIT_RESET_HARD)))
    /\ (forall payload',
          (GitRepoImpl.Callback this payload ;;
           GitRepoImpl.Callback this payload') s =
          prepend (events (GitRepoImpl.Callback this payload s))
                  (GitRepoImpl.Callback this payload' s'))
    /\ (forall n soc rest io,
          nth_error (Asio.reads_pending io) n = Some soc ->
          read_ec soc = 0%Z -> write_ec soc = 0%Z ->
          handed_payload soc = payload ->
          acceptor_is_open s' = acceptor_is_open s
          /\ WebhookEndpoint.serve (GitRepoImpl.Callback this)
               (Asio.read_completes n :: rest) io s =
             prepend
               (EvWrite (Asio.string_literal acknowledgement)
                :: events (GitRepoImpl.Callback this payload s))
               (WebhookEndpoint.serve (GitRepoImpl.Callback this)
                  rest (Asio.read_done n io) s')).
Proof.
  intros Hsub Hfail.
  assert (Hcore : exists what,
    e = std_exception what
    /\ GitRepoImpl.Callback this payload s =
       Build_run (Return tt) s'
         (EvLog spdlog_info GIT_REPO_WEBHOOK_TRIGGERED [root this]
          :: evs ++ [EvLog spdlog_error GIT_REPO_UPDATE_EXCEPT [what]])
    /\ existsb is_reset_done evs = false
    /\ forallb is_call evs = true
    /\ observers s' = observers s
    /\ acceptor_is_open s' = acceptor_is_open s
    /\ (fetch_leaves_head ->
        (existsb is_reset_call evs = false ->
         mirror_head (repo s') = mirror_head (repo s))
        /\ (existsb is_reset_call evs = true ->
            exists r,
              mirror_head r = mirror_head (repo s)
              /\ (error (git_reset r (fetched_commit r) GIT_RESET_HARD)
                  < 0)%Z
              /\ repo s'
                 = value (git_reset r (fetched_commit r) GIT_RESET_HARD)))).
  { rewrite (Callback_authorised this payload s Hsub).
    destruct Hfail as
      [e s1 ev1 Hf
      | e s1 ev1 s2 ev2 Hf Hd
      | e s1 ev1 diff s2 ev2 s3 ev3 Hf Hd Hr].
    - destruct (Throw_is_std _ _ _ _ _ (git_step_Fetch this) Hf) as [what ->].
      exists what. split; [reflexivity|].
      rewrite (try_catch_bind_Throw _ _ _ _ _ _ _ Hf).
      destruct (step_events _ _ _ _ _ (git_step_Fetch this) Hf) as [Hc Ho].
      pose proof (step_acceptor _ _ _ _ _ (git_step_Fetch this) Hf) as Ha.
      pose proof (proj1 (Fetch_frame this s)) as Hnr.
      pose proof (Fetch_leaves_head this s) as Hh.
      rewrite Hf in Hnr, Hh. simpl in Hnr, Hh.
      split; [reflexivity|].
      split; [exact (existsb_weaken _ _ _ reset_done_is_call Hnr)|].
      split; [exact Hc|]. split; [exact Ho|]. split; [exact Ha|].
      intros HC. split; [intros _; exact (Hh HC)|].
      rewrite Hnr. discriminate.
    - destruct (Throw_is_std _ _ _ _ _ git_step_GetFilesDiff Hd) as [what ->].
      exists what. split; [reflexivity|].
      rewrite (try_catch_bind_Return _ _ _ _ _ _ _ Hf).
      rewrite (try_catch_bind_Throw _ _ _ _ _ _ _ Hd).
      destruct (step_events _ _ _ _ _ (git_step_Fetch this) Hf) as [Hc Ho].
      destruct (step_events _ _ _ _ _ git_step_GetFilesDiff Hd) as [Hc' Ho'].
      pose proof (step_acceptor _ _ _ _ _ (git_step_Fetch this) Hf) as Ha.
      pose proof (step_acceptor _ _ _ _ _ git_step_GetFilesDiff Hd) as Ha'.
      pose proof (proj1 (Fetch_frame this s)) as Hnr.
      pose proof (Fetch_leaves_head this s) as Hh.
      rewrite Hf in Hnr, Hh.
      destruct (GetFilesDiff_frame s1) as [Hrepo Hnr']. rewrite Hd in Hrepo, Hnr'.
      simpl in Hnr, Hh, Hrepo, Hnr'.
      unfold prepend; simpl. rewrite <- app_assoc.
      split; [reflexivity|]. split.
      { rewrite existsb_app.
        rewrite (existsb_weaken _ _ _ reset_done_is_call Hnr).
        rewrite (existsb_weaken _ _ _ reset_done_is_call Hnr').
        reflexivity. }
      split; [rewrite forallb_app, Hc, Hc'; reflexivity|].
      split; [congruence|]. split; [congruence|].
      intros HC. rewrite existsb_app, Hnr, Hnr'.
      split; [intros _; rewrite Hrepo; exact (Hh HC) | discriminate].
    - destruct (Throw_is_std _ _ _ _ _ git_step_ResetToFetchHead Hr)
        as [what ->].
      exists what. split; [reflexivity|].
      rewrite (try_catch_bind_Return _ _ _ _ _ _ _ Hf).
      rewrite (try_catch_bind_Return _ _ _ _ _ _ _ Hd).
      rewrite (try_catch_bind_Throw _ _ _ _ _ _ _ Hr).
      destruct (step_events _ _ _ _ _ (git_step_Fetch this) Hf) as [Hc Ho].
      destruct (step_events _ _ _ _ _ git_step_GetFilesDiff Hd) as [Hc' Ho'].
      destruct (step_events _ _ _ _ _ git_step_ResetToFetchHead Hr)
        as [Hc'' Ho''].
      pose proof (step_acceptor _ _ _ _ _ (git_step_Fetch this) Hf) as Ha.
      pose proof (step_acceptor _ _ _ _ _ git_step_GetFilesDiff Hd) as Ha'.
      pose proof (step_acceptor _ _ _ _ _ git_step_ResetToFetchHead Hr)
        as Ha''.
      pose proof (proj1 (Fetch_frame this s)) as Hnr.
      pose proof (Fetch_leaves_head this s) as Hh.
      rewrite Hf in Hnr, Hh.
      destruct (GetFilesDiff_frame s1) as [Hrepo Hnr']. rewrite Hd in Hrepo, Hnr'.
      destruct (ResetToFetchHead_Throw _ _ _ _ Hr) as (Hnd & Hkeep & Hleft).
      simpl in Hnr, Hh, Hrepo, Hnr'.
      unfold prepend; simpl. rewrite <- !app_assoc.
      split; [reflexivity|]. split.
      { rewrite !existsb_app.
        rewrite (existsb_weaken _ _ _ reset_done_is_call Hnr).
        rewrite (existsb_weaken _ _ _ reset_done_is_call Hnr').
        rewrite Hnd. reflexivity. }
      split; [rewrite !forallb_app, Hc, Hc', Hc''; reflexivity|].
      split; [congruence|]. split; [congruence|].
      intros HC. rewrite !existsb_app, Hnr, Hnr'. cbn [orb].
      split.
      + intros Hno. rewrite (Hkeep Hno), Hrepo. exact (Hh HC).
      + intros Hyes. exists (repo s2).
        split; [rewrite Hrepo; exact (Hh HC)|]. exact (Hleft Hyes). }
  destruct Hcore as (what & He & Hrun & Hnd & Hcalls & Hobs & Hopen & Hhead).
  exists what. rewrite Hrun. cbn [events].
  split; [exact He|]. split; [reflexivity|].
  split.
  { cbn [existsb is_reset_done]. rewrite existsb_app, Hnd. reflexivity. }
  split.
  { cbn [existsb is_OnDiff]. rewrite existsb_app.
    rewrite (calls_exclude is_OnDiff evs); [reflexivity| |exact Hcalls].
    intros [] ?; simpl in *; congruence. }
  split; [exact Hobs|]. split; [exact Hhead|]. split.
  { intros payload'.
    exact (bind_run_Return _ (fun _ => GitRepoImpl.Callback this payload')
             _ _ _ _ Hrun). }
  intros n soc rest io Hn Hrd Hwr Hpay.
  split; [exact Hopen|].
  rewrite (serve_read _ n soc rest io s Hn).
  assert (Hdo :
    WebhookEndpoint.DoReadHeader (GitRepoImpl.Callback this) soc s =
    Build_run (Return tt) s'
      (EvWrite (Asio.string_literal acknowledgement)
       :: EvLog spdlog_info GIT_REPO_WEBHOOK_TRIGGERED [root this]
       :: evs ++ [EvLog spdlog_error GIT_REPO_UPDATE_EXCEPT [what]])).
  { rewrite DoReadHeader_run by exact Hrd. rewrite Hwr. cbn [Z.eqb].
    rewrite Hpay, Hrun. reflexivity. }
  rewrite (bind_run_Return _ _ _ _ _ _ Hdo).
  reflexivity.
Qed.

End FailedCycle.

(* ================================================================= *)
(** ** The properties at work on the small git *)

(** The small git moves HEAD only by a reset that succeeds. *)
Lemma Toy_head_moves_only_by_reset :
  head_moves_only_by_reset (G := Toy.libgit2).
Proof.
  split.
  - intros r rem cred. unfold mirror_head. simpl.
    unfold Toy.remote_fetch. destruct (Toy.origin r); reflexivity.
  - intros r c t. simpl. unfold Toy.reset.
    destruct (Toy.checkout_fails r); simpl; [reflexivity | lia].
Qed.

Lemma Callback_rejects_payload_without_token_witness :
  ~ substring_of (token Toy.gitrepo) "GET /nope HTTP/1.1"
  /\ GitRepoImpl.Callback (Obs := Toy.quiet) Toy.gitrepo "GET /nope HTTP/1.1"
       (Toy.start Toy.mirror [1; 2])
     = Build_run (Return tt) (Toy.start Toy.mirror [1; 2])
         [EvLog spdlog_info GIT_REPO_WEBHOOK_TRIGGERED ["sync/"%string];
          EvLog spdlog_error GIT_REPO_WEBHOOK_NO_TOKEN []].
Proof.
  assert (H : ~ substring_of (token Toy.gitrepo) "GET /nope HTTP/1.1")
    by (apply find_npos; reflexivity).
  split; [exact H|].
  exact (proj1 (Callback_rejects_payload_without_token
                  (Obs := Toy.quiet) Toy.gitrepo "GET /nope HTTP/1.1"
                  (Toy.start Toy.mirror [1; 2]) H)).
Defined.

Lemma failed_cycle_aborts_witness :
  GitRepoImpl.Callback (Obs := Toy.quiet) Toy.gitrepo "GET /s3cret HTTP/1.1"
    (Toy.start Toy.offline [1; 2])
  = Build_run (Return tt)
      (set_giterr "failed to resolve address" (Toy.start Toy.offline [1; 2]))
      [EvLog spdlog_info GIT_REPO_WEBHOOK_TRIGGERED ["sync/"%string];
       EvCall (call_remote_lookup "origin") 0;
       EvCall call_remote_fetch (-1);
       EvLog spdlog_error GIT_REPO_UPDATE_EXCEPT
         ["failed to resolve address"%string]]
  /\ mirror_head (G := Toy.libgit2)
       (repo (set_giterr "failed to resolve address"
                         (Toy.start Toy.offline [1; 2])))
     = mirror_head (G := Toy.libgit2) (repo (Toy.start Toy.offline [1; 2])).
Proof.
  assert (Hsub : substring_of (token Toy.gitrepo) "GET /s3cret HTTP/1.1")
    by (exists "GET /"%string, " HTTP/1.1"%string; reflexivity).
  assert (Hfail :
    cycle_fails (G := Toy.libgit2) Toy.gitrepo (Toy.start Toy.offline [1; 2])
      (runtime_error "failed to resolve address")
      (set_giterr "failed to resolve address" (Toy.start Toy.offline [1; 2]))
      [EvCall (call_remote_lookup "origin") 0; EvCall call_remote_fetch (-1)])
    by (apply fails_in_fetch; reflexivity).
  destruct (failed_cycle_aborts (Obs := Toy.quiet) Toy.gitrepo
              "GET /s3cret HTTP/1.1" _ _ _ _ Hsub Hfail)
    as (what & He & Hrun & _ & _ & _ & Hhead & _).
  injection He as <-.
  split; [exact Hrun|].
  exact (proj1 (Hhead (fetch_keeps_head Toy_head_moves_only_by_reset))
               eq_refl).
Defined.

(** With a [git_reset] that fails after it has moved HEAD, the cycle
    fails in the reset, the handler returns, and the mirror's HEAD is at
    R2 where it was at R1. *)
Lemma failed_reset_leaves_head_moved :
  cycle_fails (G := torn) Toy.gitrepo (torn_start Toy.mirror [1; 2])
    (runtime_error "could not write index")
    (set_giterr "could not write index" (torn_start Toy.synced [1; 2]))
    ([EvCall (call_remote_lookup "origin") 0; EvCall call_remote_fetch 0]
     ++ [EvCall (call_revparse_single "HEAD") 0;
         EvCall (call_revparse_single "FETCH_HEAD") 0;
         EvCall call_object_peel 0; EvCall call_object_peel 0;
         EvCall call_diff_tree_to_tree 0; EvCall call_diff_foreach 0]
     ++ [EvCall (call_reference_name_to_id "FETCH_HEAD") 0;
         EvCall call_commit_lookup 0; EvCall call_reset (-1)])
  /\ result (GitRepoImpl.Callback (G := torn) (Obs := Toy.quiet) Toy.gitrepo
               "GET /s3cret HTTP/1.1" (torn_start Toy.mirror [1; 2]))
     = Return tt
  /\ mirror_head (G := torn) (repo (torn_start Toy.mirror [1; 2]))
     = (0%Z, Toy.R1)
  /\ mirror_head (G := torn)
       (repo (final (GitRepoImpl.Callback (G := torn) (Obs := Toy.quiet)
                       Toy.gitrepo "GET /s3cret HTTP/1.1"
                       (torn_start Toy.mirror [1; 2]))))
     = (0%Z, Toy.R2).
Proof.
  split; [|repeat split].
  apply (fails_in_reset (G := torn) Toy.gitrepo _ _
           (torn_start Toy.fetched [1; 2]) _
           {| removed := ["a.txt"%string]; added := ["c.txt"%string] |}
           (torn_start Toy.fetched [1; 2]));
    reflexivity.
Qed.

Lemma Toy_cycle_succeeds (obss : list observer) :
  cycle_succeeds (G := Toy.libgit2) Toy.gitrepo (Toy.start Toy.mirror obss)
    {| removed := ["a.txt"%string]; added := ["c.txt"%string] |}
    (Toy.start Toy.fetched obss) (Toy.start Toy.fetched obss)
    (Toy.start Toy.synced obss)
    [EvCall (call_remote_lookup "origin") 0; EvCall call_remote_fetch 0]
    [EvCall (call_revparse_single "HEAD") 0;
     EvCall (call_revparse_single "FETCH_HEAD") 0;
     EvCall call_object_peel 0; EvCall call_object_peel 0;
     EvCall call_diff_tree_to_tree 0; EvCall call_diff_foreach 0]
    [EvCall (call_reference_name_to_id "FETCH_HEAD") 0;
     EvCall call_commit_lookup 0; EvCall call_reset 0].
Proof. split; reflexivity. Defined.

Lemma diff_classifies_changed_blobs_witness :
  exists diff,
    result (GitRepoImpl.GetFilesDiff (G := Toy.libgit2)
              (Toy.start Toy.fetched [])) = Return diff
    /\ removed diff = ["a.txt"%string]
    /\ added diff = ["c.txt"%string].
Proof.
  destruct (diff_classifies_changed_blobs (G := Toy.libgit2)
              (Toy.start Toy.fetched [])
              {| removed := ["a.txt"%string]; added := ["c.txt"%string] |}
              (Toy.start Toy.fetched [])
              [EvCall (call_revparse_single "HEAD") 0;
               EvCall (call_revparse_single "FETCH_HEAD") 0;
               EvCall call_object_peel 0; EvCall call_object_peel 0;
               EvCall call_diff_tree_to_tree 0; EvCall call_diff_foreach 0]
              eq_refl) as (Hr & Ha & _).
  eexists. split; [reflexivity|]. split; [exact Hr | exact Ha].
Defined.

Lemma successful_cycle_notifies_witness :
  filter is_OnDiff
    (events (GitRepoImpl.Callback (Obs := Toy.quiet) Toy.gitrepo
               "GET /s3cret HTTP/1.1" (Toy.start Toy.mirror [1; 2])))
  = [EvOnDiff 1 "sync/"
       {| removed := ["a.txt"%string]; added := ["c.txt"%string] |};
     EvOnDiff 2 "sync/"
       {| removed := ["a.txt"%string]; added := ["c.txt"%string] |}].
Proof.
  assert (Hsub : substring_of (token Toy.gitrepo) "GET /s3cret HTTP/1.1")
    by (exists "GET /"%string, " HTTP/1.1"%string; reflexivity).
  destruct (successful_cycle_notifies (Obs := Toy.quiet) Toy.gitrepo
              "GET /s3cret HTTP/1.1" _ _ _ _ _ _ _ _ Hsub
              (Toy_cycle_succeeds [1; 2]))
    as (Hsome & _).
  destruct Hsome as [_ Hquiet]; [left; discriminate|].
  destruct (Hquiet (fun _ _ => eq_refl)) as (_ & Hfilter & _).
  exact Hfilter.
Defined.

(** An observer that raises ends the notification loop: the observers
    after it are not called, and the handler logs the exception. *)
Example raising_observer_ends_notification :
  GitRepoImpl.Callback (Obs := Toy.raising) Toy.gitrepo
    "GET /s3cret HTTP/1.1" (Toy.start Toy.mirror [1; 2])
  = Build_run (Return tt) (Toy.start Toy.synced [1; 2])
      [EvLog spdlog_info GIT_REPO_WEBHOOK_TRIGGERED ["sync/"%string];
       EvCall (call_remote_lookup "origin") 0; EvCall call_remote_fetch 0;
       EvCall (call_revparse_single "HEAD") 0;
       EvCall (call_revparse_single "FETCH_HEAD") 0;
       EvCall call_object_peel 0; EvCall call_object_peel 0;
       EvCall call_diff_tree_to_tree 0; EvCall call_diff_foreach 0;
       EvCall (call_reference_name_to_id "FETCH_HEAD") 0;
       EvCall call_commit_lookup 0; EvCall call_reset 0;
       EvLog spdlog_info GIT_REPO_FINISHED_UPDATING [];
       EvOnDiff 1 "sync/"
         {| removed := ["a.txt"%string]; added := ["c.txt"%string] |};
       EvLog spdlog_error GIT_REPO_UPDATE_EXCEPT ["cannot load"%string]].
Proof. reflexivity. Qed.

(** In a cycle whose fetch, diff and reset return and whose diff is not
    empty, the registered observer 2 receives no [OnDiff] when observer 1
    throws from its own. *)
Lemma raising_observer_starves_the_next :
  cycle_succeeds (G := Toy.libgit2) Toy.gitrepo (Toy.start Toy.mirror [1; 2])
    {| removed := ["a.txt"%string]; added := ["c.txt"%string] |}
    (Toy.start Toy.fetched [1; 2]) (Toy.start Toy.fetched [1; 2])
    (Toy.start Toy.synced [1; 2])
    [EvCall (call_remote_lookup "origin") 0; EvCall call_remote_fetch 0]
    [EvCall (call_revparse_single "HEAD") 0;
     EvCall (call_revparse_single "FETCH_HEAD") 0;
     EvCall call_object_peel 0; EvCall call_object_peel 0;
     EvCall call_diff_tree_to_tree 0; EvCall call_diff_foreach 0]
    [EvCall (call_reference_name_to_id "FETCH_HEAD") 0;
     EvCall call_commit_lookup 0; EvCall call_reset 0]
  /\ observers (Toy.start Toy.mirror [1; 2]) = [1; 2]
  /\ length
       (filter (is_OnDiff_to 2)
          (events (GitRepoImpl.Callback (Obs := Toy.raising) Toy.gitrepo
                     "GET /s3cret HTTP/1.1" (Toy.start Toy.mirror [1; 2]))))
     = 0.
Proof.
  split; [exact (Toy_cycle_succeeds [1; 2])|]. split; reflexivity.
Qed.

Lemma reset_follows_diff_witness :
  repo (Toy.start Toy.synced [1; 2])
  = value (@git_reset Toy.libgit2 Toy.fetched
             (fetched_commit (G := Toy.libgit2) Toy.fetched) GIT_RESET_HARD)
  /\ mirror_head (G := Toy.libgit2) Toy.fetched
     = mirror_head (G := Toy.libgit2) Toy.mirror.
Proof.
  assert (Hsub : substring_of (token Toy.gitrepo) "GET /s3cret HTTP/1.1")
    by (exists "GET /"%string, " HTTP/1.1"%string; reflexivity).
  destruct (reset_follows_diff (Obs := Toy.quiet) Toy.gitrepo
              "GET /s3cret HTTP/1.1" _ _ _ _ _ _ _ _ Hsub
              (Toy_cycle_succeeds [1; 2]))
    as (_ & Hhead & _ & Hrepo & _).
  split; [exact Hrepo | exact (Hhead Toy_head_moves_only_by_reset)].
Defined.

Lemma acknowledgement_write_has_18_bytes_witness :
  exists rest,
    events (WebhookEndpoint.DoReadHeader (G := Toy.libgit2)
              WebhookEndpoint.Callback
              {| read_ec := 0; incoming := "GET / HTTP/1.0"; write_ec := 0 |}
              (Toy.start Toy.mirror []))
    = EvWrite (acknowledgement ++ String Ascii.zero EmptyString)%string
      :: rest.
Proof.
  destruct (acknowledgement_write_has_18_bytes (G := Toy.libgit2)
              WebhookEndpoint.Callback
              {| read_ec := 0; incoming := "GET / HTTP/1.0"; write_ec := 0 |}
              (Toy.start Toy.mirror []) eq_refl) as (rest & Hev & _).
  exists rest. exact Hev.
Defined.

Lemma response_independent_of_payload_witness :
  filter is_write
    (events (WebhookEndpoint.DoReadHeader
               (GitRepoImpl.Callback (Obs := Toy.quiet) Toy.gitrepo)
               {| read_ec := 0; incoming := "GET /s3cret HTTP/1.1";
                  write_ec := 0 |}
               (Toy.start Toy.mirror [1])))
  = filter is_write
      (events (WebhookEndpoint.DoReadHeader
                 (GitRepoImpl.Callback (Obs := Toy.quiet) Toy.gitrepo)
                 {| read_ec := 0; incoming := "GET /guess HTTP/1.1";
                    write_ec := 0 |}
                 (Toy.start Toy.mirror [1]))).
Proof.
  exact (proj1 (response_independent_of_payload (Obs := Toy.quiet)
                  Toy.gitrepo
                  {| read_ec := 0; incoming := "GET /s3cret HTTP/1.1";
                     write_ec := 0 |}
                  {| read_ec := 0; incoming := "GET /guess HTTP/1.1";
                     write_ec := 0 |}
                  (Toy.start Toy.mirror [1]) (Toy.start Toy.mirror [1])
                  eq_refl eq_refl)).
Defined.

Lemma AddObserver_registers_and_reports_witness :
  (error (@git_repository_index Toy.libgit2 Toy.mirror) >= 0)%Z
  /\ events (GitRepoImpl.AddObserver (Obs := Toy.quiet) Toy.gitrepo 7
               (Toy.start Toy.mirror [1; 2]))
     = [EvCall call_repository_index 0;
        EvOnAdd 7 "sync/" ["a.txt"%string; "b.txt"%string]]
  /\ observers (final (GitRepoImpl.AddObserver (Obs := Toy.quiet)
                         Toy.gitrepo 7 (Toy.start Toy.mirror [1; 2])))
     = [1; 2; 7].
Proof.
  assert (Hok : (error (@git_repository_index Toy.libgit2
                          (repo (Toy.start Toy.mirror [1%nat; 2%nat])))
                 >= 0)%Z)
    by (simpl; lia).
  destruct (AddObserver_registers_and_reports (Obs := Toy.quiet)
              Toy.gitrepo 7 (Toy.start Toy.mirror [1; 2]) Hok)
    as (Hobs & _ & Hsome & _).
  split; [exact Hok|]. split; [|exact Hobs].
  apply Hsome. discriminate.
Defined.

Lemma NormalizeDirPath_always_appends_witness :
  "repo/"%string <> ""%string
  /\ NormalizeDirPath "repo/" = Some "repo//"%string.
Proof.
  assert (H : "repo/"%string <> ""%string) by discriminate.
  split; [exact H|].
  exact (proj1 (NormalizeDirPath_always_appends (G := Toy.libgit2)
                  (Obs := Toy.quiet) "repo/" H)).
Defined.

(* ================================================================= *)
(** * Further properties of the sources *)

(** ** The helpers of [libgit2.hpp] and the steps built on them *)

Section CheckedCalls.
Context {G : LibGit2} {Obs : IGitRepoObserver}.

(** X1: an object obtained through [MakeUnique] or [Peel] comes from a
    call whose status was not negative (zero and positive statuses both
    count as success); a negative status becomes a [std::runtime_error]
    that carries the message of that very call.  Either way the state is
    untouched but for libgit2's last error, and the call is the only
    event. *)
Theorem checked_call_returns_or_throws {A} c
    (f : repository -> git_result A) (objPtr : git_object) s :
  Git.MakeUnique (call c f) s =
    (if (error (f (repo s)) >=? 0)%Z
     then Build_run (Return (value (f (repo s)))) s
            [EvCall c (error (f (repo s)))]
     else Build_run (Throw (runtime_error (message (f (repo s)))))
            (set_giterr (message (f (repo s))) s)
            [EvCall c (error (f (repo s)))])
  /\ Git.Peel objPtr s =
     (if (error (git_object_peel objPtr GIT_OBJ_TREE) >=? 0)%Z
      then Build_run (Return (value (git_object_peel objPtr GIT_OBJ_TREE))) s
             [EvCall call_object_peel
                     (error (git_object_peel objPtr GIT_OBJ_TREE))]
      else Build_run
             (Throw (runtime_error
                       (message (git_object_peel objPtr GIT_OBJ_TREE))))
             (set_giterr (message (git_object_peel objPtr GIT_OBJ_TREE)) s)
             [EvCall call_object_peel
                     (error (git_object_peel objPtr GIT_OBJ_TREE))])
  /\ (forall error : Z,
        (0 <= error)%Z -> Git.Check error s = Build_run (Return tt) s [])
  /\ (forall error : Z,
        (error < 0)%Z ->
        Git.Check error s = Build_run (Throw (runtime_error (giterr s))) s []).
Proof.
  split; [|split; [|split]].
  - unfold Git.MakeUnique, bind, call, Git.Check, ret; simpl.
    destruct (status_tests (error (f (repo s)))) as [[-> ->] | [-> ->]];
      reflexivity.
  - unfold Git.Peel, bind, call, Git.Check, ret; simpl.
    destruct (status_tests (error (git_object_peel objPtr GIT_OBJ_TREE)))
      as [[-> ->] | [-> ->]]; reflexivity.
  - intros error Hle. unfold Git.Check.
    replace (error >=? 0)%Z with true
      by (symmetry; apply Z.geb_le; exact Hle).
    reflexivity.
  - intros error Hlt. unfold Git.Check.
    replace (error >=? 0)%Z with false
      by (symmetry; rewrite Z.geb_leb; apply Z.leb_gt; exact Hlt).
    reflexivity.
Qed.

(** X2: [Fetch] asks for the remote "origin" first and fetches only when
    that lookup succeeded; it fetches with the configured credentials;
    afterwards the repository is what [git_remote_fetch] left, also when
    the fetch failed; it returns exactly when the fetch status is not
    negative, and it never calls [git_reset]. *)
Theorem Fetch_needs_origin this s :
  let l := git_remote_lookup (repo s) "origin" in
  let f := git_remote_fetch (repo s) (value l) (credPtr this) in
  ((error l < 0)%Z ->
   GitRepoImpl.Fetch this s =
   Build_run (Throw (runtime_error (message l))) (set_giterr (message l) s)
     [EvCall (call_remote_lookup "origin") (error l)])
  /\ ((0 <= error l)%Z ->
      repo (final (GitRepoImpl.Fetch this s)) = value f
      /\ events (GitRepoImpl.Fetch this s)
         = [EvCall (call_remote_lookup "origin") (error l);
            EvCall call_remote_fetch (error f)]
      /\ ((0 <= error f)%Z -> result (GitRepoImpl.Fetch this s) = Return tt)
      /\ ((error f < 0)%Z ->
          result (GitRepoImpl.Fetch this s)
          = Throw (runtime_error (message f))))
  /\ existsb is_reset_call (events (GitRepoImpl.Fetch this s)) = false.
Proof.
  cbv zeta. split; [|split].
  - intros Hl. rewrite Fetch_run. cbv zeta.
    replace (error (git_remote_lookup (repo s) "origin") >=? 0)%Z with false
      by (symmetry; rewrite Z.geb_leb; apply Z.leb_gt; exact Hl).
    reflexivity.
  - intros Hl. rewrite Fetch_run. cbv zeta.
    replace (error (git_remote_lookup (repo s) "origin") >=? 0)%Z with true
      by (symmetry; apply Z.geb_le; exact Hl).
    destruct (error (git_remote_fetch (repo s) _ _) >=? 0)%Z eqn:Hf;
      cbn [repo final events result set_repo set_giterr].
    + repeat split; try reflexivity. intros Hneg.
      apply Z.geb_le in Hf. lia.
    + repeat split; try reflexivity. intros Hpos.
      rewrite Z.geb_leb in Hf. apply Z.leb_gt in Hf. lia.
  - exact (proj1 (Fetch_frame this s)).
Qed.

(** X3: [ResetToFetchHead] calls [git_reset] only after FETCH_HEAD has
    been resolved and its commit found, and then on that commit; when
    either lookup fails it throws with the repository untouched and no
    reset attempted; it returns exactly when the reset status is not
    negative. *)
Theorem ResetToFetchHead_needs_commit s :
  let i := git_reference_name_to_id (repo s) "FETCH_HEAD" in
  let c := git_commit_lookup (repo s) (value i) in
  let r := git_reset (repo s) (fetched_commit (repo s)) GIT_RESET_HARD in
  ((error i < 0)%Z \/ (error c < 0)%Z ->
   repo (final (GitRepoImpl.ResetToFetchHead s)) = repo s
   /\ existsb is_reset_call (events (GitRepoImpl.ResetToFetchHead s)) = false
   /\ exists what,
        result (GitRepoImpl.ResetToFetchHead s) = Throw (runtime_error what))
  /\ ((0 <= error i)%Z -> (0 <= error c)%Z ->
      repo (final (GitRepoImpl.ResetToFetchHead s)) = value r
      /\ events (GitRepoImpl.ResetToFetchHead s)
         = [EvCall (call_reference_name_to_id "FETCH_HEAD") (error i);
            EvCall call_commit_lookup (error c);
            EvCall call_reset (error r)]
      /\ ((0 <= error r)%Z ->
          result (GitRepoImpl.ResetToFetchHead s) = Return tt)
      /\ ((error r < 0)%Z ->
          result (GitRepoImpl.ResetToFetchHead s)
          = Throw (runtime_error (message r)))).
Proof.
  cbv zeta. unfold fetched_commit. rewrite ResetToFetchHead_run. cbv zeta.
  destruct (status_tests
              (error (git_reference_name_to_id (repo s) "FETCH_HEAD")))
    as [[Hi Hi'] | [Hi Hi']]; rewrite Hi.
  - destruct (status_tests
                (error (git_commit_lookup (repo s)
                          (value (git_reference_name_to_id (repo s)
                                    "FETCH_HEAD")))))
      as [[Hc Hc'] | [Hc Hc']]; rewrite Hc.
    + apply Z.geb_le in Hi, Hc. split; [intros [H|H]; lia|].
      intros _ _.
      destruct (error (git_reset (repo s) _ _) >=? 0)%Z eqn:Hr;
        cbn [repo final events result set_repo set_giterr].
      * repeat split; try reflexivity. intros Hneg.
        apply Z.geb_le in Hr. lia.
      * repeat split; try reflexivity. intros Hpos.
        rewrite Z.geb_leb in Hr. apply Z.leb_gt in Hr. lia.
    + split.
      * intros _. cbn [repo final events result set_giterr].
        repeat split. eexists; reflexivity.
      * intros _ Hpos. rewrite Z.geb_leb in Hc. apply Z.leb_gt in Hc. lia.
  - split.
    + intros _. cbn [repo final events result set_giterr].
      repeat split. eexists; reflexivity.
    + intros Hpos. rewrite Z.geb_leb in Hi. apply Z.leb_gt in Hi. lia.
Qed.

End CheckedCalls.

(** ** The diff and the notifications *)

Section DiffAndNotify.
Context {G : LibGit2} {Obs : IGitRepoObserver}.

(** Every delta contributes one or two paths, at most one to each list. *)
Lemma contribution_size (d : git_diff_delta) :
  length (removed (contribution d)) <= 1
  /\ length (added (contribution d)) <= 1
  /\ 1 <= length (removed (contribution d)) + length (added (contribution d)).
Proof.
  unfold contribution, GitRepoImpl.FileCb.
  destruct (git_oid_iszero (id (old_file d)) =? 1)%Z;
    [|destruct (git_oid_iszero (id (new_file d)) =? 1)%Z]; simpl; lia.
Qed.

Lemma contributions_size (ds : git_diff) :
  length (flat_map (fun d => removed (contribution d)) ds) <= length ds
  /\ length (flat_map (fun d => added (contribution d)) ds) <= length ds
  /\ length ds
     <= length (flat_map (fun d => removed (contribution d)) ds)
        + length (flat_map (fun d => added (contribution d)) ds).
Proof.
  induction ds as [|d ds IH]; simpl; [lia|].
  rewrite !length_app. pose proof (contribution_size d). lia.
Qed.

Lemma GetFilesDiff_lists s diff s2 ev2 :
  GitRepoImpl.GetFilesDiff s = Build_run (Return diff) s2 ev2 ->
  removed diff = flat_map (fun d => removed (contribution d)) (deltas (repo s))
  /\ added diff = flat_map (fun d => added (contribution d)) (deltas (repo s)).
Proof.
  intros H. destruct (GetFilesDiff_Return _ _ _ _ H) as (Hdiff & _).
  rewrite git_diff_foreach_FileCb in Hdiff. simpl in Hdiff. subst diff.
  split; reflexivity.
Qed.

Lemma diff_empty_iff s diff s2 ev2 :
  GitRepoImpl.GetFilesDiff s = Build_run (Return diff) s2 ev2 ->
  (removed diff = [] /\ added diff = []) <-> deltas (repo s) = [].
Proof.
  intros H. destruct (GetFilesDiff_lists _ _ _ _ H) as [Hr Ha].
  pose proof (contributions_size (deltas (repo s))) as (_ & _ & Hlow).
  rewrite <- Hr, <- Ha in Hlow. split.
  - intros [Er Ea]. rewrite Er, Ea in Hlow. simpl in Hlow.
    destruct (deltas (repo s)); [reflexivity | simpl in Hlow; lia].
  - intros E. rewrite E in Hr, Ha. simpl in Hr, Ha. split; assumption.
Qed.

(** X4: the diff [GetFilesDiff] returns names at least one and at most
    two paths per delta, at most one of them in each list; so it is empty
    exactly when libgit2 reports no delta between the tree of HEAD and
    the tree of FETCH_HEAD. *)
Theorem diff_size_follows_deltas s diff s2 ev2 :
  GitRepoImpl.GetFilesDiff s = Build_run (Return diff) s2 ev2 ->
  ((removed diff = [] /\ added diff = []) <-> deltas (repo s) = [])
  /\ length (removed diff) <= length (deltas (repo s))
  /\ length (added diff) <= length (deltas (repo s))
  /\ length (deltas (repo s)) <= length (removed diff) + length (added diff).
Proof.
  intros H. split; [exact (diff_empty_iff _ _ _ _ H)|].
  destruct (GetFilesDiff_lists _ _ _ _ H) as [-> ->].
  exact (contributions_size (deltas (repo s))).
Qed.

Lemma notified_nil this diff (obss : list observer) :
  notified this diff obss = [] <-> obss = [].
Proof. destruct obss; simpl; split; congruence. Qed.

(** The [OnDiff] calls of a cycle whose three steps returned. *)
Lemma Callback_success_OnDiff this payload s diff s1 s2 s3 ev1 ev2 ev3 :
  substring_of (token this) payload ->
  cycle_succeeds this s diff s1 s2 s3 ev1 ev2 ev3 ->
  filter is_OnDiff (events (GitRepoImpl.Callback this payload s))
  = if negb (GitRepoImpl.empty (removed diff))
       || negb (GitRepoImpl.empty (added diff))
    then map (fun o => EvOnDiff o (root this) diff)
             (notified this diff (observers s))
    else [].
Proof.
  intros Hsub Hok.
  rewrite (Callback_success this payload s diff s1 s2 s3 ev1 ev2 ev3 Hsub Hok).
  destruct Hok as [Hf Hd Hr].
  destruct (step_events _ _ _ _ _ (git_step_Fetch this) Hf) as [Hc1 Ho1].
  destruct (step_events _ _ _ _ _ git_step_GetFilesDiff Hd) as [Hc2 Ho2].
  destruct (step_events _ _ _ _ _ git_step_ResetToFetchHead Hr) as [Hc3 Ho3].
  assert (HOnDiff : forall e, is_call e = true -> is_OnDiff e = false)
    by (intros [] ?; simpl in *; congruence).
  unfold prepend. cbn [events app filter is_OnDiff].
  rewrite !filter_app.
  rewrite (filter_none is_OnDiff ev1), (filter_none is_OnDiff ev2),
    (filter_none is_OnDiff ev3) by (apply calls_exclude; assumption).
  cbn [app filter is_OnDiff].
  rewrite after_reset_OnDiff. replace (observers s3) with (observers s)
    by congruence.
  reflexivity.
Qed.

(** X5: in a cycle whose fetch, diff and reset returned, some observer is
    called exactly when libgit2 reported at least one delta and at least
    one observer is registered; with no delta the handler logs the end of
    the update and returns without calling anyone (a trigger for an
    upstream that has not moved is silent). *)
Theorem observers_called_iff_delta this payload s diff s1 s2 s3 ev1 ev2 ev3 :
  substring_of (token this) payload ->
  cycle_succeeds this s diff s1 s2 s3 ev1 ev2 ev3 ->
  (filter is_OnDiff (events (GitRepoImpl.Callback this payload s)) = []
   <-> deltas (repo s1) = [] \/ observers s = [])
  /\ (deltas (repo s1) = [] ->
      GitRepoImpl.Callback this payload s =
      Build_run (Return tt) s3
        (EvLog spdlog_info GIT_REPO_WEBHOOK_TRIGGERED [root this]
         :: ev1 ++ ev2 ++ ev3
            ++ [EvLog spdlog_info GIT_REPO_FINISHED_UPDATING []])).
Proof.
  intros Hsub Hok.
  pose proof (Callback_success_OnDiff _ _ _ _ _ _ _ _ _ _ Hsub Hok) as Hfil.
  pose proof (Callback_success _ _ _ _ _ _ _ _ _ _ Hsub Hok) as Hrun.
  pose proof (diff_empty_iff _ _ _ _ (diff_done _ _ _ _ _ _ _ _ _ Hok))
    as Hempty.
  split.
  - rewrite Hfil. split.
    + intros H.
      destruct (removed diff) as [|r rs] eqn:Er;
        destruct (added diff) as [|a' as'] eqn:Ea;
        cbn [GitRepoImpl.empty negb orb] in H.
      * left. apply Hempty. split; reflexivity.
      * right. apply map_eq_nil in H. now apply notified_nil in H.
      * right. apply map_eq_nil in H. now apply notified_nil in H.
      * right. apply map_eq_nil in H. now apply notified_nil in H.
    + intros [Hd|Ho].
      * apply Hempty in Hd. destruct Hd as [-> ->]. reflexivity.
      * rewrite Ho. destruct (negb _ || negb _); reflexivity.
  - intros Hd. apply Hempty in Hd. destruct Hd as [Er Ea].
    rewrite Hrun. unfold after_reset. rewrite Er, Ea.
    cbn [GitRepoImpl.empty negb orb]. unfold prepend, try_catch, ret.
    cbn [result final events]. rewrite app_nil_r. reflexivity.
Qed.

(** X6: with an empty token no payload is rejected: the handler never
    logs the missing token and always goes on to look up the remote. *)
Theorem empty_token_admits_every_payload this payload s :
  token this = ""%string ->
  existsb is_no_token_log (events (GitRepoImpl.Callback this payload s))
  = false
  /\ exists rest,
       events (GitRepoImpl.Callback this payload s)
       = EvLog spdlog_info GIT_REPO_WEBHOOK_TRIGGERED [root this]
         :: EvCall (call_remote_lookup "origin")
                   (error (git_remote_lookup (repo s) "origin"))
         :: rest.
Proof.
  intros Htok.
  assert (Hsub : substring_of (token this) payload)
    by (rewrite Htok; exists ""%string, payload; reflexivity).
  rewrite (Callback_authorised this payload s Hsub).
  unfold prepend. cbn [events app].
  set (body := (GitRepoImpl.Fetch this ;; _)).
  set (handler := fun what : string => _).
  split.
  - cbn [existsb is_no_token_log orb].
    assert (Hbody : emits not_no_token_log (try_catch body handler)).
    { assert (Hcall : forall e, is_step_call e = true ->
                        not_no_token_log e = true)
        by (intros [] ?; unfold not_no_token_log; simpl in *; congruence).
      apply emits_try_catch; [|intros what; now apply emits_emit].
      subst body.
      apply emits_bind; [apply emits_git_step, git_step_Fetch; exact Hcall|].
      intros _.
      apply emits_bind;
        [apply emits_git_step, git_step_GetFilesDiff; exact Hcall|].
      intros diff.
      apply emits_bind;
        [apply emits_git_step, git_step_ResetToFetchHead; exact Hcall|].
      intros _.
      apply emits_bind; [now apply emits_emit|]. intros _.
      destruct (negb _ || negb _); [|apply emits_ret].
      apply emits_bind; [apply emits_gets|]. intros obss.
      apply emits_notify.
      intros [] ?; unfold not_no_token_log; simpl in *; congruence. }
    specialize (Hbody s). revert Hbody.
    generalize (events (try_catch body handler s)).
    induction l as [|x l IH]; simpl; [reflexivity|].
    intros H. apply andb_true_iff in H. destruct H as [Hx Hl].
    rewrite (IH Hl). unfold not_no_token_log in Hx.
    destruct (is_no_token_log x); [discriminate | reflexivity].
  - pose proof (Fetch_run this s) as Hrun. cbv zeta in Hrun.
    destruct (error (git_remote_lookup (repo s) "origin") >=? 0)%Z;
      [destruct (error (git_remote_fetch (repo s) _ _) >=? 0)%Z|]; subst body.
    + rewrite (try_catch_bind_Return _ _ _ _ _ _ _ Hrun).
      eexists. unfold prepend. cbn [events app]. reflexivity.
    + rewrite (try_catch_bind_Throw _ _ _ _ _ _ _ Hrun).
      eexists. unfold prepend. cbn [events app]. reflexivity.
    + rewrite (try_catch_bind_Throw _ _ _ _ _ _ _ Hrun).
      eexists. unfold prepend. cbn [events app]. reflexivity.
Qed.

End DiffAndNotify.

Lemma diff_size_follows_deltas_witness :
  GitRepoImpl.GetFilesDiff (G := Toy.libgit2) (Toy.start Toy.fetched [])
  = Build_run
      (Return {| removed := ["a.txt"%string]; added := ["c.txt"%string] |})
      (Toy.start Toy.fetched [])
      [EvCall (call_revparse_single "HEAD") 0;
       EvCall (call_revparse_single "FETCH_HEAD") 0;
       EvCall call_object_peel 0; EvCall call_object_peel 0;
       EvCall call_diff_tree_to_tree 0; EvCall call_diff_foreach 0]
  /\ length (deltas (G := Toy.libgit2) Toy.fetched) <= 1 + 1.
Proof.
  assert (H : GitRepoImpl.GetFilesDiff (G := Toy.libgit2)
                (Toy.start Toy.fetched [])
              = Build_run
                  (Return {| removed := ["a.txt"%string];
                             added := ["c.txt"%string] |})
                  (Toy.start Toy.fetched [])
                  [EvCall (call_revparse_single "HEAD") 0;
                   EvCall (call_revparse_single "FETCH_HEAD") 0;
                   EvCall call_object_peel 0; EvCall call_object_peel 0;
                   EvCall call_diff_tree_to_tree 0;
                   EvCall call_diff_foreach 0])
    by reflexivity.
  split; [exact H|].
  exact (proj2 (proj2 (proj2 (diff_size_follows_deltas _ _ _ _ H)))).
Defined.

Lemma observers_called_iff_delta_witness :
  filter is_OnDiff
    (events (GitRepoImpl.Callback (Obs := Toy.quiet) Toy.gitrepo
               "GET /s3cret HTTP/1.1" (Toy.start Toy.mirror [])))
  = [].
Proof.
  assert (Hsub : substring_of (token Toy.gitrepo) "GET /s3cret HTTP/1.1")
    by (exists "GET /"%string, " HTTP/1.1"%string; reflexivity).
  apply (proj1 (observers_called_iff_delta (Obs := Toy.quiet) Toy.gitrepo
                  "GET /s3cret HTTP/1.1" _ _ _ _ _ _ _ _ Hsub
                  (Toy_cycle_succeeds []))).
  right. reflexivity.
Defined.

Lemma empty_token_admits_every_payload_witness :
  token open_gate = ""%string
  /\ existsb is_no_token_log
       (events (GitRepoImpl.Callback (Obs := Toy.quiet) open_gate
                  "anything at all" (Toy.start Toy.mirror [1])))
     = false.
Proof.
  split; [reflexivity|].
  exact (proj1 (empty_token_admits_every_payload (Obs := Toy.quiet)
                  open_gate "anything at all" (Toy.start Toy.mirror [1])
                  eq_refl)).
Defined.

(** ** Tracked files and registration *)

Section Registration.
Context {G : LibGit2} {Obs : IGitRepoObserver}.

Lemma bind_run_Throw {A B} (m : M A) (k : A -> M B) s e s1 ev1 :
  m s = Build_run (Throw e) s1 ev1 ->
  bind m k s = Build_run (Throw e) s1 ev1.
Proof. unfold bind. intros ->. reflexivity. Qed.

(** One more iteration than the index has entries would dereference the
    null pointer [git_index_get_byindex] returns past the end. *)
Lemma tracked_loop_past_the_end (index : git_index) (n i : nat)
    (pv : PathVector) :
  0 < n -> length index < i + n ->
  GitRepoImpl.tracked_loop index i n pv = None.
Proof.
  revert i pv. induction n as [|n IH]; intros i pv Hpos Hlen; [lia|].
  cbn [GitRepoImpl.tracked_loop]. unfold git_index_get_byindex.
  destruct (nth_error index i) as [entry|] eqn:E; [|reflexivity].
  assert (Hi : i < length index)
    by (apply nth_error_Some; rewrite E; discriminate).
  apply IH; lia.
Qed.

(** X7: [GetTrackedFiles] never reads past the index: its loop runs once
    per entry and ends defined, with the path of every entry in index
    order, where one iteration more would dereference a null entry; the
    call never ends undefined and never changes the repository or the
    observers. *)
Theorem GetTrackedFiles_stays_in_bounds s :
  (forall index : git_index,
     GitRepoImpl.tracked_loop index 0 (git_index_entrycount index) []
     = Some (map entry_path index)
     /\ GitRepoImpl.tracked_loop index 0 (S (git_index_entrycount index)) []
        = None)
  /\ result (GitRepoImpl.GetTrackedFiles s) <> Undefined
  /\ repo (final (GitRepoImpl.GetTrackedFiles s)) = repo s
  /\ observers (final (GitRepoImpl.GetTrackedFiles s)) = observers s
  /\ (forall pv,
        result (GitRepoImpl.GetTrackedFiles s) = Return pv ->
        length pv
        = git_index_entrycount (value (git_repository_index (repo s)))
        /\ final (GitRepoImpl.GetTrackedFiles s) = s).
Proof.
  split.
  { intros index. unfold git_index_entrycount. split.
    - exact (tracked_loop_paths [] index []).
    - apply tracked_loop_past_the_end; lia. }
  rewrite GetTrackedFiles_run. cbv zeta.
  destruct (error (git_repository_index (repo s)) >=? 0)%Z;
    cbn [result final repo observers set_giterr].
  - split; [discriminate|]. split; [reflexivity|]. split; [reflexivity|].
    intros pv H. injection H as <-. split; [apply length_map | reflexivity].
  - split; [discriminate|]. split; [reflexivity|]. split; [reflexivity|].
    intros pv H. discriminate H.
Qed.

(** X8: [AddObserver] registers before it looks at the mirror: the
    observer is at the end of the list however the call ends, and when
    the index cannot be read the call throws with the observer
    registered and without [OnAdd] having been called. *)
Theorem AddObserver_registers_first this obs s :
  observers (final (GitRepoImpl.AddObserver this obs s)) = observers s ++ [obs]
  /\ ((error (git_repository_index (repo s)) < 0)%Z ->
      GitRepoImpl.AddObserver this obs s =
      Build_run
        (Throw (runtime_error (message (git_repository_index (repo s)))))
        (set_giterr (message (git_repository_index (repo s)))
           (set_observers (observers s ++ [obs]) s))
        [EvCall call_repository_index
                (error (git_repository_index (repo s)))]).
Proof.
  unfold GitRepoImpl.AddObserver.
  rewrite (bind_run_Return
             (modify (fun s0 => set_observers (observers s0 ++ [obs]) s0))
             _ s tt (set_observers (observers s ++ [obs]) s) [] eq_refl).
  pose proof (GetTrackedFiles_run (set_observers (observers s ++ [obs]) s))
    as Hrun.
  cbv zeta in Hrun. cbn [repo set_observers] in Hrun.
  destruct (status_tests (error (git_repository_index (repo s))))
    as [[Hge Hlt] | [Hge Hlt]]; rewrite Hge in Hrun.
  - rewrite (bind_run_Return _ _ _ _ _ _ Hrun).
    unfold prepend. cbn [final]. split.
    + destruct (negb _); [|reflexivity].
      unfold GitRepoImpl.invoke, bind. cbn [emit result final].
      destruct (OnAdd obs (root this) _); reflexivity.
    + intros Hneg. apply Z.geb_le in Hge. lia.
  - rewrite (bind_run_Throw _ _ _ _ _ _ Hrun).
    unfold prepend. cbn [result final events app observers set_giterr
                         set_observers].
    split; [reflexivity|]. intros _. reflexivity.
Qed.

End Registration.

Lemma AddObserver_registers_first_witness :
  (error (@git_repository_index Toy.libgit2 unreadable) < 0)%Z
  /\ observers
       (final (GitRepoImpl.AddObserver (Obs := Toy.quiet) Toy.gitrepo 7
                 (Toy.start unreadable [1%nat; 2%nat])))
     = [1%nat; 2%nat; 7%nat]
  /\ result (GitRepoImpl.AddObserver (Obs := Toy.quiet) Toy.gitrepo 7
               (Toy.start unreadable [1%nat; 2%nat]))
     = Throw (runtime_error "could not read index").
Proof.
  assert (Hneg : (error (@git_repository_index Toy.libgit2
                           (repo (Toy.start unreadable [1%nat; 2%nat])))
                  < 0)%Z)
    by (simpl; lia).
  destruct (AddObserver_registers_first (Obs := Toy.quiet) Toy.gitrepo 7
              (Toy.start unreadable [1%nat; 2%nat])) as [Hobs Hrun].
  split; [exact Hneg|]. split; [exact Hobs|].
  rewrite (Hrun Hneg). reflexivity.
Defined.

(** ** The constructor *)

Section Constructor.
Context {G : LibGit2} {Obs : IGitRepoObserver}.

Lemma prepend_run {A} evs (o : outcome A) s ev :
  prepend evs (Build_run o s ev) = Build_run o s (evs ++ ev).
Proof. reflexivity. Qed.

Lemma CheckIfRepoExists_run this s :
  GitRepoImpl.CheckIfRepoExists this s =
  let x := git_repository_open_ext (repo s) (root this) in
  Build_run (Return (error x =? 0)%Z)
    (if (error x <? 0)%Z then set_giterr (message x) s else s)
    [EvCall (call_repository_open_ext (root this)) (error x)].
Proof.
  unfold GitRepoImpl.CheckIfRepoExists, bind, call, ret; simpl.
  destruct (git_repository_open_ext (repo s) (root this)) as [e m []].
  reflexivity.
Qed.

Lemma Clone_run this s :
  GitRepoImpl.Clone this s =
  let c := git_clone (repo s) (remote this) (root this) (credPtr this) in
  if (error c >=? 0)%Z then
    Build_run (Return tt) (set_repo (value c) s)
      [EvCall (call_clone (remote this) (root this)) (error c);
       EvLog spdlog_info GIT_REPO_CLONING_COMPLETED []]
  else
    Build_run (Throw (runtime_error (message c)))
      (set_giterr (message c) (set_repo (value c) s))
      [EvCall (call_clone (remote this) (root this)) (error c)].
Proof.
  unfold GitRepoImpl.Clone, bind, call_mut, Git.Check, spdlog, emit, ret;
    simpl.
  destruct (status_tests
              (error (git_clone (repo s) (remote this) (root this)
                        (credPtr this)))) as [[-> ->] | [-> ->]];
    reflexivity.
Qed.

Lemma bind_call_mut_Check {B} c (f : repository -> git_result repository)
    (k : M B) s :
  bind (call_mut c f) (fun error => bind (Git.Check error) (fun _ => k)) s
  = if (error (f (repo s)) >=? 0)%Z
    then prepend [EvCall c (error (f (repo s)))]
           (k (set_repo (value (f (repo s))) s))
    else Build_run (Throw (runtime_error (message (f (repo s)))))
           (set_giterr (message (f (repo s)))
                       (set_repo (value (f (repo s))) s))
           [EvCall c (error (f (repo s)))].
Proof.
  unfold bind, call_mut, Git.Check, prepend; simpl.
  destruct (status_tests (error (f (repo s)))) as [[-> ->] | [-> ->]];
    simpl; reflexivity.
Qed.

(** How the body of the constructor runs, branch by branch. *)
Lemma GitRepo_body_run text this s :
  GitRepo_body text this s =
  let x := git_repository_open_ext (repo s) (root this) in
  let s1 := if (error x <? 0)%Z then set_giterr (message x) s else s in
  let c := git_clone (repo s) (remote this) (root this) (credPtr this) in
  let o := git_repository_open (repo s) (root this) in
  if negb (is_directory (repo s) (root this)) then
    Build_run (Throw (runtime_error text)) s
      [EvIsDirectory (root this) false]
  else if negb (error x =? 0)%Z then
    if (error c >=? 0)%Z then
      Build_run (Return tt) (set_repo (value c) s1)
        [EvIsDirectory (root this) true;
         EvCall (call_repository_open_ext (root this)) (error x);
         EvLog spdlog_info GIT_REPO_DOES_NOT_EXIST [];
         EvCall (call_clone (remote this) (root this)) (error c);
         EvLog spdlog_info GIT_REPO_CLONING_COMPLETED []]
    else
      Build_run (Throw (runtime_error (message c)))
        (set_giterr (message c) (set_repo (value c) s1))
        [EvIsDirectory (root this) true;
         EvCall (call_repository_open_ext (root this)) (error x);
         EvLog spdlog_info GIT_REPO_DOES_NOT_EXIST [];
         EvCall (call_clone (remote this) (root this)) (error c)]
  else if (error o >=? 0)%Z then
    prepend
      [EvIsDirectory (root this) true;
       EvCall (call_repository_open_ext (root this)) (error x);
       EvLog spdlog_info GIT_REPO_EXISTS [];
       EvCall (call_repository_open (root this)) (error o);
       EvLog spdlog_info GIT_REPO_CHECKING_UPDATES []]
      (update_existing this (set_repo (value o) s1))
  else
    Build_run (Throw (runtime_error (message o)))
      (set_giterr (message o) (set_repo (value o) s1))
      [EvIsDirectory (root this) true;
       EvCall (call_repository_open_ext (root this)) (error x);
       EvLog spdlog_info GIT_REPO_EXISTS [];
       EvCall (call_repository_open (root this)) (error o)].
Proof.
  unfold GitRepo_body. cbv zeta.
  rewrite (bind_run_Return
             (gets (fun s0 => is_directory (repo s0) (root this))) _
             s (is_directory (repo s) (root this)) s [] eq_refl).
  destruct (is_directory (repo s) (root this)).
  2:{ rewrite (bind_run_Return (emit (EvIsDirectory (root this) false)) _
                 s tt s [EvIsDirectory (root this) false] eq_refl).
      reflexivity. }
  rewrite (bind_run_Return (emit (EvIsDirectory (root this) true)) _
             s tt s [EvIsDirectory (root this) true] eq_refl).
  cbn [negb].
  pose proof (CheckIfRepoExists_run this s) as Hx. cbv zeta in Hx.
  rewrite (bind_run_Return _ _ _ _ _ _ Hx). clear Hx.
  set (s1 := if (error (git_repository_open_ext (repo s) (root this)) <? 0)%Z
             then _ else _).
  assert (Hrepo : repo s1 = repo s) by (subst s1; destruct (_ <? 0)%Z; reflexivity).
  destruct (error (git_repository_open_ext (repo s) (root this)) =? 0)%Z;
    cbn [negb].
  - (* the repository exists *)
    rewrite (bind_run_Return (spdlog spdlog_info GIT_REPO_EXISTS []) _ s1 tt
               s1 [EvLog spdlog_info GIT_REPO_EXISTS []] eq_refl).
    rewrite bind_call_mut_Check. rewrite Hrepo.
    destruct (error (git_repository_open (repo s) (root this)) >=? 0)%Z.
    + rewrite (bind_run_Return
                 (spdlog spdlog_info GIT_REPO_CHECKING_UPDATES []) _ _ tt
                 (set_repo (value (git_repository_open (repo s) (root this)))
                    s1)
                 [EvLog spdlog_info GIT_REPO_CHECKING_UPDATES []] eq_refl).
      fold (update_existing this).
      unfold prepend. cbn [result final events app]. reflexivity.
    + unfold prepend. cbn [result final events app]. reflexivity.
  - (* no repository yet *)
    rewrite (bind_run_Return (spdlog spdlog_info GIT_REPO_DOES_NOT_EXIST [])
               _ s1 tt s1 [EvLog spdlog_info GIT_REPO_DOES_NOT_EXIST []]
               eq_refl).
    pose proof (Clone_run this s1) as Hc. cbv zeta in Hc. rewrite Hrepo in Hc.
    rewrite Hc.
    destruct (error (git_clone (repo s) (remote this) (root this)
                       (credPtr this)) >=? 0)%Z; reflexivity.
Qed.

Lemma update_existing_run this s out s2 evs :
  (GitRepoImpl.Fetch this ;; GitRepoImpl.ResetToFetchHead) s
  = Build_run out s2 evs ->
  update_existing this s =
  match out with
  | Return _ =>
      Build_run (Return tt) s2
        (evs ++ [EvLog spdlog_info GIT_REPO_UPDATE_COMPLETED []])
  | Throw e =>
      Build_run (Throw e) s2 (evs ++ [EvCall call_repository_free 0])
  | Undefined => Build_run Undefined s2 evs
  end.
Proof.
  intros H. unfold update_existing, try_rethrow. unfold bind at 1.
  rewrite H. destruct out as [u|e|]; reflexivity.
Qed.

Lemma git_step_update_steps this :
  git_step (GitRepoImpl.Fetch this ;; GitRepoImpl.ResetToFetchHead).
Proof.
  apply git_step_bind; [apply git_step_Fetch|].
  intros _. apply git_step_ResetToFetchHead.
Qed.

(** Fetching and resetting never release the repository. *)
Lemma update_steps_no_free this s :
  existsb is_free
    (events ((GitRepoImpl.Fetch this ;; GitRepoImpl.ResetToFetchHead) s))
  = false.
Proof.
  unfold bind. rewrite Fetch_run. cbv zeta.
  destruct (error (git_remote_lookup (repo s) "origin") >=? 0)%Z;
    [destruct (error (git_remote_fetch (repo s) _ _) >=? 0)%Z|];
    cbn [result final events]; try reflexivity.
  rewrite ResetToFetchHead_run. cbv zeta.
  destruct (error (git_reference_name_to_id _ "FETCH_HEAD") >=? 0)%Z;
    [destruct (error (git_commit_lookup _ _) >=? 0)%Z;
     [destruct (error (git_reset _ _ _) >=? 0)%Z|]|];
    reflexivity.
Qed.

Lemma GitRepo_init_None opts :
  GitRepo_init opts = None <-> Std.of_c_str (opt_path opts) = ""%string.
Proof.
  unfold GitRepo_init, NormalizeDirPath.
  destruct (Std.of_c_str (opt_path opts)) as [|c str] eqn:E.
  - simpl. split; reflexivity.
  - destruct (back_nonempty (String c str)) as [b Hb]; [discriminate|].
    rewrite Hb. rewrite NormalizeDirPath_guard.
    split; discriminate.
Qed.

(** How the constructor runs: the port, the base, the members and the
    body, and the unwinding when the members or the body throw. *)
Lemma GitRepo_ctor_run text listen opts io s :
  GitRepo_ctor text listen opts io s =
  if negb ((0 <=? webhookPort opts)%Z && (webhookPort opts <=? 65535)%Z)
  then Build_run (Throw (system_error "not_exact")) s []
  else if negb (listen (webhookPort opts) =? 0)%Z
  then Build_run (Throw (system_error "bind")) s []
  else
    match GitRepo_init opts with
    | None => Build_run Undefined (set_acceptor true s) []
    | Some this =>
        let r := GitRepo_body text this (set_acceptor true s) in
        match result r with
        | Return _ =>
            Build_run (Return (this, WebhookEndpoint.DoAccept io))
                      (final r) (events r)
        | Throw e =>
            Build_run (Throw e) (set_acceptor false (final r)) (events r)
        | Undefined => Build_run Undefined (final r) (events r)
        end
    end.
Proof.
  unfold GitRepo_ctor, Json.to_number_unsigned_short.
  destruct ((0 <=? webhookPort opts)%Z && (webhookPort opts <=? 65535)%Z);
    cbn [negb]; [|reflexivity].
  rewrite (bind_run_Return (ret (webhookPort opts)) _ s (webhookPort opts)
             s [] eq_refl).
  rewrite prepend_nil. unfold WebhookEndpoint.ctor.
  destruct (listen (webhookPort opts) =? 0)%Z; cbn [negb]; [|reflexivity].
  rewrite (bind_run_Return
             (modify (set_acceptor true) ;; ret (WebhookEndpoint.DoAccept io))
             _ s (WebhookEndpoint.DoAccept io) (set_acceptor true s) []
             eq_refl).
  rewrite prepend_nil.
  destruct (GitRepo_init opts) as [this|]; [|reflexivity].
  cbv zeta. unfold try_rethrow, bind, modify, ret.
  destruct (GitRepo_body text this (set_acceptor true s)) as [[u|e|] s2 evs];
    cbn [result final events]; rewrite ?app_nil_r; reflexivity.
Qed.

Lemma port_usable_tests listen opts :
  port_usable listen opts ->
  (0 <=? webhookPort opts)%Z && (webhookPort opts <=? 65535)%Z = true
  /\ (listen (webhookPort opts) =? 0)%Z = true.
Proof.
  intros [[Hlo Hhi] Hl]. split.
  - apply andb_true_iff. split; apply Z.leb_le; assumption.
  - apply Z.eqb_eq. exact Hl.
Qed.

Lemma port_unusable listen opts :
  ~ port_usable listen opts ->
  (0 <=? webhookPort opts)%Z && (webhookPort opts <=? 65535)%Z = false
  \/ (listen (webhookPort opts) =? 0)%Z = false.
Proof.
  intros Hn.
  destruct ((0 <=? webhookPort opts)%Z && (webhookPort opts <=? 65535)%Z)
    eqn:Hp; [|left; reflexivity].
  destruct (listen (webhookPort opts) =? 0)%Z eqn:Hl; [|right; reflexivity].
  exfalso. apply Hn. apply andb_true_iff in Hp. destruct Hp as [Hlo Hhi].
  split; [split; apply Z.leb_le; assumption | apply Z.eqb_eq; exact Hl].
Qed.

Lemma GitRepo_ctor_usable text listen opts io this s :
  port_usable listen opts ->
  GitRepo_init opts = Some this ->
  GitRepo_ctor text listen opts io s =
  match result (GitRepo_body text this (set_acceptor true s)) with
  | Return _ =>
      Build_run (Return (this, WebhookEndpoint.DoAccept io))
        (final (GitRepo_body text this (set_acceptor true s)))
        (events (GitRepo_body text this (set_acceptor true s)))
  | Throw e =>
      Build_run (Throw e)
        (set_acceptor false
           (final (GitRepo_body text this (set_acceptor true s))))
        (events (GitRepo_body text this (set_acceptor true s)))
  | Undefined =>
      Build_run Undefined
        (final (GitRepo_body text this (set_acceptor true s)))
        (events (GitRepo_body text this (set_acceptor true s)))
  end.
Proof.
  intros Hport Hinit. rewrite GitRepo_ctor_run.
  destruct (port_usable_tests listen opts Hport) as [-> ->].
  rewrite Hinit. reflexivity.
Qed.

(** X9: with a usable port, when the configured path is not a directory
    the constructor throws a [std::runtime_error] with the text of
    [GIT_REPO_PATH_IS_NOT_DIR] before it makes any libgit2 call: nothing
    is opened, cloned or fetched, the repository is as it was, and the
    acceptor the base had opened is gone again. *)
Theorem constructor_refuses_missing_directory text listen opts io this s :
  port_usable listen opts ->
  GitRepo_init opts = Some this ->
  is_directory (repo s) (root this) = false ->
  GitRepo_ctor text listen opts io s
  = Build_run (Throw (runtime_error text)) (set_acceptor false s)
      [EvIsDirectory (root this) false].
Proof.
  intros Hport Hinit Hdir.
  rewrite (GitRepo_ctor_usable text listen opts io this s Hport Hinit).
  rewrite GitRepo_body_run. cbv zeta. cbn [repo set_acceptor].
  rewrite Hdir. reflexivity.
Qed.

(** X10: with a usable port, when the path is a directory that libgit2
    does not open as a repository (any status other than 0), the
    constructor clones the remote into it with the configured
    credentials and does nothing else: no open, no fetch, no reset.
    When the clone status is not negative it returns the object, with
    the acceptor open and the first accept waiting; otherwise it throws
    the clone's message and the acceptor is gone. *)
Theorem constructor_clones_when_no_repository text listen opts io this s :
  port_usable listen opts ->
  GitRepo_init opts = Some this ->
  is_directory (repo s) (root this) = true ->
  error (git_repository_open_ext (repo s) (root this)) <> 0%Z ->
  let x := git_repository_open_ext (repo s) (root this) in
  let c := git_clone (repo s) (remote this) (root this) (credPtr this) in
  events (GitRepo_ctor text listen opts io s)
  = [EvIsDirectory (root this) true;
     EvCall (call_repository_open_ext (root this)) (error x);
     EvLog spdlog_info GIT_REPO_DOES_NOT_EXIST [];
     EvCall (call_clone (remote this) (root this)) (error c)]
    ++ (if (error c >=? 0)%Z
        then [EvLog spdlog_info GIT_REPO_CLONING_COMPLETED []] else [])
  /\ repo (final (GitRepo_ctor text listen opts io s)) = value c
  /\ ((0 <= error c)%Z ->
      result (GitRepo_ctor text listen opts io s)
      = Return (this, WebhookEndpoint.DoAccept io)
      /\ acceptor_is_open (final (GitRepo_ctor text listen opts io s))
         = true)
  /\ ((error c < 0)%Z ->
      result (GitRepo_ctor text listen opts io s)
      = Throw (runtime_error (message c))
      /\ acceptor_is_open (final (GitRepo_ctor text listen opts io s))
         = false).
Proof.
  intros Hport Hinit Hdir Hx. cbv zeta.
  rewrite (GitRepo_ctor_usable text listen opts io this s Hport Hinit).
  rewrite GitRepo_body_run. cbv zeta. cbn [repo set_acceptor].
  rewrite Hdir. cbn [negb].
  apply Z.eqb_neq in Hx. rewrite Hx. cbn [negb].
  destruct (status_tests
              (error (git_clone (repo s) (remote this) (root this)
                        (credPtr this)))) as [[Hge Hlt] | [Hge Hlt]];
    rewrite Hge; cbn [result final events repo set_repo set_giterr app].
  - apply Z.geb_le in Hge.
    split; [reflexivity|]. split; [reflexivity|].
    split; [|intros; lia]. intros _. split; [reflexivity|].
    destruct (error (git_repository_open_ext (repo s) (root this)) <? 0)%Z;
      reflexivity.
  - apply Z.ltb_lt in Hlt.
    split; [reflexivity|]. split; [reflexivity|].
    split; [intros; lia|]. intros _. split; reflexivity.
Qed.

(** X11: with a usable port, for a directory that holds a repository,
    the constructor opens it and then fetches and resets.  If the open
    fails nothing is released and nothing fetched.  If the fetch or the
    reset throws, the repository is released by one
    [git_repository_free], as the last thing done, the same exception
    leaves the constructor, and the acceptor is gone; if both return,
    nothing is released and the object is returned with the first
    accept waiting. *)
Theorem constructor_releases_on_failed_update text listen opts io this s :
  port_usable listen opts ->
  GitRepo_init opts = Some this ->
  is_directory (repo s) (root this) = true ->
  error (git_repository_open_ext (repo s) (root this)) = 0%Z ->
  let o := git_repository_open (repo s) (root this) in
  let before :=
    [EvIsDirectory (root this) true;
     EvCall (call_repository_open_ext (root this)) 0;
     EvLog spdlog_info GIT_REPO_EXISTS [];
     EvCall (call_repository_open (root this)) (error o)] in
  ((error o < 0)%Z ->
   result (GitRepo_ctor text listen opts io s)
   = Throw (runtime_error (message o))
   /\ events (GitRepo_ctor text listen opts io s) = before
   /\ acceptor_is_open (final (GitRepo_ctor text listen opts io s)) = false)
  /\ ((0 <= error o)%Z ->
      forall out s2 evs,
        (GitRepoImpl.Fetch this ;; GitRepoImpl.ResetToFetchHead)
          (set_repo (value o) (set_acceptor true s))
        = Build_run out s2 evs ->
        existsb is_free evs = false
        /\ (out = Return tt ->
            GitRepo_ctor text listen opts io s =
            Build_run (Return (this, WebhookEndpoint.DoAccept io)) s2
              (before ++ EvLog spdlog_info GIT_REPO_CHECKING_UPDATES []
                      :: evs
                      ++ [EvLog spdlog_info GIT_REPO_UPDATE_COMPLETED []]))
        /\ (forall e, out = Throw e ->
            GitRepo_ctor text listen opts io s =
            Build_run (Throw e) (set_acceptor false s2)
              (before ++ EvLog spdlog_info GIT_REPO_CHECKING_UPDATES []
                      :: evs ++ [EvCall call_repository_free 0]))).
Proof.
  intros Hport Hinit Hdir Hx. cbv zeta.
  rewrite (GitRepo_ctor_usable text listen opts io this s Hport Hinit).
  rewrite GitRepo_body_run. cbv zeta. cbn [repo set_acceptor].
  rewrite Hdir, Hx. cbn [negb Z.eqb Z.ltb Z.compare].
  destruct (status_tests (error (git_repository_open (repo s) (root this))))
    as [[Hge Hlt] | [Hge Hlt]]; rewrite Hge.
  - apply Z.geb_le in Hge. split; [intros; lia|].
    intros _ out s2 evs Hrun.
    pose proof (update_steps_no_free this
                  (set_repo (value (git_repository_open (repo s) (root this)))
                            (set_acceptor true s))) as Hnf.
    rewrite Hrun in Hnf. cbn [events] in Hnf.
    rewrite (update_existing_run _ _ _ _ _ Hrun).
    split; [exact Hnf|]. split.
    + intros ->. reflexivity.
    + intros e ->. reflexivity.
  - apply Z.ltb_lt in Hlt. split; [|intros; lia].
    intros _. repeat split.
Qed.

Lemma emits_undefined {A} P : emits P (undefined (A := A)).
Proof. intros s; reflexivity. Qed.

Lemma emits_none (P : event -> bool) (l : list event) :
  forallb (fun e => negb (P e)) l = true -> existsb P l = false.
Proof.
  induction l as [|x l IH]; simpl; [reflexivity|].
  intros H. apply andb_true_iff in H. destruct H as [Hx Hl].
  rewrite (IH Hl). destruct (P x); [discriminate | reflexivity].
Qed.

(** The constructor emits file-system questions, libgit2 calls and log
    lines only. *)
Lemma GitRepo_ctor_not_outward text listen opts io :
  emits not_outward (GitRepo_ctor text listen opts io).
Proof.
  unfold GitRepo_ctor.
  assert (Hstep : forall A (m : M A), git_step m -> emits not_outward m).
  { intros A m. apply emits_git_step.
    intros [] ?; unfold not_outward; simpl in *; congruence. }
  apply emits_bind; [apply (emits_base _ listen opts io)|]. intros port.
  apply emits_bind; [apply (emits_base _ listen opts io)|]. intros io'.
  apply emits_try_rethrow; [|apply emits_modify].
  destruct (GitRepo_init opts) as [this|]; [|apply emits_undefined].
  apply emits_bind; [|intros _; apply emits_ret].
  unfold GitRepo_body.
  apply emits_bind; [apply emits_gets|]. intros is_dir.
  apply emits_bind; [now apply emits_emit|]. intros _.
  destruct (negb is_dir); [apply emits_throw|].
  apply emits_bind.
  { unfold GitRepoImpl.CheckIfRepoExists.
    apply emits_bind; [apply emits_call; intros st; reflexivity|].
    intros [error u]. apply emits_ret. }
  intros exists_. destruct (negb exists_).
  - apply emits_bind; [now apply emits_emit|]. intros _.
    unfold GitRepoImpl.Clone.
    apply emits_bind; [apply emits_call_mut; intros st; reflexivity|].
    intros error.
    apply emits_bind; [apply Hstep, git_step_Check|]. intros _.
    now apply emits_emit.
  - apply emits_bind; [now apply emits_emit|]. intros _.
    apply emits_bind; [apply emits_call_mut; intros st; reflexivity|].
    intros error.
    apply emits_bind; [apply Hstep, git_step_Check|]. intros _.
    apply emits_bind; [now apply emits_emit|]. intros _.
    apply emits_bind.
    { apply emits_try_rethrow; [|now apply emits_emit].
      apply Hstep, git_step_update_steps. }
    intros _. now apply emits_emit.
Qed.

(** How the body of the constructor can end. *)
Lemma GitRepo_body_outcomes text this s :
  result (GitRepo_body text this s) <> Undefined
  /\ (forall e,
        result (GitRepo_body text this s) = Throw e ->
        exists what, e = std_exception what)
  /\ observers (final (GitRepo_body text this s)) = observers s
  /\ acceptor_is_open (final (GitRepo_body text this s)) = acceptor_is_open s
  /\ (forall u,
        result (GitRepo_body text this s) = Return u ->
        existsb is_free (events (GitRepo_body text this s)) = false).
Proof.
  rewrite GitRepo_body_run. cbv zeta.
  set (x := git_repository_open_ext (repo s) (root this)).
  set (s1 := if (error x <? 0)%Z then _ else _).
  assert (Hs1 : observers s1 = observers s
                /\ acceptor_is_open s1 = acceptor_is_open s)
    by (subst s1; destruct (error x <? 0)%Z; split; reflexivity).
  destruct Hs1 as [Ho1 Ha1].
  destruct (is_directory (repo s) (root this)); cbn [negb];
    [destruct (error x =? 0)%Z; cbn [negb];
     [destruct (error (git_repository_open (repo s) (root this)) >=? 0)%Z
     |destruct (error (git_clone (repo s) (remote this) (root this)
                         (credPtr this)) >=? 0)%Z]|].
  - (* opened: fetch and reset *)
    set (s1' := set_repo _ s1).
    destruct ((GitRepoImpl.Fetch this ;; GitRepoImpl.ResetToFetchHead) s1')
      as [out s2 evs] eqn:Hrun.
    rewrite (update_existing_run _ _ _ _ _ Hrun).
    destruct (git_step_update_steps this s1') as (_ & Ho & Ha & Hr).
    rewrite Hrun in Ho, Ha, Hr. cbn [result final] in Ho, Ha, Hr.
    pose proof (update_steps_no_free this s1') as Hnf.
    rewrite Hrun in Hnf. cbn [events] in Hnf.
    assert (Hobs : observers s2 = observers s)
      by (rewrite Ho; subst s1'; cbn [observers set_repo]; exact Ho1).
    assert (Hacc : acceptor_is_open s2 = acceptor_is_open s)
      by (rewrite Ha; subst s1'; cbn [acceptor_is_open set_repo]; exact Ha1).
    destruct out as [u|e|]; [| |contradiction];
      unfold prepend; cbn [result final events].
    + split; [discriminate|]. split; [discriminate|].
      split; [exact Hobs|]. split; [exact Hacc|].
      intros _ _. cbn [app existsb is_free orb]. rewrite existsb_app, Hnf.
      reflexivity.
    + split; [discriminate|].
      split; [intros e' H; injection H as <-; exact Hr|].
      split; [exact Hobs|]. split; [exact Hacc | discriminate].
  - (* the open failed *)
    cbn [result final events observers acceptor_is_open set_giterr set_repo].
    split; [discriminate|].
    split; [intros e H; injection H as <-; eexists; reflexivity|].
    split; [exact Ho1|]. split; [exact Ha1 | discriminate].
  - (* cloned *)
    cbn [result final events observers acceptor_is_open set_giterr set_repo].
    split; [discriminate|]. split; [discriminate|].
    split; [exact Ho1|]. split; [exact Ha1|]. intros _ _. reflexivity.
  - (* the clone failed *)
    cbn [result final events observers acceptor_is_open set_giterr set_repo].
    split; [discriminate|].
    split; [intros e H; injection H as <-; eexists; reflexivity|].
    split; [exact Ho1|]. split; [exact Ha1 | discriminate].
  - (* not a directory *)
    cbn [result final events].
    split; [discriminate|].
    split; [intros e H; injection H as <-; eexists; reflexivity|].
    split; [reflexivity|]. split; [reflexivity | discriminate].
Qed.

(** X12: however the constructor ends, it has called no observer and
    written to no socket, and the observer list is as before.  With a
    port that no [unsigned short] holds, or on which the system does not
    let the acceptor listen, it throws before anything else happens:
    the state is untouched and the path is not even looked at.  It ends
    undefined exactly when the port is usable and the configured path is
    empty (or begins with a NUL).  What it throws is always a
    [std::exception], and after a throw that follows the base's
    construction the acceptor is gone.  When it returns, it returns the
    object of the member initialisers with the first accept waiting and
    the acceptor open, without having released the repository. *)
Theorem constructor_outcomes text listen opts io s :
  (~ port_usable listen opts ->
   exists what,
     GitRepo_ctor text listen opts io s
     = Build_run (Throw (std_exception what)) s [])
  /\ (result (GitRepo_ctor text listen opts io s) = Undefined
      <-> port_usable listen opts
          /\ Std.of_c_str (opt_path opts) = ""%string)
  /\ (forall e,
        result (GitRepo_ctor text listen opts io s) = Throw e ->
        (exists what, e = std_exception what)
        /\ (port_usable listen opts ->
            acceptor_is_open (final (GitRepo_ctor text listen opts io s))
            = false))
  /\ (forall g io',
        result (GitRepo_ctor text listen opts io s) = Return (g, io') ->
        port_usable listen opts
        /\ GitRepo_init opts = Some g
        /\ io' = WebhookEndpoint.DoAccept io
        /\ acceptor_is_open (final (GitRepo_ctor text listen opts io s))
           = true
        /\ existsb is_free (events (GitRepo_ctor text listen opts io s))
           = false)
  /\ existsb is_outward (events (GitRepo_ctor text listen opts io s)) = false
  /\ observers (final (GitRepo_ctor text listen opts io s)) = observers s.
Proof.
  assert (Hout : existsb is_outward
                   (events (GitRepo_ctor text listen opts io s)) = false)
    by (apply emits_none; exact (GitRepo_ctor_not_outward text listen opts io s)).
  assert (Hdec : port_usable listen opts \/ ~ port_usable listen opts).
  { unfold port_usable.
    destruct (Z_le_dec 0 (webhookPort opts));
      destruct (Z_le_dec (webhookPort opts) 65535);
      destruct (Z.eq_dec (listen (webhookPort opts)) 0);
      try (left; repeat split; assumption);
      right; intros [[? ?] ?]; contradiction. }
  destruct Hdec as [Hport | Hport].
  2:{ assert (Hthrow : exists what,
                GitRepo_ctor text listen opts io s
                = Build_run (Throw (std_exception what)) s []).
      { rewrite GitRepo_ctor_run.
        destruct (port_unusable listen opts Hport) as [-> | Hl].
        - eexists. reflexivity.
        - rewrite Hl.
          destruct ((0 <=? webhookPort opts)%Z
                    && (webhookPort opts <=? 65535)%Z);
            eexists; reflexivity. }
      destruct Hthrow as [what Hrun].
      split; [intros _; exists what; exact Hrun|].
      rewrite Hrun. cbn [result final events existsb].
      split; [split; [discriminate | intros [Hp _]; contradiction]|].
      split.
      { intros e H. injection H as <-.
        split; [eexists; reflexivity | intros Hp; contradiction]. }
      split; [discriminate|]. split; reflexivity. }
  split; [intros Hn; contradiction|].
  destruct (GitRepo_init opts) as [this|] eqn:Hinit.
  2:{ pose proof (proj1 (GitRepo_init_None opts) Hinit) as Hempty.
      revert Hout. rewrite GitRepo_ctor_run.
      destruct (port_usable_tests listen opts Hport) as [-> ->].
      rewrite Hinit. cbn [negb result final events observers set_acceptor].
      intros Hout.
      split; [split; [intros _; split; assumption | reflexivity]|].
      split; [discriminate|]. split; [discriminate|].
      split; [exact Hout | reflexivity]. }
  assert (Hne : Std.of_c_str (opt_path opts) <> ""%string).
  { intros E. apply GitRepo_init_None in E. congruence. }
  revert Hout.
  rewrite (GitRepo_ctor_usable text listen opts io this s Hport Hinit).
  destruct (GitRepo_body_outcomes text this (set_acceptor true s))
    as (Hdef & Hstd & Hobs & Hacc & Hfree).
  cbn [observers acceptor_is_open set_acceptor] in Hobs, Hacc.
  destruct (result (GitRepo_body text this (set_acceptor true s)))
    as [u|e|]; [| |contradiction];
    cbn [result final events observers acceptor_is_open set_acceptor];
    intros Hout.
  - split; [split; [discriminate | intros [_ E]; contradiction]|].
    split; [discriminate|]. split.
    + intros g io' H. injection H as <- <-.
      split; [exact Hport|]. split; [reflexivity|]. split; [reflexivity|].
      split; [exact Hacc | exact (Hfree u eq_refl)].
    + split; [exact Hout | exact Hobs].
  - split; [split; [discriminate | intros [_ E]; contradiction]|].
    split.
    + intros e' H. injection H as <-.
      split; [exact (Hstd e eq_refl) | reflexivity].
    + split; [discriminate|]. split; [exact Hout | exact Hobs].
Qed.

End Constructor.

(** With port 70000 the constructor throws before it looks at the path,
    which is no directory here. *)
Lemma constructor_outcomes_witness :
  exists what,
    GitRepo_ctor (G := site false true) "not a directory" free_ports
      far_port idle (site_start false true Toy.mirror)
    = Build_run (Throw (std_exception what))
        (site_start false true Toy.mirror) [].
Proof.
  apply (proj1 (constructor_outcomes (G := site false true)
                  "not a directory" free_ports far_port idle
                  (site_start false true Toy.mirror))).
  unfold port_usable. simpl. lia.
Defined.

Lemma constructor_refuses_missing_directory_witness :
  GitRepo_init options = Some Toy.gitrepo
  /\ events (GitRepo_ctor (G := site false true) "not a directory"
               free_ports options idle (site_start false true Toy.mirror))
     = [EvIsDirectory "sync/" false].
Proof.
  split; [reflexivity|].
  rewrite (constructor_refuses_missing_directory
             (G := site false true) "not a directory" free_ports options
             idle Toy.gitrepo (site_start false true Toy.mirror)).
  - reflexivity.
  - unfold port_usable, free_ports; simpl; lia.
  - reflexivity.
  - reflexivity.
Defined.

Lemma constructor_clones_when_no_repository_witness :
  result (GitRepo_ctor (G := site true false) "not a directory"
            free_ports options idle (site_start true false Toy.mirror))
  = Return (Toy.gitrepo, listening).
Proof.
  assert (Hx : error (@git_repository_open_ext (site true false)
                        (repo (site_start true false Toy.mirror))
                        (root Toy.gitrepo)) <> 0%Z)
    by (simpl; discriminate).
  assert (Hport : port_usable free_ports options)
    by (unfold port_usable, free_ports; simpl; lia).
  destruct (constructor_clones_when_no_repository (G := site true false)
              "not a directory" free_ports options idle Toy.gitrepo
              (site_start true false Toy.mirror) Hport eq_refl eq_refl Hx)
    as (_ & _ & Hret & _).
  apply Hret. simpl. lia.
Defined.

Lemma constructor_releases_on_failed_update_witness :
  GitRepo_ctor (G := site true true) "not a directory" free_ports options
    idle (site_start true true Toy.offline)
  = Build_run (Throw (runtime_error "failed to resolve address"))
      (@Build_state (site true true) Toy.offline
         "failed to resolve address" [] false)
      [EvIsDirectory "sync/" true;
       EvCall (call_repository_open_ext "sync/") 0;
       EvLog spdlog_info GIT_REPO_EXISTS [];
       EvCall (call_repository_open "sync/") 0;
       EvLog spdlog_info GIT_REPO_CHECKING_UPDATES [];
       EvCall (call_remote_lookup "origin") 0;
       EvCall call_remote_fetch (-1);
       EvCall call_repository_free 0].
Proof.
  assert (Hport : port_usable free_ports options)
    by (unfold port_usable, free_ports; simpl; lia).
  destruct (constructor_releases_on_failed_update (G := site true true)
              "not a directory" free_ports options idle Toy.gitrepo
              (site_start true true Toy.offline) Hport eq_refl eq_refl
              eq_refl)
    as [_ Hopened].
  assert (Hok : (0 <= error (@git_repository_open (site true true)
                               (repo (site_start true true Toy.offline))
                               (root Toy.gitrepo)))%Z)
    by (simpl; lia).
  destruct (Hopened Hok
              (Throw (runtime_error "failed to resolve address"))
              (@Build_state (site true true) Toy.offline
                 "failed to resolve address" [] true)
              [EvCall (call_remote_lookup "origin") 0;
               EvCall call_remote_fetch (-1)]
              eq_refl) as (_ & _ & Hthrow).
  exact (Hthrow _ eq_refl).
Defined.

(** ** The accept loop and the read *)

Section AcceptLoop.
Context {G : LibGit2} {Obs : IGitRepoObserver}.

Lemma read_done_length (l : list socket) n soc :
  nth_error l n = Some soc ->
  S (length (firstn n l ++ skipn (S n) l)) = length l.
Proof.
  revert n. induction l as [|x l IH]; intros [|n] H; try discriminate.
  - reflexivity.
  - cbn [firstn skipn app length]. f_equal. apply IH. exact H.
Qed.

(** Under the schedule in which each read follows its accept, the
    sockets served are those of the accepts that succeeded, and the
    [io_context] is back to the waiting accept. *)
Lemma served_sequential completions :
  served true (sequential completions) listening
  = (map soc (filter (fun a => (accept_ec a =? 0)%Z) completions),
     listening).
Proof.
  induction completions as [|a rest IH]; [reflexivity|].
  unfold sequential in *. cbn [flat_map filter].
  destruct (accept_ec a =? 0)%Z eqn:E.
  - cbn [app served listening WebhookEndpoint.DoAccept Asio.async_accept
           Asio.accept_pending idle].
    unfold accept_step. rewrite E.
    cbn [served WebhookEndpoint.DoAccept Asio.async_accept
           Asio.async_read_some Asio.accept_done Asio.reads_pending idle
           app nth_error].
    change (Asio.read_done 0 _) with listening.
    rewrite IH. reflexivity.
  - cbn [app served listening WebhookEndpoint.DoAccept Asio.async_accept
           Asio.accept_pending idle].
    unfold accept_step. rewrite E.
    change (WebhookEndpoint.DoAccept (Asio.accept_done _)) with listening.
    exact IH.
Qed.

Lemma sequential_acknowledgements (ev : event) completions :
  map (fun _ => ev)
      (filter read_ok
         (map soc (filter (fun a => (accept_ec a =? 0)%Z) completions)))
  = map (fun _ => ev) (filter reaches_write completions).
Proof.
  induction completions as [|a rest IH]; [reflexivity|].
  unfold reaches_write, read_ok in *. cbn [filter].
  destruct (accept_ec a =? 0)%Z; cbn [andb map filter]; [|exact IH].
  destruct (read_ec (soc a) =? 0)%Z; cbn [map]; rewrite IH; reflexivity.
Qed.

Lemma sequential_writes completions :
  Forall (fun a => reaches_write a = true -> write_ec (soc a) = 0%Z)
         completions ->
  Forall (fun soc => read_ok soc = true -> write_ec soc = 0%Z)
         (map soc (filter (fun a => (accept_ec a =? 0)%Z) completions)).
Proof.
  intros H. induction H as [|a rest Ha Hrest IH]; [constructor|].
  unfold reaches_write, read_ok in *. cbn [filter].
  destruct (accept_ec a =? 0)%Z; [|exact IH].
  cbn [map]. constructor; [exact Ha | exact IH].
Qed.

(** X14: with the base [Callback], the [io_context] goes through every
    completion, in whatever order accepts and reads complete: a failed
    accept and a failed read are passed over without a trace, every
    socket whose read completes with success is sent one
    acknowledgement, nothing else is written, and the state is unchanged
    (given that those writes succeed).  In particular, with the acceptor
    open and each read completing after its accept, every connection
    whose accept and read succeeded is acknowledged once and the accept
    waits again. *)
Theorem accept_loop_acknowledges_each_read s :
  (forall schedule io,
     Forall (fun soc => read_ok soc = true -> write_ec soc = 0%Z)
            (fst (served (acceptor_is_open s) schedule io)) ->
     WebhookEndpoint.serve WebhookEndpoint.Callback schedule io s =
     Build_run (Return (snd (served (acceptor_is_open s) schedule io))) s
       (map (fun _ => EvWrite (Asio.string_literal acknowledgement))
            (filter read_ok
                    (fst (served (acceptor_is_open s) schedule io)))))
  /\ (forall completions,
        acceptor_is_open s = true ->
        Forall (fun a => reaches_write a = true -> write_ec (soc a) = 0%Z)
               completions ->
        WebhookEndpoint.serve WebhookEndpoint.Callback
          (sequential completions) listening s =
        Build_run (Return listening) s
          (map (fun _ => EvWrite (Asio.string_literal acknowledgement))
               (filter reaches_write completions))).
Proof.
  assert (Hgen : forall schedule io,
     Forall (fun soc => read_ok soc = true -> write_ec soc = 0%Z)
            (fst (served (acceptor_is_open s) schedule io)) ->
     WebhookEndpoint.serve WebhookEndpoint.Callback schedule io s =
     Build_run (Return (snd (served (acceptor_is_open s) schedule io))) s
       (map (fun _ => EvWrite (Asio.string_literal acknowledgement))
            (filter read_ok
                    (fst (served (acceptor_is_open s) schedule io))))).
  { induction schedule as [|[a|n] rest IH]; intros io Hw.
    - reflexivity.
    - cbn [served] in *. destruct (Asio.accept_pending io) eqn:Hp.
      + rewrite (serve_accept _ a rest io s Hp). exact (IH _ Hw).
      + rewrite (serve_accept_idle _ a rest io s Hp). exact (IH _ Hw).
    - cbn [served] in *.
      destruct (nth_error (Asio.reads_pending io) n) as [soc0|] eqn:Hn.
      + cbn [fst snd] in *. inversion Hw as [|? ? Hsoc Hrest]; subst.
        rewrite (serve_read _ n soc0 rest io s Hn).
        cbn [filter]. unfold read_ok in Hsoc |- * at 1.
        destruct (Z.eqb_spec (read_ec soc0) 0) as [Hr|Hr].
        * assert (Hdo : WebhookEndpoint.DoReadHeader
                          WebhookEndpoint.Callback soc0 s
                        = Build_run (Return tt) s
                            [EvWrite (Asio.string_literal acknowledgement)]).
          { rewrite DoReadHeader_run by exact Hr.
            rewrite Hsoc by reflexivity. reflexivity. }
          rewrite (bind_run_Return _ _ _ _ _ _ Hdo), (IH _ Hrest).
          reflexivity.
        * rewrite (bind_run_Return _ _ _ _ _ _
                     (DoReadHeader_failed_read _ soc0 s Hr)), (IH _ Hrest).
          reflexivity.
      + rewrite (serve_read_idle _ n rest io s Hn). exact (IH _ Hw). }
  split; [exact Hgen|].
  intros completions Hopen Hw.
  rewrite Hgen; rewrite Hopen, served_sequential; cbn [fst snd].
  - rewrite sequential_acknowledgements. reflexivity.
  - apply sequential_writes. exact Hw.
Qed.

(** X15: [DoReadHeader] dispatches to the callback only after a read
    and a write that both succeeded.  A failed read is dropped with no
    write and no dispatch; after a failed write the [asio::system_error]
    leaves the handler and the callback is never run. *)
Theorem DoReadHeader_dispatches_after_read_and_write cb soc s :
  (read_ec soc <> 0%Z ->
   WebhookEndpoint.DoReadHeader cb soc s = Build_run (Return tt) s [])
  /\ (read_ec soc = 0%Z -> write_ec soc <> 0%Z ->
      WebhookEndpoint.DoReadHeader cb soc s =
      Build_run (Throw (system_error "write")) s
        [EvWrite (Asio.string_literal acknowledgement)])
  /\ (read_ec soc = 0%Z -> write_ec soc = 0%Z ->
      WebhookEndpoint.DoReadHeader cb soc s =
      prepend [EvWrite (Asio.string_literal acknowledgement)]
              (cb (handed_payload soc) s)).
Proof.
  split; [exact (DoReadHeader_failed_read cb soc s)|]. split.
  - intros Hr Hw. rewrite (DoReadHeader_run cb soc s Hr).
    apply Z.eqb_neq in Hw. rewrite Hw. reflexivity.
  - intros Hr Hw. rewrite (DoReadHeader_run cb soc s Hr), Hw. reflexivity.
Qed.

End AcceptLoop.

Lemma accept_loop_acknowledges_each_read_witness :
  WebhookEndpoint.serve (G := Toy.libgit2) WebhookEndpoint.Callback
    [ Asio.accept_completes
        {| accept_ec := 0;
           soc := {| read_ec := 0; incoming := "ping"; write_ec := 0 |} |};
      Asio.accept_completes
        {| accept_ec := 1;
           soc := {| read_ec := 0; incoming := "lost"; write_ec := 0 |} |};
      Asio.accept_completes
        {| accept_ec := 0;
           soc := {| read_ec := 2; incoming := ""; write_ec := 0 |} |};
      Asio.accept_completes
        {| accept_ec := 0;
           soc := {| read_ec := 0; incoming := "pong"; write_ec := 0 |} |};
      Asio.read_completes 2; Asio.read_completes 1; Asio.read_completes 0 ]
    listening (Toy.start Toy.mirror [])
  = Build_run (Return listening) (Toy.start Toy.mirror [])
      [EvWrite (Asio.string_literal acknowledgement);
       EvWrite (Asio.string_literal acknowledgement)].
Proof.
  apply (proj1 (accept_loop_acknowledges_each_read (G := Toy.libgit2)
                  (Toy.start Toy.mirror []))).
  repeat constructor.
Defined.

(** ** The payload the handler sees *)

Section PayloadWindow.
Context {G : LibGit2} {Obs : IGitRepoObserver}.

Lemma substring_0_min (k : nat) (str : string) :
  String.substring 0 (Nat.min (String.length str) k) str
  = String.substring 0 k str.
Proof.
  revert k; induction str as [|c str IH]; intros [|k]; simpl;
    try reflexivity.
  now rewrite IH.
Qed.

Lemma substring_fill (k n m : nat) (c : ascii) :
  n + m <= k ->
  String.substring n m (Std.string_fill k c) = Std.string_fill m c.
Proof.
  revert n m; induction k as [|k IH]; intros n m Hle.
  - assert (n = 0) by lia. assert (m = 0) by lia. subst. reflexivity.
  - destruct n as [|n]; destruct m as [|m]; cbn [Std.string_fill String.substring].
    + reflexivity.
    + rewrite IH by lia. reflexivity.
    + rewrite (IH n 0) by lia. reflexivity.
    + rewrite IH by lia. reflexivity.
Qed.

(** The payload: the first 32 bytes read, the rest of the buffer still
    filled with [char(255)], and the NUL. *)
Lemma handed_payload_shape soc :
  handed_payload soc
  = (String.substring 0 32 (incoming soc)
     ++ Std.string_fill (32 - Nat.min (String.length (incoming soc)) 32) xFF
     ++ String Ascii.zero EmptyString)%string.
Proof.
  unfold handed_payload, Std.push_back, Asio.read_some.
  change (String.length (Std.string_fill (Std.size_of_char " ")
                                          (Std.char_of_int 255))) with 32.
  rewrite substring_0_min.
  rewrite (substring_fill 32 _ _ (Std.char_of_int 255)) by lia.
  rewrite append_assoc. reflexivity.
Qed.

Lemma chars_app (a b : string) : chars (a ++ b)%string = chars a ++ chars b.
Proof. induction a; simpl; [reflexivity | now rewrite IHa]. Qed.

Lemma chars_fill (n : nat) (c ch : ascii) :
  In ch (chars (Std.string_fill n c)) -> ch = c.
Proof.
  induction n as [|n IH]; simpl; [contradiction|].
  intros [H|H]; [congruence | now apply IH].
Qed.

Lemma substring_of_app_r (needle a b : string) :
  substring_of needle a -> substring_of needle (a ++ b)%string.
Proof.
  intros [pre [post H]]. exists pre, (post ++ b)%string.
  rewrite H, !append_assoc. reflexivity.
Qed.

(** A needle that begins in [a ++ b] and shares no character with [b]
    lies within [a]. *)
Lemma prefix_within (needle a b post : string) :
  (needle ++ post)%string = (a ++ b)%string ->
  (forall ch, In ch (chars needle) -> ~ In ch (chars b)) ->
  exists post', a = (needle ++ post')%string.
Proof.
  revert a. induction needle as [|c needle IH]; intros a H Hfree.
  - exists a. reflexivity.
  - destruct a as [|x a]; simpl in H.
    + exfalso. apply (Hfree c); [left; reflexivity|].
      rewrite <- H. left. reflexivity.
    + injection H as Hc Hrest. subst x.
      destruct (IH a Hrest) as [post' ->].
      * intros ch Hch. apply Hfree. right. exact Hch.
      * exists post'. reflexivity.
Qed.

Lemma substring_of_app_free (needle a b : string) :
  substring_of needle (a ++ b)%string ->
  (forall ch, In ch (chars needle) -> ~ In ch (chars b)) ->
  substring_of needle a.
Proof.
  intros [pre [post H]] Hfree. revert a H.
  induction pre as [|y pre IH]; intros a H.
  - simpl in H. symmetry in H.
    destruct (prefix_within needle a b post H Hfree) as [post' ->].
    exists ""%string, post'. reflexivity.
  - destruct a as [|x a]; simpl in H.
    + destruct needle as [|c needle].
      * exists ""%string, ""%string. reflexivity.
      * exfalso. apply (Hfree c); [left; reflexivity|].
        rewrite H. simpl. right. rewrite chars_app. apply in_or_app.
        right. left. reflexivity.
    + injection H as Hx Hrest. subst x.
      destruct (IH a Hrest) as [pre' [post' ->]].
      exists (String y pre'), post'. reflexivity.
Qed.

Lemma Callback_rejected this payload s :
  ~ substring_of (token this) payload ->
  GitRepoImpl.Callback this payload s =
  Build_run (Return tt) s
    [EvLog spdlog_info GIT_REPO_WEBHOOK_TRIGGERED [root this];
     EvLog spdlog_error GIT_REPO_WEBHOOK_NO_TOKEN []].
Proof.
  intros Hno. apply find_npos in Hno.
  unfold GitRepoImpl.Callback. unfold bind at 1.
  cbn [spdlog emit result final events]. rewrite Hno. reflexivity.
Qed.

Lemma Callback_authorised_logs_no_refusal this payload s :
  substring_of (token this) payload ->
  existsb is_no_token_log (events (GitRepoImpl.Callback this payload s))
  = false.
Proof.
  intros Hsub. rewrite (Callback_authorised this payload s Hsub).
  unfold prepend. cbn [events app existsb is_no_token_log orb].
  apply emits_none.
  assert (Hcall : forall e, is_step_call e = true ->
                    negb (is_no_token_log e) = true)
    by (intros [] ?; simpl in *; congruence).
  refine (_ s).
  change (emits (fun e => negb (is_no_token_log e))
            (try_catch
               (GitRepoImpl.Fetch this ;;
                diff <- GitRepoImpl.GetFilesDiff ;;
                GitRepoImpl.ResetToFetchHead ;;
                spdlog spdlog_info GIT_REPO_FINISHED_UPDATING [] ;;
                if negb (GitRepoImpl.empty (removed diff))
                   || negb (GitRepoImpl.empty (added diff))
                then (obss <- gets observers ;;
                      GitRepoImpl.notify this obss diff)
                else ret tt)
               (fun what =>
                  spdlog spdlog_error GIT_REPO_UPDATE_EXCEPT [what]))).
  apply emits_try_catch; [|intros what; now apply emits_emit].
  apply emits_bind; [apply emits_git_step, git_step_Fetch; exact Hcall|].
  intros _.
  apply emits_bind;
    [apply emits_git_step, git_step_GetFilesDiff; exact Hcall|].
  intros diff.
  apply emits_bind;
    [apply emits_git_step, git_step_ResetToFetchHead; exact Hcall|].
  intros _.
  apply emits_bind; [now apply emits_emit|]. intros _.
  destruct (negb _ || negb _); [|apply emits_ret].
  apply emits_bind; [apply emits_gets|]. intros obss.
  apply emits_notify. intros [] ?; simpl in *; congruence.
Qed.

(** X16: the payload handed to the handler is the first 32 bytes read,
    then what is left of the buffer's fill characters, then a NUL; so for
    a token that holds neither the fill character nor a NUL, a trigger is
    admitted exactly when the token lies within the first 32 bytes the
    read delivered, and is refused (and logged as such) otherwise. *)
Theorem token_is_sought_in_first_32_bytes this soc s :
  (forall ch, In ch (chars (token this)) -> ch <> xFF /\ ch <> Ascii.zero) ->
  handed_payload soc
  = (String.substring 0 32 (incoming soc)
     ++ Std.string_fill (32 - Nat.min (String.length (incoming soc)) 32) xFF
     ++ String Ascii.zero EmptyString)%string
  /\ (substring_of (token this) (handed_payload soc)
      <-> substring_of (token this) (String.substring 0 32 (incoming soc)))
  /\ (existsb is_no_token_log
         (events (GitRepoImpl.Callback this (handed_payload soc) s)) = true
      <-> ~ substring_of (token this)
                         (String.substring 0 32 (incoming soc))).
Proof.
  intros Hfree.
  assert (Hiff : substring_of (token this) (handed_payload soc)
                 <-> substring_of (token this)
                                  (String.substring 0 32 (incoming soc))).
  { rewrite handed_payload_shape. split.
    - intros H. apply (substring_of_app_free _ _ _ H).
      intros ch Hch Hin. destruct (Hfree ch Hch) as [HF HN].
      rewrite chars_app in Hin. apply in_app_or in Hin.
      destruct Hin as [Hin|Hin].
      + apply chars_fill in Hin. contradiction.
      + simpl in Hin. destruct Hin as [Hin|[]]. congruence.
    - apply substring_of_app_r. }
  split; [apply handed_payload_shape|]. split; [exact Hiff|].
  split.
  - intros Hlog Hsub. apply Hiff in Hsub.
    rewrite (Callback_authorised_logs_no_refusal _ _ s Hsub) in Hlog.
    discriminate.
  - intros Hno.
    assert (Hno' : ~ substring_of (token this) (handed_payload soc))
      by (intros H; apply Hno, Hiff, H).
    rewrite (Callback_rejected _ _ s Hno'). reflexivity.
Qed.

End PayloadWindow.

Lemma token_is_sought_in_first_32_bytes_witness :
  existsb is_no_token_log
    (events (GitRepoImpl.Callback (Obs := Toy.quiet) Toy.gitrepo
               (handed_payload
                  {| read_ec := 0;
                     incoming :=
                       "POST /webhooks/multirole/cards?t=s3cret HTTP/1.1";
                     write_ec := 0 |})
               (Toy.start Toy.mirror [])))
  = true.
Proof.
  assert (Hfree : forall ch, In ch (chars (token Toy.gitrepo)) ->
                    ch <> xFF /\ ch <> Ascii.zero).
  { simpl. intros ch H.
    repeat (destruct H as [<-|H]; [split; discriminate|]).
    contradiction. }
  apply (proj2 (proj2 (token_is_sought_in_first_32_bytes (Obs := Toy.quiet)
                         Toy.gitrepo
                         {| read_ec := 0;
                            incoming :=
                              "POST /webhooks/multirole/cards?t=s3cret HTTP/1.1";
                            write_ec := 0 |}
                         (Toy.start Toy.mirror []) Hfree))).
  apply find_npos. reflexivity.
Defined.

(** ** What can leave the handler *)

Section Containment.
Context {G : LibGit2} {Obs : IGitRepoObserver}.

Lemma keeps_ret {A} (a : A) : keeps_registry (ret a).
Proof. intros s; simpl; repeat split; discriminate. Qed.

Lemma keeps_gets {A} (f : state -> A) : keeps_registry (gets f).
Proof. intros s; simpl; repeat split; discriminate. Qed.

Lemma keeps_emit e : keeps_registry (emit e).
Proof. intros s; simpl; repeat split; discriminate. Qed.

Lemma keeps_throw {A} e : keeps_registry (throw (A := A) e).
Proof. intros s; simpl; repeat split; discriminate. Qed.

Lemma keeps_bind {A B} (m : M A) (k : A -> M B) :
  keeps_registry m -> (forall a, keeps_registry (k a)) ->
  keeps_registry (bind m k).
Proof.
  intros Hm Hk s. destruct (Hm s) as (Ho & Ha & Hr). unfold bind.
  destruct (result (m s)) as [a|e|]; cbn [result final].
  - destruct (Hk a (final (m s))) as (Ho' & Ha' & Hr').
    repeat split; congruence.
  - repeat split; try assumption. discriminate.
  - contradiction.
Qed.

Lemma keeps_try_catch {A} (body : M A) (h : string -> M A) :
  keeps_registry body -> (forall what, keeps_registry (h what)) ->
  keeps_registry (try_catch body h).
Proof.
  intros Hb Hh s. destruct (Hb s) as (Ho & Ha & Hr). unfold try_catch.
  destruct (result (body s)) as [a|[what|]|] eqn:E; cbn [result final];
    try (rewrite E; repeat split; try assumption; discriminate);
    try contradiction.
  destruct (Hh what (final (body s))) as (Ho' & Ha' & Hr').
  repeat split; congruence.
Qed.

Lemma keeps_git_step {A} (m : M A) : git_step m -> keeps_registry m.
Proof.
  intros Hm s. destruct (Hm s) as (_ & Ho & Ha & Hr).
  repeat split; try assumption.
  intros E. rewrite E in Hr. exact Hr.
Qed.

Lemma keeps_notify this obss diff :
  keeps_registry (GitRepoImpl.notify this obss diff).
Proof.
  induction obss as [|o obss IH]; [apply keeps_ret|].
  cbn [GitRepoImpl.notify]. apply keeps_bind; [|intros _; exact IH].
  unfold GitRepoImpl.invoke. apply keeps_bind; [apply keeps_emit|].
  intros _. destruct (OnDiff o (root this) diff);
    [apply keeps_throw | apply keeps_ret].
Qed.

Lemma throws_only_never {A} P (m : M A) :
  (forall s e, result (m s) <> Throw e) -> throws_only P m.
Proof. intros H s e E. destruct (H s e E). Qed.

Lemma throws_only_bind {A B} P (m : M A) (k : A -> M B) :
  throws_only P m -> (forall a, throws_only P (k a)) ->
  throws_only P (bind m k).
Proof.
  intros Hm Hk s e. unfold bind.
  destruct (result (m s)) as [a|e'|] eqn:E; cbn [result].
  - apply Hk.
  - intros H. injection H as <-. exact (Hm s e' E).
  - discriminate.
Qed.

Lemma throws_only_git_step {A} (P : exception -> Prop) (m : M A) :
  (forall what, P (std_exception what)) -> git_step m -> throws_only P m.
Proof.
  intros HP Hm s e E. destruct (Hm s) as (_ & _ & _ & Hr).
  rewrite E in Hr. destruct Hr as [what ->]. apply HP.
Qed.

Lemma throws_only_notify (P : exception -> Prop) this obss diff :
  (forall o ex, OnDiff o (root this) diff = Some ex -> P ex) ->
  throws_only P (GitRepoImpl.notify this obss diff).
Proof.
  intros HP. induction obss as [|o obss IH].
  - apply throws_only_never. discriminate.
  - cbn [GitRepoImpl.notify]. apply throws_only_bind; [|intros _; exact IH].
    unfold GitRepoImpl.invoke. apply throws_only_bind.
    + apply throws_only_never. discriminate.
    + intros _. destruct (OnDiff o (root this) diff) as [ex|] eqn:E.
      * intros s e H. injection H as <-. exact (HP o ex E).
      * apply throws_only_never. discriminate.
Qed.

(** What the handler can throw comes from an observer and is no
    [std::exception]; and it keeps the registry. *)
Lemma Callback_settles this payload :
  keeps_registry (GitRepoImpl.Callback this payload)
  /\ throws_only
       (fun e => e = foreign_exception
                 /\ exists o diff, OnDiff o (root this) diff = Some e)
       (GitRepoImpl.Callback this payload).
Proof.
  split.
  - unfold GitRepoImpl.Callback, spdlog.
    apply keeps_bind; [apply keeps_emit|]. intros _.
    destruct (Std.is_npos _); [apply keeps_emit|].
    apply keeps_try_catch; [|intros what; apply keeps_emit].
    apply keeps_bind; [apply keeps_git_step, git_step_Fetch|]. intros _.
    apply keeps_bind; [apply keeps_git_step, git_step_GetFilesDiff|].
    intros diff.
    apply keeps_bind; [apply keeps_git_step, git_step_ResetToFetchHead|].
    intros _.
    apply keeps_bind; [apply keeps_emit|]. intros _.
    destruct (negb _ || negb _); [|apply keeps_ret].
    apply keeps_bind; [apply keeps_gets|]. intros obss.
    apply keeps_notify.
  - set (P := fun e : exception =>
                (exists what, e = std_exception what)
                \/ exists o diff, OnDiff o (root this) diff = Some e).
    assert (Hstd : forall what, P (std_exception what))
      by (intros what; left; eexists; reflexivity).
    unfold GitRepoImpl.Callback, spdlog.
    apply throws_only_bind; [apply throws_only_never; discriminate|].
    intros _.
    destruct (Std.is_npos _); [apply throws_only_never; discriminate|].
    intros s e. unfold try_catch.
    match goal with
    | |- context [result (?body s)] =>
        assert (Hbody : throws_only P body)
    end.
    { apply throws_only_bind;
        [apply throws_only_git_step, git_step_Fetch; exact Hstd|].
      intros _.
      apply throws_only_bind;
        [apply throws_only_git_step, git_step_GetFilesDiff; exact Hstd|].
      intros diff.
      apply throws_only_bind;
        [apply throws_only_git_step, git_step_ResetToFetchHead; exact Hstd|].
      intros _.
      apply throws_only_bind; [apply throws_only_never; discriminate|].
      intros _.
      destruct (negb _ || negb _); [|apply throws_only_never; discriminate].
      apply throws_only_bind; [apply throws_only_never; discriminate|].
      intros obss. apply throws_only_notify.
      intros o ex Hex. right. exists o, diff. exact Hex. }
    specialize (Hbody s).
    match goal with
    | |- context [result (?body s)] =>
        destruct (result (body s)) as [u|[what|]|] eqn:E
    end; cbn [result].
    + rewrite E. discriminate.
    + discriminate.
    + rewrite E. intros H. injection H as <-.
      split; [reflexivity|].
      destruct (Hbody foreign_exception eq_refl) as [[what Hw]|Hraise];
        [discriminate | exact Hraise].
    + rewrite E. discriminate.
Qed.

(** X17: no [std::exception] leaves the trigger handler, whatever
    libgit2 and the observers do: it returns, or it lets through an
    exception that is no [std::exception] and that an observer's
    [OnDiff] threw; it never ends undefined and leaves the observer list
    and the acceptor as they were.  With observers that throw only
    [std::exception]s it always returns. *)
Theorem Callback_contains_std_exceptions this payload s :
  (result (GitRepoImpl.Callback this payload s) = Return tt
   \/ (result (GitRepoImpl.Callback this payload s) = Throw foreign_exception
       /\ exists o diff, OnDiff o (root this) diff = Some foreign_exception))
  /\ observers (final (GitRepoImpl.Callback this payload s)) = observers s
  /\ acceptor_is_open (final (GitRepoImpl.Callback this payload s))
     = acceptor_is_open s
  /\ ((forall o diff, OnDiff o (root this) diff <> Some foreign_exception) ->
      result (GitRepoImpl.Callback this payload s) = Return tt).
Proof.
  destruct (Callback_settles this payload) as [Hkeep Hthrow].
  destruct (Hkeep s) as (Ho & Ha & Hr). specialize (Hthrow s).
  assert (Hcases :
    result (GitRepoImpl.Callback this payload s) = Return tt
    \/ (result (GitRepoImpl.Callback this payload s) = Throw foreign_exception
        /\ exists o diff, OnDiff o (root this) diff = Some foreign_exception)).
  { destruct (result (GitRepoImpl.Callback this payload s)) as [[]|e|].
    - left. reflexivity.
    - right. destruct (Hthrow e eq_refl) as [-> Hraise]. split; [reflexivity|].
      exact Hraise.
    - contradiction. }
  split; [exact Hcases|]. split; [exact Ho|]. split; [exact Ha|].
  intros Hnone. destruct Hcases as [H|[_ (o & diff & Hraise)]]; [exact H|].
  destruct (Hnone o diff Hraise).
Qed.

(** The handlers under a callback that always returns, keeps the
    acceptor as it is and writes nothing. *)
Lemma serve_all (cb : string -> M unit) :
  (forall payload s,
     result (cb payload s) = Return tt
     /\ acceptor_is_open (final (cb payload s)) = acceptor_is_open s
     /\ existsb is_write (events (cb payload s)) = false) ->
  forall schedule io s,
    Forall (fun soc => read_ok soc = true -> write_ec soc = 0%Z)
           (fst (served (acceptor_is_open s) schedule io)) ->
    result (WebhookEndpoint.serve cb schedule io s)
    = Return (snd (served (acceptor_is_open s) schedule io))
    /\ acceptor_is_open (final (WebhookEndpoint.serve cb schedule io s))
       = acceptor_is_open s
    /\ filter is_write (events (WebhookEndpoint.serve cb schedule io s))
       = map (fun _ => EvWrite (Asio.string_literal acknowledgement))
             (filter read_ok
                     (fst (served (acceptor_is_open s) schedule io))).
Proof.
  intros Hcb. induction schedule as [|[a|n] rest IH]; intros io s Hw.
  - simpl. auto.
  - cbn [served] in *. destruct (Asio.accept_pending io) eqn:Hp.
    + rewrite (serve_accept _ a rest io s Hp). exact (IH _ s Hw).
    + rewrite (serve_accept_idle _ a rest io s Hp). exact (IH _ s Hw).
  - cbn [served] in *.
    destruct (nth_error (Asio.reads_pending io) n) as [soc0|] eqn:Hn.
    + cbn [fst snd] in *. inversion Hw as [|? ? Hsoc Hrest]; subst.
      rewrite (serve_read _ n soc0 rest io s Hn).
      cbn [filter]. unfold read_ok in Hsoc |- * at 1.
      destruct (Z.eqb_spec (read_ec soc0) 0) as [Hr|Hr].
      * destruct (Hcb (handed_payload soc0) s) as (Hres & Hacc & Hnw).
        assert (Hdo : WebhookEndpoint.DoReadHeader cb soc0 s
                      = Build_run (Return tt)
                          (final (cb (handed_payload soc0) s))
                          (EvWrite (Asio.string_literal acknowledgement)
                           :: events (cb (handed_payload soc0) s))).
        { rewrite DoReadHeader_run by exact Hr.
          rewrite Hsoc by reflexivity. unfold prepend. rewrite Hres.
          reflexivity. }
        rewrite (bind_run_Return _ _ _ _ _ _ Hdo).
        rewrite <- Hacc in Hrest |- *.
        destruct (IH (Asio.read_done n io)
                     (final (cb (handed_payload soc0) s)) Hrest)
          as (IH1 & IH2 & IH3).
        unfold prepend. cbn [result final events].
        split; [exact IH1|]. split; [exact IH2|].
        cbn [app filter is_write map]. rewrite filter_app.
        rewrite (filter_none _ _ Hnw), IH3. reflexivity.
      * rewrite (bind_run_Return _ _ _ _ _ _
                   (DoReadHeader_failed_read _ soc0 s Hr)).
        rewrite prepend_nil. exact (IH _ s Hrest).
    + rewrite (serve_read_idle _ n rest io s Hn). exact (IH _ s Hw).
Qed.

(** Once the acceptor is closed, with a callback that leaves it closed
    and writes nothing, no more acknowledgements are sent than reads
    were waiting. *)
Lemma serve_closed (cb : string -> M unit) :
  (forall payload s,
     acceptor_is_open (final (cb payload s)) = acceptor_is_open s
     /\ existsb is_write (events (cb payload s)) = false) ->
  forall schedule io s,
    acceptor_is_open s = false ->
    length (filter is_write (events (WebhookEndpoint.serve cb schedule io s)))
    <= length (Asio.reads_pending io).
Proof.
  intros Hcb. induction schedule as [|[a|n] rest IH]; intros io s Hclosed.
  - simpl. lia.
  - destruct (Asio.accept_pending io) eqn:Hp.
    + rewrite (serve_accept _ a rest io s Hp), Hclosed.
      exact (IH (Asio.accept_done io) s Hclosed).
    + rewrite (serve_accept_idle _ a rest io s Hp). exact (IH io s Hclosed).
  - destruct (nth_error (Asio.reads_pending io) n) as [soc0|] eqn:Hn.
    2:{ rewrite (serve_read_idle _ n rest io s Hn). exact (IH io s Hclosed). }
    rewrite (serve_read _ n soc0 rest io s Hn).
    pose proof (read_done_length _ _ _ Hn) as Hlen.
    assert (Hrest : forall s0, acceptor_is_open s0 = false ->
              S (length (filter is_write
                           (events (WebhookEndpoint.serve cb rest
                                      (Asio.read_done n io) s0))))
              <= length (Asio.reads_pending io)).
    { intros s0 Hs0. specialize (IH (Asio.read_done n io) s0 Hs0).
      cbn [Asio.read_done Asio.reads_pending] in IH. lia. }
    destruct (Z.eqb_spec (read_ec soc0) 0) as [Hr|Hr].
    2:{ rewrite (bind_run_Return _ _ _ _ _ _
                   (DoReadHeader_failed_read _ soc0 s Hr)).
        rewrite prepend_nil. specialize (Hrest s Hclosed). lia. }
    unfold bind. rewrite (DoReadHeader_run cb soc0 s Hr).
    destruct (write_ec soc0 =? 0)%Z.
    2:{ cbn [result final events filter is_write length]. lia. }
    destruct (Hcb (handed_payload soc0) s) as (Hacc & Hnw).
    unfold prepend.
    destruct (cb (handed_payload soc0) s) as [[u|e|] s1 ev1];
      cbn [result final events app filter is_write length] in *;
      rewrite ?filter_app, (filter_none _ _ Hnw); cbn [app length];
      try lia.
    apply Hrest. congruence.
Qed.

(** X18: with observers that throw only [std::exception]s, nothing that
    happens in a trigger stops the handlers of a [GitRepo]: whatever
    libgit2 answers (a failed fetch, diff or reset included), whether
    the token is there or not, and in whatever order accepts and reads
    complete, the [io_context] goes through every completion and
    returns, the acceptor is as it was, and exactly one acknowledgement
    has been sent to every socket whose read completed with success
    (given that those writes succeed).  In particular, with the acceptor
    open and each read completing after its accept, every connection
    whose accept and read succeeded is acknowledged once and the accept
    waits again. *)
Theorem accept_loop_survives_every_trigger this s :
  (forall o diff, OnDiff o (root this) diff <> Some foreign_exception) ->
  (forall schedule io,
     Forall (fun soc => read_ok soc = true -> write_ec soc = 0%Z)
            (fst (served (acceptor_is_open s) schedule io)) ->
     result (WebhookEndpoint.serve (GitRepoImpl.Callback this) schedule io s)
     = Return (snd (served (acceptor_is_open s) schedule io))
     /\ acceptor_is_open
          (final (WebhookEndpoint.serve (GitRepoImpl.Callback this)
                    schedule io s)) = acceptor_is_open s
     /\ filter is_write
          (events (WebhookEndpoint.serve (GitRepoImpl.Callback this)
                     schedule io s))
        = map (fun _ => EvWrite (Asio.string_literal acknowledgement))
              (filter read_ok
                      (fst (served (acceptor_is_open s) schedule io))))
  /\ (forall completions,
        acceptor_is_open s = true ->
        Forall (fun a => reaches_write a = true -> write_ec (soc a) = 0%Z)
               completions ->
        result (WebhookEndpoint.serve (GitRepoImpl.Callback this)
                  (sequential completions) listening s)
        = Return listening
        /\ acceptor_is_open
             (final (WebhookEndpoint.serve (GitRepoImpl.Callback this)
                       (sequential completions) listening s)) = true
        /\ filter is_write
             (events (WebhookEndpoint.serve (GitRepoImpl.Callback this)
                        (sequential completions) listening s))
           = map (fun _ => EvWrite (Asio.string_literal acknowledgement))
                 (filter reaches_write completions)).
Proof.
  intros Hnone.
  assert (Hcb : forall payload s0,
    result (GitRepoImpl.Callback this payload s0) = Return tt
    /\ acceptor_is_open (final (GitRepoImpl.Callback this payload s0))
       = acceptor_is_open s0
    /\ existsb is_write (events (GitRepoImpl.Callback this payload s0))
       = false).
  { intros payload s0.
    destruct (Callback_settles this payload) as [Hkeep Hthrow].
    destruct (Hkeep s0) as (_ & Ha & Hr). specialize (Hthrow s0).
    split; [|split; [exact Ha|]].
    - destruct (result (GitRepoImpl.Callback this payload s0)) as [[]|e|].
      + reflexivity.
      + destruct (Hthrow e eq_refl) as [-> (o & diff & Hraise)].
        destruct (Hnone o diff Hraise).
      + contradiction.
    - apply emits_none. exact (Callback_never_writes this payload s0). }
  split.
  - intros schedule io Hw.
    exact (serve_all (GitRepoImpl.Callback this) Hcb schedule io s Hw).
  - intros completions Hopen Hw.
    pose proof (serve_all (GitRepoImpl.Callback this) Hcb
                  (sequential completions) listening s) as Hall.
    rewrite Hopen, served_sequential in Hall. cbn [fst snd] in Hall.
    rewrite sequential_acknowledgements in Hall.
    apply Hall. apply sequential_writes. exact Hw.
Qed.

(** X13: closing the acceptor ends the accepting, not the reading.
    After [Stop] the accept handler starts no read and no further
    accept, whatever it is handed.  A read that was waiting is still
    served when it completes: the read handler does not look at the
    acceptor, so the connection is acknowledged and its payload
    dispatched.  So after [Stop] a [GitRepo] sends at most as many
    acknowledgements as reads were waiting, whatever completes. *)
Theorem Stop_ends_accepting_not_reading this io s :
  (forall cb a,
     (WebhookEndpoint.Stop ;;
      WebhookEndpoint.serve cb [Asio.accept_completes a] io) s
     = Build_run (Return (Asio.accept_done io)) (set_acceptor false s) [])
  /\ (forall cb n soc,
        nth_error (Asio.reads_pending io) n = Some soc ->
        read_ec soc = 0%Z -> write_ec soc = 0%Z ->
        (WebhookEndpoint.Stop ;;
         WebhookEndpoint.serve cb [Asio.read_completes n] io) s
        = prepend [EvWrite (Asio.string_literal acknowledgement)]
            ((cb (handed_payload soc) ;; ret (Asio.read_done n io))
               (set_acceptor false s)))
  /\ (forall schedule,
        length
          (filter is_write
             (events ((WebhookEndpoint.Stop ;;
                       WebhookEndpoint.serve (GitRepoImpl.Callback this)
                         schedule io) s)))
        <= length (Asio.reads_pending io)).
Proof.
  assert (Hstop : forall A (k : M A),
            (WebhookEndpoint.Stop ;; k) s = k (set_acceptor false s)).
  { intros A k.
    rewrite (bind_run_Return WebhookEndpoint.Stop _ s tt
               (set_acceptor false s) [] eq_refl).
    apply prepend_nil. }
  split; [|split].
  - intros cb a. rewrite Hstop.
    destruct (Asio.accept_pending io) eqn:Hp.
    + rewrite (serve_accept _ a [] io _ Hp). reflexivity.
    + rewrite (serve_accept_idle _ a [] io _ Hp).
      destruct io as [p l]. cbn [Asio.accept_pending] in Hp. subst p.
      reflexivity.
  - intros cb n soc0 Hn Hr Hw. rewrite Hstop.
    rewrite (serve_read _ n soc0 [] io _ Hn).
    unfold bind at 1. rewrite (DoReadHeader_run cb soc0 _ Hr), Hw.
    cbn [Z.eqb]. unfold prepend, bind, WebhookEndpoint.serve.
    cbn [Asio.io_context_run].
    destruct (cb (handed_payload soc0) (set_acceptor false s))
      as [[u|e|] s1 ev1]; cbn [result final events ret app];
      rewrite ?app_nil_r; reflexivity.
  - intros schedule. rewrite Hstop.
    apply (serve_closed (GitRepoImpl.Callback this)); [|reflexivity].
    intros payload s0.
    destruct (Callback_settles this payload) as [Hkeep _].
    destruct (Hkeep s0) as (_ & Ha & _).
    split; [exact Ha|].
    apply emits_none. exact (Callback_never_writes this payload s0).
Qed.

End Containment.

Lemma accept_loop_survives_every_trigger_witness :
  result
    (WebhookEndpoint.serve
       (GitRepoImpl.Callback (Obs := Toy.raising) Toy.gitrepo)
       (sequential
          [ {| accept_ec := 0;
               soc := {| read_ec := 0; incoming := "GET /s3cret";
                         write_ec := 0 |} |};
            {| accept_ec := 0;
               soc := {| read_ec := 0; incoming := "GET /guess";
                         write_ec := 0 |} |} ])
       listening (Toy.start Toy.offline [1; 2]))
  = Return listening.
Proof.
  assert (Hstd : forall o diff,
            @OnDiff Toy.raising o (root Toy.gitrepo) diff
            <> Some foreign_exception)
    by (intros o diff; simpl; destruct (Nat.eqb o 1); discriminate).
  apply (proj2 (accept_loop_survives_every_trigger (Obs := Toy.raising)
                  Toy.gitrepo (Toy.start Toy.offline [1; 2]) Hstd)).
  - reflexivity.
  - repeat constructor.
Defined.

(** A connection accepted before [Stop] whose read completes after it is
    acknowledged and triggers the handler. *)
Lemma Stop_ends_accepting_not_reading_witness :
  (WebhookEndpoint.Stop ;;
   WebhookEndpoint.serve
     (GitRepoImpl.Callback (Obs := Toy.quiet) Toy.gitrepo)
     [Asio.read_completes 0]
     (Asio.async_read_some
        {| read_ec := 0; incoming := "GET /nope"; write_ec := 0 |}
        listening))
    (Toy.start Toy.mirror [1; 2])
  = Build_run (Return listening)
      (set_acceptor false (Toy.start Toy.mirror [1; 2]))
      [EvWrite (Asio.string_literal acknowledgement);
       EvLog spdlog_info GIT_REPO_WEBHOOK_TRIGGERED ["sync/"%string];
       EvLog spdlog_error GIT_REPO_WEBHOOK_NO_TOKEN []].
Proof.
  rewrite (proj1 (proj2 (Stop_ends_accepting_not_reading
                           (Obs := Toy.quiet) Toy.gitrepo
                           (Asio.async_read_some
                              {| read_ec := 0; incoming := "GET /nope";
                                 write_ec := 0 |} listening)
                           (Toy.start Toy.mirror [1; 2])))
             _ 0 {| read_ec := 0; incoming := "GET /nope"; write_ec := 0 |}
             eq_refl eq_refl eq_refl).
  reflexivity.
Defined.

(** ** Credentials and the options the constructor reads *)

Lemma of_c_str_cut (s : string) : cut_at_NUL s (Std.of_c_str s).
Proof.
  unfold cut_at_NUL. induction s as [|c rest [IHn IHc]]; simpl.
  - split; [tauto | left; reflexivity].
  - destruct (Ascii.eqb_spec c Ascii.zero) as [->|Hc]; simpl.
    + split; [tauto|]. right. exists rest. reflexivity.
    + split; [intros [H|H]; [congruence | contradiction]|].
      destruct IHc as [<-|[post Hpost]].
      * left. reflexivity.
      * right. exists post. rewrite <- Hpost. reflexivity.
Qed.

Lemma of_c_str_without_NUL (s : string) :
  ~ In Ascii.zero (chars s) -> Std.of_c_str s = s.
Proof.
  induction s as [|c rest IH]; simpl; [reflexivity|].
  intros H. destruct (Ascii.eqb_spec c Ascii.zero) as [->|Hc].
  - destruct H. left. reflexivity.
  - rewrite IH; [reflexivity|]. intros Hin. apply H. right. exact Hin.
Qed.

(** X19: the credentials callback looks at nothing but the plaintext bit
    (bit 0) of the allowed types.  When the bit is clear it answers
    [GIT_EUSER] and writes no credential, whatever libgit2's constructor
    would have done; when it is set its answer is the one of
    [git_cred_userpass_plaintext_new] on the user name and password;
    and a [GitRepo]'s credentials, which hold no NUL, are handed over
    whole. *)
Theorem CredCb_follows_plaintext_bit {git_cred : Type}
    (new : string -> string -> Z * option git_cred) (aTypes : Z)
    (pl : Credentials) :
  (Z.testbit aTypes 0 = false -> CredCb new aTypes pl = (GIT_EUSER, None))
  /\ (Z.testbit aTypes 0 = true ->
      CredCb new aTypes pl
      = new (Std.of_c_str (fst pl)) (Std.of_c_str (snd pl)))
  /\ (forall opts this,
        GitRepo_init opts = Some this -> credPtr this = Some pl ->
        Z.testbit aTypes 0 = true ->
        CredCb new aTypes pl = new (fst pl) (snd pl)).
Proof.
  assert (Hland : Z.land GIT_CREDTYPE_USERPASS_PLAINTEXT aTypes
                  = if Z.testbit aTypes 0 then 1%Z else 0%Z).
  { unfold GIT_CREDTYPE_USERPASS_PLAINTEXT. rewrite Z.shiftl_0_r.
    rewrite Z.land_comm. change 1%Z with (Z.ones 1).
    rewrite Z.land_ones by lia. change (2 ^ 1)%Z with 2%Z.
    rewrite <- Z.bit0_mod. destruct (Z.testbit aTypes 0); reflexivity. }
  unfold CredCb. rewrite Hland.
  split; [|split].
  - intros ->. reflexivity.
  - intros ->. reflexivity.
  - intros opts this Hinit Hcred ->. cbn [Z.eqb].
    unfold GitRepo_init in Hinit.
    destruct (NormalizeDirPath _); [|discriminate].
    injection Hinit as <-. cbn [credPtr] in Hcred.
    destruct (credentials opts) as [[username password]|]; [|discriminate].
    injection Hcred as <-. cbn [fst snd].
    rewrite (of_c_str_without_NUL (Std.of_c_str username))
      by apply of_c_str_cut.
    rewrite (of_c_str_without_NUL (Std.of_c_str password))
      by apply of_c_str_cut.
    reflexivity.
Qed.

(** X20: the constructor reads every string option through its [data()]
    pointer, so each member is the option up to its first NUL: the
    token, the remote, the user name and the password hold no NUL and
    are the whole option only when it holds none; the path is the cut
    option followed by one slash, and the members are built only when
    the cut path is not empty. *)
Theorem constructor_cuts_options_at_NUL (opts : Options) (this : GitRepo) :
  GitRepo_init opts = Some this ->
  cut_at_NUL (webhookToken opts) (token this)
  /\ cut_at_NUL (opt_remote opts) (remote this)
  /\ (exists dir, cut_at_NUL (opt_path opts) dir
                  /\ dir <> ""%string
                  /\ root this = (dir ++ "/")%string)
  /\ match credentials opts, credPtr this with
     | Some (username, password), Some cred =>
         cut_at_NUL username (fst cred) /\ cut_at_NUL password (snd cred)
     | None, None => True
     | _, _ => False
     end.
Proof.
  unfold GitRepo_init. intros Hinit.
  destruct (NormalizeDirPath (Std.of_c_str (opt_path opts))) as [p|] eqn:Hroot;
    [|discriminate].
  injection Hinit as <-. cbn [token remote root credPtr].
  split; [apply of_c_str_cut|]. split; [apply of_c_str_cut|]. split.
  - exists (Std.of_c_str (opt_path opts)).
    split; [apply of_c_str_cut|].
    unfold NormalizeDirPath in Hroot.
    destruct (Std.of_c_str (opt_path opts)) as [|c str] eqn:E;
      [discriminate|].
    split; [discriminate|].
    destruct (Std.back (String c str)) as [b|]; [|discriminate].
    assert (Hb : negb (Ascii.eqb b "/") || negb (Ascii.eqb b "\") = true).
    { destruct (Ascii.eqb b "/") eqn:Eb; [|reflexivity].
      apply Ascii.eqb_eq in Eb. rewrite Eb. reflexivity. }
    rewrite Hb in Hroot. injection Hroot as <-. reflexivity.
  - destruct (credentials opts) as [[username password]|]; [|exact I].
    cbn [fst snd]. split; apply of_c_str_cut.
Qed.

Lemma constructor_cuts_options_at_NUL_witness :
  cut_at_NUL (webhookToken cut_options) "s3".
Proof.
  exact (proj1 (constructor_cuts_options_at_NUL cut_options
                  {| token := "s3"; remote := "https://example.org/cards.git";
                     root := "sync/";
                     credPtr := Some ("mirror", "pass")%string |}
                  eq_refl)).
Defined.
